(** * flowy: history folding, decision buffer and decision runtime

    A shallow embedding of the workflow side of flowy
    ([flowy/backend/swf.py] and [flowy/task.py]) together with the
    properties of the history folder, the call-id cursor, the retry scan,
    the decision buffer and the key mangling helpers.

    Conventions.
    - Python [int] is [Z]; Python [str] is [string]; [None] in a slot that
      otherwise holds a string is [option string].
    - [set] is [gset], [dict] is [gmap], [list] is [list].
    - A Python call that may raise returns [res A] ([Ok] is the normal
      return, [Err] the raised exception); stateful code threads its state
      explicitly and keeps the state reached when an exception is raised.
    - The remote service client ([boto] [Layer1]) is a scripted mock: a list
      of canned answers consumed in order and a log of the requests made. *)

From Stdlib Require Import ZArith Ascii String DecimalString.
From stdpp Require Import gmap strings list fin_maps.

Open Scope Z_scope.
Open Scope string_scope.

(** ** Exceptions *)

Inductive exn_kind :=
| KeyError
| AssertionError
| ValueError
| TypeError
| TaskError
| SWFResponseError
| _PaginationError
| StopIteration
| SuspendTask
| OtherException.

(** An exception value: its class and [str(e)]. *)
Record exn := Raise { kind : exn_kind; message : string }.

#[global] Instance exn_kind_eq_dec : EqDecision exn_kind.
Proof. solve_decision. Defined.

Inductive res (A : Type) :=
| Ok (a : A)
| Err (e : exn).
Arguments Ok {A} a.
Arguments Err {A} e.

#[global] Instance res_ret : MRet res := @Ok.
#[global] Instance res_bind : MBind res := fun A B f m =>
  match m with
  | Ok a => f a
  | Err e => Err e
  end.

Definition raises {A} (k : exn_kind) (r : res A) : Prop :=
  match r with
  | Err e => kind e = k
  | Ok _ => False
  end.

(** ** Strings *)

Module Str.

(** [str(n)] for an integer. *)
Definition str (n : Z) : string := NilZero.string_of_int (Z.to_int n).

(** [s.endswith(suffix)] *)
Fixpoint endswith (s suffix : string) : bool :=
  if String.eqb s suffix then true
  else match s with
       | EmptyString => false
       | String _ s' => endswith s' suffix
       end.

(** [s[:-2]] *)
Definition drop_last2 (s : string) : string :=
  substring 0 (String.length s - 2) s.

(** [s[:n]] *)
Definition take (n : nat) (s : string) : string := substring 0 n s.

(** [s.split(sep)] for a one-character separator: never empty. *)
Fixpoint split (sep : ascii) (s : string) : list string :=
  match s with
  | EmptyString => [EmptyString]
  | String c s' =>
      if Ascii.eqb c sep then EmptyString :: split sep s'
      else match split sep s' with
           | seg :: rest => String c seg :: rest
           | [] => [String c EmptyString]
           end
  end.

(** [l[-1]] on the (non-empty) result of a split. *)
Definition last_segment (l : list string) : string := List.last l EmptyString.

(** [c in s] *)
Fixpoint contains (c : ascii) (s : string) : bool :=
  match s with
  | EmptyString => false
  | String a s' => Ascii.eqb a c || contains c s'
  end.

(** [s.upper()] on ASCII text. *)
Definition upper_ascii (c : ascii) : ascii :=
  let n := nat_of_ascii c in
  if (Nat.leb 97 n && Nat.leb n 122)%bool then ascii_of_nat (n - 32) else c.

Fixpoint upper (s : string) : string :=
  match s with
  | EmptyString => EmptyString
  | String c s' => String (upper_ascii c) (upper s')
  end.

End Str.

(** ** Key mangling ([flowy/backend/swf.py], bottom of the file) *)

Definition colon : ascii := ":"%char.

(** [_timer_key]: ['%s:t' % call_key] *)
Definition _timer_key (call_key : string) : string := call_key +:+ ":t".

(** [_timer_call_key]: asserts the [":t"] suffix, then strips it. *)
Definition _timer_call_key (timer_key : string) : res string :=
  if Str.endswith timer_key ":t" then Ok (Str.drop_last2 timer_key)
  else Err (Raise AssertionError "").

(** [_subworkflow_key]: ['%s:%s' % (uuid.uuid4(), call_key)]; the fresh
    token drawn from [uuid.uuid4()] is the argument [uuid]. *)
Definition _subworkflow_key (uuid call_key : string) : string :=
  uuid +:+ ":" +:+ call_key.

(** [_subworkflow_call_key]: [subworkflow_key.split(':')[-1]] *)
Definition _subworkflow_call_key (subworkflow_key : string) : string :=
  Str.last_segment (Str.split colon subworkflow_key).

(** [_subworkflow_id]: [workflow_id.rsplit('-', 1)[-1]] *)
Definition _subworkflow_id (workflow_id : string) : string :=
  Str.last_segment (Str.split "-"%char workflow_id).

(** ** The history folder ([load_events], [flowy/backend/swf.py]) *)

Module History.

(** [workflowExecutionStartedEventAttributes], as read by
    [poll_next_decision]. *)
Record started_attrs := {
  taskList_name : string;
  taskStartToCloseTimeout : string;
  executionStartToCloseTimeout : string;
  tagList : option (list string);
  childPolicy : option string;
  workflowType_name : string;
  workflowType_version : string;
  input : string
}.

(** History events, with the attributes [load_events] reads.  Every event
    type the folder has no branch for is [OtherEvent]. *)
Inductive event :=
| WorkflowExecutionStarted (attrs : started_attrs)
| ActivityTaskScheduled (eventId : Z) (activityId : string)
| ActivityTaskCompleted (scheduledEventId : Z) (result : string)
| ActivityTaskFailed (scheduledEventId : Z) (reason : string)
| ActivityTaskTimedOut (scheduledEventId : Z)
| ScheduleActivityTaskFailed (activityId : string) (cause : string)
| StartChildWorkflowExecutionInitiated (workflowId : string)
| ChildWorkflowExecutionCompleted (workflowId : string) (result : string)
| ChildWorkflowExecutionFailed (workflowId : string) (reason : string)
| ChildWorkflowExecutionTimedOut (workflowId : string)
| StartChildWorkflowExecutionFailed (workflowId : string) (cause : string)
| TimerStarted (timerId : string)
| TimerFired (timerId : string)
| OtherEvent (eventType : string).

(** The tuple [load_events] returns. A value of [results] is [None] for a
    fired timer ([results[eid] = None]) and [Some r] for a completion. *)
Record snapshot := Snapshot {
  running : gset string;
  timedout : gset string;
  results : gmap string (option string);
  errors : gmap string string;
  order : list string
}.

Definition empty_snapshot : snapshot := Snapshot ∅ ∅ ∅ ∅ [].

(** [running.add(eid)] *)
Definition running_add (eid : string) (s : snapshot) : snapshot :=
  Snapshot ({[eid]} ∪ running s) (timedout s) (results s) (errors s) (order s).

(** [running.remove(eid)]: [KeyError] when [eid] is not a member. *)
Definition running_remove (eid : string) (s : snapshot) : res snapshot :=
  if decide (eid ∈ running s)
  then Ok (Snapshot (running s ∖ {[eid]}) (timedout s) (results s) (errors s)
             (order s))
  else Err (Raise KeyError eid).

(** [timedout.add(eid)] *)
Definition timedout_add (eid : string) (s : snapshot) : snapshot :=
  Snapshot (running s) ({[eid]} ∪ timedout s) (results s) (errors s) (order s).

(** [results[eid] = v] *)
Definition results_set (eid : string) (v : option string) (s : snapshot)
  : snapshot :=
  Snapshot (running s) (timedout s) (<[eid := v]> (results s)) (errors s)
    (order s).

(** [errors[eid] = reason] *)
Definition errors_set (eid reason : string) (s : snapshot) : snapshot :=
  Snapshot (running s) (timedout s) (results s) (<[eid := reason]> (errors s))
    (order s).

(** [order.append(eid)] *)
Definition order_append (eid : string) (s : snapshot) : snapshot :=
  Snapshot (running s) (timedout s) (results s) (errors s) (order s ++ [eid]).

(** [event2call[scheduledEventId]]: [KeyError] when absent. *)
Definition event2call_get (event2call : gmap Z string) (sid : Z) : res string :=
  match event2call !! sid with
  | Some eid => Ok eid
  | None => Err (Raise KeyError (Str.str sid))
  end.

(** The loop state: the five buckets and the local [event2call]. *)
Definition folder : Type := snapshot * gmap Z string.

(** One iteration of the [for event in event_iter] loop. *)
Definition step (st : folder) (e : event) : res folder :=
  let '(s, event2call) := st in
  match e with
  | ActivityTaskScheduled eventId eid =>
      Ok (running_add eid s, <[eventId := eid]> event2call)
  | ActivityTaskCompleted sid result =>
      eid ← event2call_get event2call sid;
      s ← running_remove eid s;
      Ok (order_append eid (results_set eid (Some result) s), event2call)
  | ActivityTaskFailed sid reason =>
      eid ← event2call_get event2call sid;
      s ← running_remove eid s;
      Ok (order_append eid (errors_set eid reason s), event2call)
  | ActivityTaskTimedOut sid =>
      eid ← event2call_get event2call sid;
      s ← running_remove eid s;
      Ok (order_append eid (timedout_add eid s), event2call)
  | ScheduleActivityTaskFailed eid reason =>
      Ok (order_append eid (errors_set eid reason s), event2call)
  | StartChildWorkflowExecutionInitiated wid =>
      Ok (running_add (_subworkflow_call_key wid) s, event2call)
  | ChildWorkflowExecutionCompleted wid result =>
      let eid := _subworkflow_call_key wid in
      s ← running_remove eid s;
      Ok (order_append eid (results_set eid (Some result) s), event2call)
  | ChildWorkflowExecutionFailed wid reason =>
      let eid := _subworkflow_call_key wid in
      s ← running_remove eid s;
      Ok (order_append eid (errors_set eid reason s), event2call)
  | ChildWorkflowExecutionTimedOut wid =>
      let eid := _subworkflow_call_key wid in
      s ← running_remove eid s;
      Ok (order_append eid (timedout_add eid s), event2call)
  | StartChildWorkflowExecutionFailed wid reason =>
      let eid := _subworkflow_call_key wid in
      Ok (order_append eid (errors_set eid reason s), event2call)
  | TimerStarted eid =>
      k ← _timer_call_key eid;
      Ok (running_add k s, event2call)
  | TimerFired eid =>
      k ← _timer_call_key eid;
      s ← running_remove k s;
      Ok (results_set eid None s, event2call)
  | WorkflowExecutionStarted _ | OtherEvent _ => Ok st
  end.

(** The loop, from a given loop state. *)
Fixpoint fold_events (st : folder) (h : list event) : res folder :=
  match h with
  | [] => Ok st
  | e :: h' => st' ← step st e; fold_events st' h'
  end.

(** [load_events(event_iter)] on a finite iterable. *)
Definition load_events (h : list event) : res snapshot :=
  st ← fold_events (empty_snapshot, ∅) h; Ok (fst st).

End History.

(** ** Python values and the default codec *)

(** The values a workflow passes around, as far as the codec can tell them
    apart: JSON atoms, and an object [json.dumps] has no encoding for. *)
Inductive pyobj :=
| PyNone
| PyBool (b : bool)
| PyInt (n : Z)
| PyObject (repr : string).

(** [json.dumps] on an atom; [TypeError] on anything else. *)
Definition json_dumps (v : pyobj) : res string :=
  match v with
  | PyNone => Ok "null"
  | PyBool true => Ok "true"
  | PyBool false => Ok "false"
  | PyInt n => Ok (Str.str n)
  | PyObject repr => Err (Raise TypeError (repr +:+ " is not JSON serializable"))
  end.

(** [', '.join(...)] over encoded items, stopping at the first failure. *)
Fixpoint json_items (vs : list pyobj) : res string :=
  match vs with
  | [] => Ok ""
  | [v] => json_dumps v
  | v :: vs' => a ← json_dumps v; b ← json_items vs'; Ok (a +:+ ", " +:+ b)
  end.

(** [_serialize_input] / [serialize_args]: [json.dumps([args, kwargs])],
    for positional arguments only. *)
Definition serialize_args (args : list pyobj) : res string :=
  items ← json_items args; Ok ("[[" +:+ items +:+ "], {}]").

(** ** Decisions and the service client *)

(** One entry of [Layer1Decisions._data].  [opts] holds the remaining
    keyword arguments (timeouts, task list) in the order the source passes
    them. *)
Inductive decision :=
| StartTimer (timer_id start_to_fire_timeout : string)
| ScheduleActivityTask (activity_id name version input : string)
    (opts : list (option string))
| StartChildWorkflowExecution (name version workflow_id input : string)
    (opts : list (option string))
| FailWorkflowExecution (reason : string)
| CompleteWorkflowExecution (result : string)
| ContinueAsNewWorkflowExecution (input : string) (child_policy : option string)
    (tag_list : option (list string)) (opts : list (option string)).

Definition is_scheduling (d : decision) : bool :=
  match d with
  | StartTimer _ _ | ScheduleActivityTask _ _ _ _ _
  | StartChildWorkflowExecution _ _ _ _ _ => true
  | _ => false
  end.

Definition is_terminal (d : decision) : bool := negb (is_scheduling d).

(** [len] of the scheduling decisions in a response. *)
Definition count_scheduling (ds : list decision) : nat :=
  length (filter (λ d, is_scheduling d = true) ds).

Module Layer1.

(** A page of [poll_for_decision_task]. A response without a task token (a
    long poll that timed out) has [taskToken = None]. *)
Record page := {
  taskToken : option string;
  events : list History.event;
  nextPageToken : option string
}.

Inductive request :=
| PollForDecisionTask (domain task_list : string) (identity : option string)
    (next_page_token : option string)
| RespondDecisionTaskCompleted (task_token : string) (ds : list decision).

(** The mock client. [polls] answers the successive
    [poll_for_decision_task] calls ([None]: [SWFResponseError]); [responds]
    says which [respond_decision_task_completed] calls go through ([false]:
    [SWFResponseError]; past the end of the list every call goes through);
    [log] records every request in order. *)
Record layer1 := {
  polls : list (option page);
  responds : list bool;
  log : list request
}.

(** Computations that talk to the client. [None] is a call that never
    returns: a long poll the script has no answer for, or an exhausted
    iteration budget. *)
Definition io (A : Type) : Type := layer1 → option (res A * layer1).

Definition io_ret {A} (a : A) : io A := λ l, Some (Ok a, l).
Definition io_raise {A} (e : exn) : io A := λ l, Some (Err e, l).
Definition io_bind {A B} (m : io A) (f : A → io B) : io B := λ l,
  match m l with
  | None => None
  | Some (Ok a, l') => f a l'
  | Some (Err e, l') => Some (Err e, l')
  end.
(** [try: m] with the outcome handed to the continuation. *)
Definition io_try {A} (m : io A) : io (res A) := λ l,
  match m l with
  | None => None
  | Some (r, l') => Some (Ok r, l')
  end.

Definition poll_for_decision_task (domain task_list : string)
    (identity next_page_token : option string) : io page := λ l,
  let l' rest := {| polls := rest; responds := responds l;
                    log := log l ++ [PollForDecisionTask domain task_list
                                       identity next_page_token] |} in
  match polls l with
  | [] => None
  | Some p :: rest => Some (Ok p, l' rest)
  | None :: rest => Some (Err (Raise SWFResponseError ""), l' rest)
  end.

Definition respond_decision_task_completed (task_token : string)
    (ds : list decision) (l : layer1) : res unit * layer1 :=
  let l' rest := {| polls := polls l; responds := rest;
                    log := log l ++ [RespondDecisionTaskCompleted task_token ds] |} in
  match responds l with
  | false :: rest => (Err (Raise SWFResponseError ""), l' rest)
  | true :: rest => (Ok tt, l' rest)
  | [] => (Ok tt, l' [])
  end.

(** The responses sent so far, oldest first. *)
Definition responses (l : layer1) : list (list decision) :=
  omap (λ r, match r with
             | RespondDecisionTaskCompleted _ ds => Some ds
             | _ => None
             end) (log l).

End Layer1.

#[global] Instance io_mret : MRet Layer1.io := @Layer1.io_ret.
#[global] Instance io_mbind : MBind Layer1.io :=
  fun A B f m => Layer1.io_bind m f.

(** ** [SWFWorkflowContext] and the proxies ([flowy/backend/swf.py]) *)

Module Context.
Import Layer1.

Definition _REASON_SIZE : nat := 256.
Definition _INPUT_SIZE : nat := 32768.
Definition _RESULT_SIZE : nat := 32768.

Definition _CHILD_POLICY : list (option string) :=
  [Some "TERMINATE"; Some "REQUEST_CANCEL"; Some "ABANDON"; None].

(** [_cp_encode] *)
Definition _cp_encode (val : option string) : res (option string) :=
  let val := Str.upper <$> val in
  if decide (val ∈ _CHILD_POLICY) then Ok val
  else Err (Raise ValueError "Invalid child policy value").

(** [_tags]: at most five distinct tags (the order Python's [set] yields
    them in is not specified; first occurrences are kept here). *)
Definition _tags (tags : option (list string)) : option (list string) :=
  (λ ts, take 5 (remove_dups ts)) <$> tags.

(** The fields of [SWFWorkflowContext]; [self.layer1] is threaded next to
    it. *)
Record context := {
  token : string;
  name : string;
  version : string;
  input : string;
  task_list : string;
  decision_duration : option string;
  workflow_duration : option string;
  tags : option (list string);
  child_policy : option string;
  snapshot : History.snapshot;
  decisions : list decision;
  closed : bool
}.

Definition with_decisions (ds : list decision) (c : context) : context :=
  {| token := token c; name := name c; version := version c; input := input c;
     task_list := task_list c; decision_duration := decision_duration c;
     workflow_duration := workflow_duration c; tags := tags c;
     child_policy := child_policy c; snapshot := snapshot c;
     decisions := ds; closed := closed c |}.

Definition with_closed (b : bool) (c : context) : context :=
  {| token := token c; name := name c; version := version c; input := input c;
     task_list := task_list c; decision_duration := decision_duration c;
     workflow_duration := workflow_duration c; tags := tags c;
     child_policy := child_policy c; snapshot := snapshot c;
     decisions := decisions c; closed := b |}.

(** [timer_ready] *)
Definition timer_ready (c : context) (call_key : string) : bool :=
  bool_decide (is_Some (History.results (snapshot c) !! _timer_key call_key)).

(** [flush]: the [SWFResponseError] of the client is swallowed. *)
Definition flush (st : context * layer1) : context * layer1 :=
  let '(c, l) := st in
  if closed c then (c, l)
  else
    let c := with_closed true c in
    (c, snd (respond_decision_task_completed (token c) (decisions c) l)).

(** [fail] *)
Definition fail (reason : string) (st : context * layer1) : context * layer1 :=
  let '(c, l) := st in
  flush (with_decisions [FailWorkflowExecution (Str.take _REASON_SIZE reason)] c, l).

(** [finish] *)
Definition finish (result : string) (st : context * layer1) : context * layer1 :=
  let '(c, l) := st in
  flush (with_decisions
           [CompleteWorkflowExecution (Str.take _RESULT_SIZE result)] c, l).

(** [restart]: the buffer is replaced first; [_cp_encode] may then raise
    [ValueError] before anything is appended or flushed. *)
Definition restart (input_data : string) (st : context * layer1)
  : res unit * (context * layer1) :=
  let '(c, l) := st in
  let c := with_decisions [] c in
  match _cp_encode (child_policy c) with
  | Err e => (Err e, (c, l))
  | Ok cp =>
      (Ok tt,
       flush (with_decisions
                [ContinueAsNewWorkflowExecution
                   (Str.take _INPUT_SIZE input_data) cp (_tags (tags c))
                   [decision_duration c; workflow_duration c;
                    Some (task_list c)]] c, l))
  end.

(** [schedule_timer] *)
Definition schedule_timer (call_key : string) (delay : Z) (c : context)
  : context :=
  with_decisions (decisions c ++ [StartTimer (_timer_key call_key) (Str.str delay)]) c.

(** [schedule_activity] *)
Definition schedule_activity (call_key name version input_data : string)
    (opts : list (option string)) (c : context) : context :=
  with_decisions
    (decisions c ++ [ScheduleActivityTask call_key name version input_data opts]) c.

(** [schedule_workflow]; [uuid] is the token [_subworkflow_key] draws. *)
Definition schedule_workflow (uuid call_key name version input_data : string)
    (opts : list (option string)) (c : context) : context :=
  with_decisions
    (decisions c ++ [StartChildWorkflowExecution name version
                       (_subworkflow_key uuid call_key) input_data opts]) c.

(** [SWFActivityProxy] *)
Record activity_proxy := {
  ap_name : string;
  ap_version : string;
  ap_task_list : option string;
  ap_heartbeat : option string;
  ap_schedule_to_close : option string;
  ap_schedule_to_start : option string;
  ap_start_to_close : option string;
  ap_serialize_input : list pyobj → res string
}.

(** [SWFActivityProxy.schedule] *)
Definition activity_schedule (p : activity_proxy) (call_key : string)
    (delay : Z) (args : list pyobj) (st : context * layer1) : context * layer1 :=
  let '(c, l) := st in
  if bool_decide (delay > 0) && negb (timer_ready c call_key)
  then (schedule_timer call_key delay c, l)
  else match ap_serialize_input p args with
       | Err e => fail (message e) (c, l)
       | Ok input_data =>
           (schedule_activity call_key (ap_name p) (ap_version p) input_data
              [ap_task_list p; ap_heartbeat p; ap_schedule_to_close p;
               ap_schedule_to_start p; ap_start_to_close p] c, l)
       end.

(** [SWFWorkflowProxy] *)
Record workflow_proxy := {
  wp_name : string;
  wp_version : string;
  wp_task_list : option string;
  wp_workflow_duration : option string;
  wp_decision_duration : option string;
  wp_serialize_input : list pyobj → res string
}.

(** [SWFWorkflowProxy.schedule] *)
Definition workflow_schedule (p : workflow_proxy) (uuid call_key : string)
    (delay : Z) (args : list pyobj) (st : context * layer1) : context * layer1 :=
  let '(c, l) := st in
  if bool_decide (delay > 0) && negb (timer_ready c call_key)
  then (schedule_timer call_key delay c, l)
  else match wp_serialize_input p args with
       | Err e => fail (message e) (c, l)
       | Ok input_data =>
           (schedule_workflow uuid call_key (wp_name p) (wp_version p) input_data
              [wp_task_list p; wp_workflow_duration p; wp_decision_duration p]
              c, l)
       end.

(** What a decision turn may do to the context, in any order. *)
Inductive op :=
| Flush
| Fail (reason : string)
| Finish (result : string)
| Restart (input_data : string)
| ActivitySchedule (p : activity_proxy) (call_key : string) (delay : Z)
    (args : list pyobj)
| WorkflowSchedule (p : workflow_proxy) (uuid call_key : string) (delay : Z)
    (args : list pyobj).

Definition apply (st : context * layer1) (o : op) : context * layer1 :=
  match o with
  | Flush => flush st
  | Fail reason => fail reason st
  | Finish result => finish result st
  | Restart input_data => snd (restart input_data st)
  | ActivitySchedule p k d args => activity_schedule p k d args st
  | WorkflowSchedule p u k d args => workflow_schedule p u k d args st
  end.

Definition run (ops : list op) (st : context * layer1) : context * layer1 :=
  fold_left apply ops st.

End Context.

(** ** Polling for a decision task ([flowy/backend/swf.py]) *)

Module Poll.
Import Layer1.

(** A token is usable when present and non-empty. *)
Definition truthy (t : option string) : bool :=
  match t with
  | Some (String _ _) => true
  | _ => false
  end.

(** [poll_first_page]: poll until a response carries a task token. [fuel]
    bounds the iterations of the [while]. *)
Fixpoint poll_first_page (fuel : nat) (domain task_list : string)
    (identity : option string) : io page :=
  match fuel with
  | O => λ _, None
  | S fuel' => λ l,
      match poll_for_decision_task domain task_list identity None l with
      | None => None
      | Some (Ok p, l') =>
          if truthy (taskToken p) then Some (Ok p, l')
          else poll_first_page fuel' domain task_list identity l'
      | Some (Err e, l') =>
          if decide (kind e = SWFResponseError)
          then poll_first_page fuel' domain task_list identity l'
          else Some (Err e, l')
      end
  end.

(** The [for _ in range(n)] loop of [poll_response_page]; the [else]
    branch of the loop raises [_PaginationError]. *)
Fixpoint poll_response_page_loop (n : nat) (domain task_list token : string)
    (identity : option string) : io page :=
  match n with
  | O => io_raise (Raise _PaginationError "")
  | S n' => λ l,
      match poll_for_decision_task domain task_list identity (Some token) l with
      | None => None
      | Some (Ok p, l') => Some (Ok p, l')
      | Some (Err e, l') =>
          if decide (kind e = SWFResponseError)
          then poll_response_page_loop n' domain task_list token identity l'
          else Some (Err e, l')
      end
  end.

(** [poll_response_page] *)
Definition poll_response_page (domain task_list token : string)
    (identity : option string) : io page :=
  poll_response_page_loop 7 domain task_list token identity.

(** The state of the [events] generator: what is left of the current page
    and that page's continuation token. *)
Record events_gen := {
  pending : list History.event;
  next_token : option string
}.

Definition events (first_page : page) : events_gen :=
  {| pending := Layer1.events first_page; next_token := nextPageToken first_page |}.

(** [next(all_events)]: [Some (event, generator)] or [None] when the
    generator is exhausted. [fuel] bounds the number of empty pages skipped. *)
Fixpoint events_next (fuel : nat) (domain task_list : string)
    (identity : option string) (g : events_gen)
  : io (option (History.event * events_gen)) :=
  match pending g with
  | e :: rest => mret (Some (e, {| pending := rest; next_token := next_token g |}))
  | [] =>
      if truthy (next_token g) then
        match fuel with
        | O => λ _, None
        | S fuel' =>
            p ← poll_response_page domain task_list (default "" (next_token g))
                  identity;
            events_next fuel' domain task_list identity (events p)
        end
      else mret None
  end.

(** [load_events(all_events)] driven by the generator. *)
Fixpoint load_events_from (fuel : nat) (domain task_list : string)
    (identity : option string) (g : events_gen) (st : History.folder)
  : io History.snapshot :=
  match fuel with
  | O => λ _, None
  | S fuel' =>
      n ← events_next fuel' domain task_list identity g;
      match n with
      | None => mret (fst st)
      | Some (e, g') =>
          match History.step st e with
          | Ok st' => load_events_from fuel' domain task_list identity g' st'
          | Err x => io_raise x
          end
      end
  end.

Definition assert (b : bool) : io unit :=
  if b then mret tt else io_raise (Raise AssertionError "").

(** [poll_next_decision]. On [_PaginationError] the function calls itself
    with the arguments in the order [layer1, task_list, domain, identity],
    as the source has them. *)
Fixpoint poll_next_decision (fuel : nat) (domain task_list : string)
    (identity : option string) : io Context.context :=
  match fuel with
  | O => λ _, None
  | S fuel' =>
      first_page ← poll_first_page fuel' domain task_list identity;
      let token := default "" (taskToken first_page) in
      let all_events := events first_page in
      n ← events_next fuel' domain task_list identity all_events;
      match n with
      | None => io_raise (Raise StopIteration "")
      | Some (History.WorkflowExecutionStarted a, all_events) =>
          _ ← assert (bool_decide (History.taskList_name a = task_list));
          r ← io_try (load_events_from fuel' domain task_list identity all_events
                        (History.empty_snapshot, ∅));
          match r with
          | Err e =>
              if decide (kind e = _PaginationError)
              then poll_next_decision fuel' task_list domain identity
              else io_raise e
          | Ok snap =>
              mret {| Context.token := token;
                      Context.name := History.workflowType_name a;
                      Context.version := History.workflowType_version a;
                      Context.input := History.input a;
                      Context.task_list := task_list;
                      Context.decision_duration :=
                        Some (History.taskStartToCloseTimeout a);
                      Context.workflow_duration :=
                        Some (History.executionStartToCloseTimeout a);
                      Context.tags := History.tagList a;
                      Context.child_policy := History.childPolicy a;
                      Context.snapshot := snap;
                      Context.decisions := [];
                      Context.closed := false |}
          end
      | Some (_, _) => io_raise (Raise AssertionError "")
      end
  end.

End Poll.

(** ** The decision scheduler and the decision runtime ([flowy/task.py]) *)

Module Task.
Import Layer1.

(** Modelled from the spec: the task specs of [flowy.spec] (their
    [schedule] and [restart] methods) are not part of the sources. Following
    section 4.E, [spec.schedule(decisions, call_id, input)] appends the one
    scheduling decision of its kind, and [spec.restart(decisions, input,
    tags)] appends the one continue-as-new decision. *)
Inductive spec_kind := ActivitySpec | WorkflowSpec.

Record spec := {
  spec_kind_of : spec_kind;
  spec_name : string;
  spec_version : string;
  spec_child_policy : option string;
  spec_opts : list (option string)
}.

Definition spec_schedule (sp : spec) (ds : list decision) (call_id input : string)
  : list decision :=
  match spec_kind_of sp with
  | ActivitySpec =>
      ds ++ [ScheduleActivityTask call_id (spec_name sp) (spec_version sp) input
               (spec_opts sp)]
  | WorkflowSpec =>
      ds ++ [StartChildWorkflowExecution (spec_name sp) (spec_version sp) call_id
               input (spec_opts sp)]
  end.

Definition spec_restart (sp : spec) (ds : list decision) (input : string)
    (tags : option (list string)) : list decision :=
  ds ++ [ContinueAsNewWorkflowExecution input (spec_child_policy sp) tags
           (spec_opts sp)].

(** *** [SWFScheduler] *)

Record scheduler := {
  _swf_client : layer1;
  _token : string;
  _rate_limit : Z;
  _decisions : list decision;
  _closed : bool
}.

(** [SWFScheduler.__init__] *)
Definition new_scheduler (swf_client : layer1) (token : string) (rate_limit : Z)
  : scheduler :=
  {| _swf_client := swf_client; _token := token; _rate_limit := rate_limit;
     _decisions := []; _closed := false |}.

Definition set_decisions (ds : list decision) (s : scheduler) : scheduler :=
  {| _swf_client := _swf_client s; _token := _token s;
     _rate_limit := _rate_limit s; _decisions := ds; _closed := _closed s |}.

(** [flush] *)
Definition flush (s : scheduler) : bool * scheduler :=
  if _closed s then (false, s)
  else
    let '(r, l) :=
      respond_decision_task_completed (_token s) (_decisions s) (_swf_client s) in
    (match r with Ok _ => true | Err _ => false end,
     {| _swf_client := l; _token := _token s; _rate_limit := _rate_limit s;
        _decisions := _decisions s; _closed := true |}).

(** [restart] *)
Definition restart (sp : spec) (input : string) (tags : option (list string))
    (s : scheduler) : bool * scheduler :=
  flush (set_decisions (spec_restart sp [] input tags) s).

(** [fail]: [reason] is [str(reason)]. *)
Definition fail (reason : string) (s : scheduler) : bool * scheduler :=
  flush (set_decisions [FailWorkflowExecution (Str.take 256 reason)] s).

(** [complete] *)
Definition complete (result : string) (s : scheduler) : bool * scheduler :=
  flush (set_decisions [CompleteWorkflowExecution result] s).

(** [len(self._decisions._data) < self._rate_limit] *)
Definition under_limit (s : scheduler) : bool :=
  bool_decide (Z.of_nat (length (_decisions s)) < _rate_limit s).

(** [schedule_timer] *)
Definition schedule_timer (delay call_id : Z) (s : scheduler) : scheduler :=
  if under_limit s
  then set_decisions (_decisions s ++ [StartTimer (Str.str call_id) (Str.str delay)]) s
  else s.

(** [schedule_activity] *)
Definition schedule_activity (sp : spec) (call_id : Z) (input : string)
    (s : scheduler) : scheduler :=
  if under_limit s
  then set_decisions (spec_schedule sp (_decisions s) (Str.str call_id) input) s
  else s.

(** [schedule_workflow]: [uuid] is the value of [uuid.uuid4()]; the two
    parts are joined with ["-"]. *)
Definition schedule_workflow (uuid : string) (sp : spec) (call_id : Z)
    (input : string) (s : scheduler) : scheduler :=
  if under_limit s
  then
    let call_id := uuid +:+ "-" +:+ Str.str call_id in
    set_decisions (spec_schedule sp (_decisions s) call_id input) s
  else s.

(** What a decision turn may ask of its scheduler, in any order. *)
Inductive op :=
| Flush
| Restart (sp : spec) (input : string) (tags : option (list string))
| Fail (reason : string)
| Complete (result : string)
| ScheduleTimer (delay call_id : Z)
| ScheduleActivity (sp : spec) (call_id : Z) (input : string)
| ScheduleWorkflow (uuid : string) (sp : spec) (call_id : Z) (input : string).

Definition apply (s : scheduler) (o : op) : scheduler :=
  match o with
  | Flush => snd (flush s)
  | Restart sp input tags => snd (restart sp input tags s)
  | Fail reason => snd (fail reason s)
  | Complete result => snd (complete result s)
  | ScheduleTimer delay call_id => schedule_timer delay call_id s
  | ScheduleActivity sp call_id input => schedule_activity sp call_id input s
  | ScheduleWorkflow uuid sp call_id input =>
      schedule_workflow uuid sp call_id input s
  end.

Definition run (ops : list op) (s : scheduler) : scheduler :=
  fold_left apply ops s.

(** An operation that asks for a new scheduling decision. *)
Definition is_schedule_op (o : op) : bool :=
  match o with
  | ScheduleTimer _ _ | ScheduleActivity _ _ _ | ScheduleWorkflow _ _ _ _ => true
  | _ => false
  end.

(** *** [_SWFWorkflow] *)

Inductive status := _TIMEDOUT | _RUNNING | _ERROR | _FOUND | _NOTFOUND.

#[global] Instance status_eq_dec : EqDecision status.
Proof. solve_decision. Defined.

(** The class attributes [_serialize_result],
    [_serialize_restart_arguments] and [_deserialize_arguments]. *)
Record codec := {
  _serialize_result : pyobj → res string;
  _serialize_restart_arguments : list pyobj → res string;
  _deserialize_arguments : string → res (list pyobj)
}.

Record workflow := {
  _scheduler : scheduler;
  _running : gset Z;
  _timedout : gset Z;
  _results : gmap Z (option string);
  _errors : gmap Z string;
  _order : list Z;
  _spec : spec;
  _tags : option (list string);
  _scheduled : bool;
  _call_id : Z;
  _input : string;
  _codec : codec
}.

Definition set_call_id (c : Z) (w : workflow) : workflow :=
  {| _scheduler := _scheduler w; _running := _running w;
     _timedout := _timedout w; _results := _results w; _errors := _errors w;
     _order := _order w; _spec := _spec w; _tags := _tags w;
     _scheduled := _scheduled w; _call_id := c; _input := _input w;
     _codec := _codec w |}.

Definition set_scheduled (b : bool) (w : workflow) : workflow :=
  {| _scheduler := _scheduler w; _running := _running w;
     _timedout := _timedout w; _results := _results w; _errors := _errors w;
     _order := _order w; _spec := _spec w; _tags := _tags w;
     _scheduled := b; _call_id := _call_id w; _input := _input w;
     _codec := _codec w |}.

Definition set_scheduler (s : scheduler) (w : workflow) : workflow :=
  {| _scheduler := s; _running := _running w;
     _timedout := _timedout w; _results := _results w; _errors := _errors w;
     _order := _order w; _spec := _spec w; _tags := _tags w;
     _scheduled := _scheduled w; _call_id := _call_id w; _input := _input w;
     _codec := _codec w |}.

(** [SWFWorkflow.__init__] over [_SWFWorkflow.__init__]. The ids arrive
    already converted by [int]; [running] keeps the collection it was given,
    whose [len] sets the rate limit. *)
Definition SWFWorkflow (swf_client : layer1) (input token : string)
    (running : list Z) (timedout : gset Z) (results : gmap Z (option string))
    (errors : gmap Z string) (order : list Z) (sp : spec)
    (tags : option (list string)) (cd : codec) : workflow :=
  {| _scheduler := new_scheduler swf_client token (64 - Z.of_nat (length running));
     _running := list_to_set running;
     _timedout := timedout; _results := results; _errors := errors;
     _order := order; _spec := sp; _tags := tags;
     _scheduled := false; _call_id := 0; _input := input;
     _codec := cd |}.

(** A codec over the atoms: [json.dumps] for results and restart
    arguments, and a decoder that knows the encoding of the empty argument
    list only. *)
Definition atom_codec : codec :=
  {| _serialize_result := json_dumps;
     _serialize_restart_arguments := serialize_args;
     _deserialize_arguments := λ s,
       if String.eqb s "[[], {}]" then Ok []
       else Err (Raise ValueError "No JSON object could be decoded") |}.

(** Methods of the workflow: a state and exception monad. The state
    reached when the exception was raised is kept. *)
Definition W (A : Type) : Type := workflow → res A * workflow.

Definition w_ret {A} (a : A) : W A := λ w, (Ok a, w).
Definition w_raise {A} (e : exn) : W A := λ w, (Err e, w).
Definition w_bind {A B} (m : W A) (f : A → W B) : W B := λ w,
  match m w with
  | (Ok a, w') => f a w'
  | (Err e, w') => (Err e, w')
  end.
Definition w_get : W workflow := λ w, (Ok w, w).
Definition w_modify (f : workflow → workflow) : W unit := λ w, (Ok tt, f w).

(** [try: body finally: fin] *)
Definition try_finally {A} (body : W A) (fin : W unit) : W A := λ w,
  let '(r, w1) := body w in
  match fin w1 with
  | (Ok _, w2) => (r, w2)
  | (Err e, w2) => (Err e, w2)
  end.

End Task.

#[global] Instance w_mret : MRet Task.W := @Task.w_ret.
#[global] Instance w_mbind : MBind Task.W := fun A B f m => Task.w_bind m f.

Module Runtime.
Import Layer1 Task.

(** [self._order.index(x)]: [ValueError] when [x] is not in the list. *)
Fixpoint index_of (x : Z) (l : list Z) : option nat :=
  match l with
  | [] => None
  | y :: l' => if decide (y = x) then Some O else S <$> index_of x l'
  end.

Definition order_index (x : Z) : W nat := λ w,
  match index_of x (_order w) with
  | Some i => (Ok i, w)
  | None => (Err (Raise ValueError "is not in list"), w)
  end.

(** [range(a, b)] *)
Definition range (a b : Z) : list Z :=
  map (λ i, a + Z.of_nat i) (seq 0 (Z.to_nat (b - a))).

(** What [_schedule] hands back: the state, the value and the position in
    [order]. *)
Definition outcome : Type := status * option string * option nat.

(** [_search_timer] *)
Definition _search_timer : W status := λ w,
  if decide (is_Some (_results w !! _call_id w))
  then (Ok _FOUND, set_call_id (_call_id w + 1) w)
  else if decide (_call_id w ∈ _running w) then (Ok _RUNNING, w)
  else (Ok _NOTFOUND, w).

(** The body of the [for self._call_id in range(...)] loop of
    [_search_result], over the ids still to visit; the empty list is the
    statement after the loop. *)
Fixpoint _search_result_loop (ids : list Z) : W outcome :=
  match ids with
  | [] =>
      w ← w_get;
      i ← order_index (_call_id w);
      mret (_TIMEDOUT, None, Some i)
  | id :: ids' =>
      _ ← w_modify (set_call_id id);
      w ← w_get;
      if decide (id ∈ _timedout w) then _search_result_loop ids'
      else if decide (id ∈ _running w) then mret (_RUNNING, None, None)
      else match _errors w !! id with
           | Some reason =>
               i ← order_index id; mret (_ERROR, Some reason, Some i)
           | None =>
               match _results w !! id with
               | Some v => i ← order_index id; mret (_FOUND, v, Some i)
               | None => mret (_NOTFOUND, None, None)
               end
           end
  end.

(** [_search_result] *)
Definition _search_result (retry : Z) : W outcome := λ w,
  _search_result_loop (range (_call_id w) (_call_id w + retry + 1)) w.

(** [_reserve_call_ids] *)
Definition _reserve_call_ids (call_id delay retry : Z) : W unit :=
  w_modify (set_call_id
              (1 + call_id + (if bool_decide (delay > 0) then 1 else 0) + retry)).

(** The scheduling callbacks [_schedule] is handed. *)
Definition sched_fn : Type := spec → Z → string → scheduler → scheduler.

Definition call_scheduler (f : scheduler → scheduler) : W unit :=
  w_modify (λ w, set_scheduler (f (_scheduler w)) w).

(** [_schedule] *)
Definition _schedule (sp : spec) (input : string) (retry delay : Z)
    (sched : sched_fn) : W outcome := λ w,
  let initial_call_id := _call_id w in
  let search : W outcome :=
    '(state, value, order) ← _search_result retry;
    if decide (state = _NOTFOUND) then
      _ ← w_modify (set_scheduled true);
      w' ← w_get;
      _ ← call_scheduler (sched sp (_call_id w') input);
      mret (_RUNNING, None, None)
    else mret (state, value, order) in
  try_finally
    (if bool_decide (delay ≠ 0) then
       state ← _search_timer;
       state ← (if decide (state = _NOTFOUND) then
                  _ ← w_modify (set_scheduled true);
                  w' ← w_get;
                  _ ← call_scheduler (schedule_timer delay (_call_id w'));
                  mret _RUNNING
                else mret state);
       if decide (state = _FOUND) then search
       else mret (state, None, None)
     else search)
    (_reserve_call_ids initial_call_id delay retry) w.

(** [_schedule_activity] *)
Definition _schedule_activity (sp : spec) (input : string) (retry delay : Z)
  : W outcome :=
  _schedule sp input retry delay schedule_activity.

(** [_schedule_workflow]; [uuid] is what [uuid.uuid4()] returns if the
    scheduler gets to draw it. *)
Definition _schedule_workflow (uuid : string) (sp : spec) (input : string)
    (retry delay : Z) : W outcome :=
  _schedule sp input retry delay (schedule_workflow uuid).

(** Lift a scheduler method that reports success. *)
Definition ask_scheduler (f : scheduler → bool * scheduler) : W bool := λ w,
  let '(b, s) := f (_scheduler w) in (Ok b, set_scheduler s w).

(** [restart] *)
Definition restart (args : list pyobj) : W bool := λ w,
  match _serialize_restart_arguments (_codec w) args with
  | Err e =>
      if decide (kind e = TypeError) then (Ok false, w) else (Err e, w)
  | Ok input =>
      let w := set_scheduled true w in
      ask_scheduler (Task.restart (_spec w) input (_tags w)) w
  end.

(** [_fail] *)
Definition _fail (reason : string) : W bool := λ w,
  ask_scheduler (fail reason) (set_scheduled true w).

(** [_suspend] *)
Definition _suspend : W bool := ask_scheduler flush.

(** Modelled from the spec: the wrappers of [flowy.result] are not part of
    the sources. Following section 4.E, [result()] on a [Result] returns
    its value and on an [Error] or a [Timeout] raises a [TaskError]; any
    other object the workflow returns is a plain [Value]. *)
Inductive run_result :=
| Value (v : pyobj)
| IsResult (v : pyobj)
| IsError (reason : string)
| IsTimeout (reason : string).

(** [_finish] *)
Definition _finish (result : run_result) : W bool := λ w,
  match result with
  | IsError reason | IsTimeout reason => ask_scheduler (fail reason) w
  | Value r | IsResult r =>
      if negb (_scheduled w) && bool_decide (_running w = ∅) then
        match _serialize_result (_codec w) r with
        | Err e =>
            if decide (kind e = TypeError) then (Ok false, w) else (Err e, w)
        | Ok r => ask_scheduler (complete r) w
        end
      else ask_scheduler flush w
  end.

(** [Task.__call__] for a workflow whose body is [run]. *)
Definition call (run : list pyobj → W run_result) : W bool := λ w,
  match _deserialize_arguments (_codec w) (_input w) with
  | Err e =>
      if decide (kind e = ValueError) then (Ok false, w) else (Err e, w)
  | Ok args =>
      match run args w with
      | (Err e, w') =>
          if decide (kind e = SuspendTask) then _suspend w'
          else _fail (message e) w'
      | (Ok result, w') => _finish result w'
      end
  end.

(** One proxy call of a workflow body. *)
Inductive proxy_call :=
| CallActivity (sp : spec) (input : string) (retry delay : Z)
| CallWorkflow (uuid : string) (sp : spec) (input : string) (retry delay : Z).

Definition call_retry (c : proxy_call) : Z :=
  match c with
  | CallActivity _ _ retry _ | CallWorkflow _ _ _ retry _ => retry
  end.

Definition call_delay (c : proxy_call) : Z :=
  match c with
  | CallActivity _ _ _ delay | CallWorkflow _ _ _ _ delay => delay
  end.

Definition do_call (c : proxy_call) : W outcome :=
  match c with
  | CallActivity sp input retry delay => _schedule_activity sp input retry delay
  | CallWorkflow uuid sp input retry delay =>
      _schedule_workflow uuid sp input retry delay
  end.

(** The calls of a workflow body in source order, each paired with the
    cursor it started from; the body goes on after a call that raised (it
    may catch the exception). *)
Fixpoint run_calls (calls : list proxy_call) (w : workflow)
  : list (Z * res outcome) * workflow :=
  match calls with
  | [] => ([], w)
  | c :: calls' =>
      let '(r, w1) := do_call c w in
      let '(t, w2) := run_calls calls' w1 in
      ((_call_id w, r) :: t, w2)
  end.

(** The number of ids a call reserves. *)
Definition window (c : proxy_call) : Z :=
  1 + (if bool_decide (call_delay c > 0) then 1 else 0) + call_retry c.

(** The cursors [c_0, c_1, ...] of the allocation rule:
    [c_{k+1} = c_k + window_k]. *)
Fixpoint cursors (c0 : Z) (calls : list proxy_call) : list Z :=
  match calls with
  | [] => []
  | c :: calls' => c0 :: cursors (c0 + window c) calls'
  end.

End Runtime.

(** * Properties *)

(** ** Vocabulary of the history-folder properties *)

Module HistorySpec.
Import History.

(** The [KeyError] branches of the loop body: a completion, failure or
    timeout whose [scheduledEventId] was never recorded, or a finalising
    event (a fired timer included) whose call key is not running. *)
Definition dangling (st : folder) (e : event) : Prop :=
  match e with
  | ActivityTaskCompleted sid _ | ActivityTaskFailed sid _
  | ActivityTaskTimedOut sid =>
      match st.2 !! sid with
      | None => True
      | Some eid => eid ∉ running st.1
      end
  | ChildWorkflowExecutionCompleted wid _ | ChildWorkflowExecutionFailed wid _
  | ChildWorkflowExecutionTimedOut wid =>
      _subworkflow_call_key wid ∉ running st.1
  | TimerFired tid =>
      match _timer_call_key tid with
      | Ok k => k ∉ running st.1
      | Err _ => False
      end
  | _ => False
  end.

(** Timer events carry an id of the form ["<key>:t"]. *)
Definition timer_id_ok (e : event) : Prop :=
  match e with
  | TimerStarted tid | TimerFired tid => Str.endswith tid ":t" = true
  | _ => True
  end.

(** A history is well formed when, event after event, no reference
    dangles and timer ids have their suffix. *)
Fixpoint well_formed_from (st : folder) (h : list event) : Prop :=
  match h with
  | [] => True
  | e :: h' =>
      ¬ dangling st e ∧ timer_id_ok e ∧
      match step st e with
      | Ok st' => well_formed_from st' h'
      | Err _ => True
      end
  end.

Definition well_formed (h : list event) : Prop :=
  well_formed_from (empty_snapshot, ∅) h.

(** [k] has finalised: it timed out, or has a result or an error. *)
Definition finalised (s : snapshot) (k : string) : Prop :=
  k ∈ timedout s ∨ is_Some (results s !! k) ∨ is_Some (errors s !! k).

(** An event does not reuse a key: what it schedules, starts or rejects
    has not finalised before, a rejected key is not running, and the key a
    fired timer is stored under is not in use. *)
Definition fresh (st : folder) (e : event) : Prop :=
  let s := st.1 in
  match e with
  | ActivityTaskScheduled _ eid => ¬ finalised s eid
  | StartChildWorkflowExecutionInitiated wid =>
      ¬ finalised s (_subworkflow_call_key wid)
  | ScheduleActivityTaskFailed eid _ => ¬ finalised s eid ∧ eid ∉ running s
  | StartChildWorkflowExecutionFailed wid _ =>
      ¬ finalised s (_subworkflow_call_key wid) ∧
      _subworkflow_call_key wid ∉ running s
  | TimerStarted tid =>
      match _timer_call_key tid with
      | Ok k => ¬ finalised s k
      | Err _ => True
      end
  | TimerFired tid => ¬ finalised s tid ∧ tid ∉ running s
  | _ => True
  end.

Fixpoint no_reuse_from (st : folder) (h : list event) : Prop :=
  match h with
  | [] => True
  | e :: h' =>
      fresh st e ∧
      match step st e with
      | Ok st' => no_reuse_from st' h'
      | Err _ => True
      end
  end.

Definition no_reuse (h : list event) : Prop :=
  no_reuse_from (empty_snapshot, ∅) h.

(** The number of times [k] occurs in [l]. *)
Definition occurrences (k : string) (l : list string) : nat :=
  length (filter (λ x, x = k) l).

(** The entries of [results] written by fired timers. *)
Definition fired_timers (s : snapshot) : gmap string (option string) :=
  filter (λ kv, kv.2 = None) (results s).

(** The four buckets are pairwise disjoint. *)
Definition buckets_disjoint (s : snapshot) : Prop :=
  running s ## timedout s ∧ running s ## dom (results s) ∧
  running s ## dom (errors s) ∧ timedout s ## dom (results s) ∧
  timedout s ## dom (errors s) ∧ dom (results s) ## dom (errors s).

(** The snapshot invariant of section 3 as it is written: disjoint
    buckets, every finalised key exactly once in [order], and the count. *)
Definition snapshot_invariant (s : snapshot) : Prop :=
  buckets_disjoint s ∧
  (∀ k, finalised s k → occurrences k (order s) = 1%nat) ∧
  length (order s) =
    (size (timedout s) + size (results s) + size (errors s))%nat.

#[global] Instance dangling_dec st e : Decision (dangling st e).
Proof.
  destruct e; simpl; try apply _; repeat case_match; apply _.
Defined.

#[global] Instance timer_id_ok_dec e : Decision (timer_id_ok e).
Proof. destruct e; simpl; apply _. Defined.

#[global] Instance well_formed_from_dec st h : Decision (well_formed_from st h).
Proof.
  revert st. induction h as [|e h IH]; intros st; simpl; [apply _|].
  destruct (step st e); apply _.
Defined.

#[global] Instance finalised_dec s k : Decision (finalised s k).
Proof. unfold finalised. apply _. Defined.

#[global] Instance fresh_dec st e : Decision (fresh st e).
Proof.
  destruct e; simpl; try apply _; repeat case_match; apply _.
Defined.

#[global] Instance no_reuse_from_dec st h : Decision (no_reuse_from st h).
Proof.
  revert st. induction h as [|e h IH]; intros st; simpl; [apply _|].
  destruct (step st e); apply _.
Defined.

(** The invariant the loop keeps when no key is reused. *)
Record buckets (s : snapshot) : Prop := {
  bk_disjoint : buckets_disjoint s;
  bk_nodup : NoDup (order s);
  bk_order : ∀ k, k ∈ order s ↔
               k ∈ timedout s ∨ is_Some (errors s !! k) ∨
               ∃ r, results s !! k = Some (Some r);
  bk_count : (length (order s) + size (fired_timers s) =
              size (timedout s) + size (results s) + size (errors s))%nat
}.

End HistorySpec.

(** ** Vocabulary of the runtime and buffer properties *)

Module RuntimeSpec.
Import Task Runtime.

(** The snapshot invariant of section 3 on the buckets the runtime holds. *)
Definition buckets_disjoint (w : workflow) : Prop :=
  _running w ## _timedout w ∧ _running w ## dom (_results w) ∧
  _running w ## dom (_errors w) ∧ _timedout w ## dom (_results w) ∧
  _timedout w ## dom (_errors w) ∧ dom (_results w) ## dom (_errors w).

(** What the scan hands back for a position looked up in [order]:
    [order.index] raises [ValueError] for an id that is not there. *)
Definition at_position (st : status) (v : option string) (id : Z) (w : workflow)
  : res outcome :=
  match index_of id (_order w) with
  | Some i => Ok (st, v, Some i)
  | None => Err (Raise ValueError "is not in list")
  end.

(** A response in which a terminal decision, if there is one, is the only
    decision. *)
Definition terminal_alone (ds : list decision) : Prop :=
  (∃ d, d ∈ ds ∧ is_terminal d = true) → ∃ d, ds = [d].

End RuntimeSpec.

(** ** Concrete inputs used in examples *)

Module Samples.
Import Layer1 Task Runtime.

(** A client with nothing scripted and an empty log. *)
Definition client0 : layer1 := {| polls := []; responds := []; log := [] |}.

Definition activity_spec0 : spec :=
  {| spec_kind_of := ActivitySpec; spec_name := "A"; spec_version := "1";
     spec_child_policy := None; spec_opts := [] |}.

Definition workflow_spec0 : spec :=
  {| spec_kind_of := WorkflowSpec; spec_name := "W"; spec_version := "1";
     spec_child_policy := Some "TERMINATE"; spec_opts := [] |}.


(** A runtime with an empty history. *)
Definition fresh_turn : workflow :=
  SWFWorkflow client0 "[[], {}]" "tok" [] ∅ ∅ ∅ [] workflow_spec0 None atom_codec.


End Samples.

(** ** Vocabulary of the buffer properties *)

Module BufferSpec.
Import Layer1.

(** A response is either made of scheduling decisions only, or is a single
    terminal decision. *)
Definition response_shape (ds : list decision) : Prop :=
  Forall (λ d, is_scheduling d = true) ds ∨
  ∃ d, ds = [d] ∧ is_terminal d = true.

(** What a buffer (its decisions, its closed flag, its client) has sent
    since the client was [base]: nothing while it is open, one well-shaped
    response once it is closed. [P] is a bound the buffer and the response
    keep. *)
Definition buffer_ok (base : layer1) (P : list decision → Prop)
    (ds : list decision) (closed : bool) (client : layer1) : Prop :=
  P ds ∧
  if closed
  then ∃ sent, responses client = (responses base ++ [sent])%list ∧
               response_shape sent ∧ P sent
  else responses client = responses base ∧
       Forall (λ d, is_scheduling d = true) ds.

(** At most [limit] scheduling decisions. *)
Definition within (limit : nat) (ds : list decision) : Prop :=
  (count_scheduling ds ≤ limit)%nat.

(** The scheduler of [flowy/task.py] is a buffer within [limit]. *)
Definition scheduler_ok (base : layer1) (limit : nat) (s : Task.scheduler)
  : Prop :=
  buffer_ok base (within limit) (Task._decisions s) (Task._closed s)
    (Task._swf_client s).

(** The context of [flowy/backend/swf.py] is a buffer. *)
Definition context_ok (base : layer1) (st : Context.context * layer1) : Prop :=
  buffer_ok base (λ _, True) (Context.decisions st.1) (Context.closed st.1) st.2.

End BufferSpec.

Module PollSamples.
Import Layer1 History.

Definition attrs0 : started_attrs :=
  {| taskList_name := "T"; taskStartToCloseTimeout := "30";
     executionStartToCloseTimeout := "600"; tagList := None;
     childPolicy := Some "TERMINATE"; workflowType_name := "W";
     workflowType_version := "1"; input := "[[], {}]" |}.

(** A first page that continues on a second one. *)
Definition page1 : page :=
  {| taskToken := Some "tok";
     events := [WorkflowExecutionStarted attrs0; ActivityTaskScheduled 5 "0"];
     nextPageToken := Some "p2" |}.

(** An empty first page that continues on a second one. *)
Definition empty_page1 : page :=
  {| taskToken := Some "tok"; events := []; nextPageToken := Some "p2" |}.

(** A service that hands out [first], fails the next seven polls, and
    then hands out [first] again. *)
Definition flaky (first : page) : layer1 :=
  {| polls := Some first :: replicate 7 None ++ [Some first];
     responds := []; log := [] |}.

(** A context over an empty history and a proxy with the default codec. *)
Definition context0 : Context.context :=
  {| Context.token := "tok"; Context.name := "W"; Context.version := "1";
     Context.input := "[[], {}]"; Context.task_list := "T";
     Context.decision_duration := Some "30";
     Context.workflow_duration := Some "600"; Context.tags := None;
     Context.child_policy := Some "TERMINATE";
     Context.snapshot := empty_snapshot; Context.decisions := [];
     Context.closed := false |}.

Definition activity_proxy0 : Context.activity_proxy :=
  {| Context.ap_name := "A"; Context.ap_version := "1";
     Context.ap_task_list := None; Context.ap_heartbeat := None;
     Context.ap_schedule_to_close := None;
     Context.ap_schedule_to_start := None;
     Context.ap_start_to_close := None;
     Context.ap_serialize_input := serialize_args |}.

Definition workflow_proxy0 : Context.workflow_proxy :=
  {| Context.wp_name := "W"; Context.wp_version := "1";
     Context.wp_task_list := None; Context.wp_workflow_duration := None;
     Context.wp_decision_duration := None;
     Context.wp_serialize_input := serialize_args |}.

(** A token as [uuid.uuid4()] prints it. *)
Definition uuid0 : string := "f47ac10b-58cc-4372-a567-0e02b2c3d479".

End PollSamples.

(** ** Vocabulary for the keys of child workflows *)

Module KeySpec.
Import History.

(** The kinds of event the history holds for a child workflow, with what
    they carry besides the workflow id. *)
Inductive child_event :=
| Initiated
| Completed (result : string)
| Failed (reason : string)
| TimedOut
| StartFailed (cause : string).

(** The event of the given kind for the workflow id [wid]. *)
Definition child_event_for (wid : string) (ce : child_event) : event :=
  match ce with
  | Initiated => StartChildWorkflowExecutionInitiated wid
  | Completed result => ChildWorkflowExecutionCompleted wid result
  | Failed reason => ChildWorkflowExecutionFailed wid reason
  | TimedOut => ChildWorkflowExecutionTimedOut wid
  | StartFailed cause => StartChildWorkflowExecutionFailed wid cause
  end.

End KeySpec.


(** ** More of [flowy/backend/swf.py]: the readers of the context *)

Module Accessors.
Import Context.

(** [l.index(x)]: the first position of [x] in [l]. *)
Fixpoint list_index (x : string) (l : list string) : option nat :=
  match l with
  | [] => None
  | y :: l' => if decide (y = x) then Some O else S <$> list_index x l'
  end.

(** [self.order.index(str(call_key))]: [ValueError] when absent. *)
Definition order_index (c : context) (call_key : string) : res nat :=
  match list_index call_key (History.order (snapshot c)) with
  | Some i => Ok i
  | None => Err (Raise ValueError "is not in list")
  end.

(** [is_running] *)
Definition is_running (c : context) (call_key : string) : bool :=
  bool_decide (call_key ∈ History.running (snapshot c)).

(** [is_result] *)
Definition is_result (c : context) (call_key : string) : bool :=
  bool_decide (is_Some (History.results (snapshot c) !! call_key)).

(** [result]: the pair [(self.results[k], self.order.index(k))];
    [KeyError] from the dictionary comes before [ValueError] from the
    list. *)
Definition result (c : context) (call_key : string) : res (option string * nat) :=
  match History.results (snapshot c) !! call_key with
  | None => Err (Raise KeyError call_key)
  | Some v => i ← order_index c call_key; Ok (v, i)
  end.

(** [is_error] *)
Definition is_error (c : context) (call_key : string) : bool :=
  bool_decide (is_Some (History.errors (snapshot c) !! call_key)).

(** [error] *)
Definition error (c : context) (call_key : string) : res (string * nat) :=
  match History.errors (snapshot c) !! call_key with
  | None => Err (Raise KeyError call_key)
  | Some reason => i ← order_index c call_key; Ok (reason, i)
  end.

(** [is_timeout] *)
Definition is_timeout (c : context) (call_key : string) : bool :=
  bool_decide (call_key ∈ History.timedout (snapshot c)).

(** [timeout] *)
Definition timeout (c : context) (call_key : string) : res nat :=
  order_index c call_key.

(** A context over a given snapshot (the other fields play no part in the
    readers). *)
Definition over (snap : History.snapshot) (c : context) : context :=
  {| token := token c; name := name c; version := version c; input := input c;
     task_list := task_list c; decision_duration := decision_duration c;
     workflow_duration := workflow_duration c; tags := tags c;
     child_policy := child_policy c; snapshot := snap;
     decisions := decisions c; closed := closed c |}.

End Accessors.

(** ** Vocabulary of the further properties *)

Module MoreSpec.
Import Layer1 History.

(** The events [load_events] has a branch for. *)
Definition handled (e : event) : bool :=
  match e with
  | WorkflowExecutionStarted _ | OtherEvent _ => false
  | _ => true
  end.

(** The pages still to come behind a generator: the generator's token is
    set exactly when a page follows, and so on along the pages. *)
Fixpoint chained (next : option string) (ps : list page) : Prop :=
  match ps with
  | [] => Poll.truthy next = false
  | p :: ps' => Poll.truthy next = true ∧ chained (nextPageToken p) ps'
  end.

(** All the events a generator will yield when the pages [ps] follow. *)
Definition stream (g : Poll.events_gen) (ps : list page) : list event :=
  Poll.pending g ++ concat (events <$> ps).

(** What [load_events] returns for the state the loop ends in. *)
Definition snapshot_of (r : res folder) : res snapshot :=
  st ← r; Ok (fst st).

End MoreSpec.

Module MoreSamples.
Import Layer1 History.

(** The page that follows [PollSamples.page1]. *)
Definition page2 : page :=
  {| taskToken := None; events := [ActivityTaskCompleted 5 "42"];
     nextPageToken := None |}.

End MoreSamples.

Module RuntimeMoreSpec.
Import Task Runtime.

(** The decision a proxy call appends when it schedules its task under
    the id [i]. *)
Definition call_decision (c : proxy_call) (i : Z) : list decision :=
  match c with
  | CallActivity sp input _ _ => spec_schedule sp [] (Str.str i) input
  | CallWorkflow uuid sp input _ _ =>
      spec_schedule sp [] (uuid +:+ "-" +:+ Str.str i) input
  end.

(** The scheduler method behind a proxy call. *)
Definition call_sched (c : proxy_call) : sched_fn :=
  match c with
  | CallActivity _ _ _ _ => schedule_activity
  | CallWorkflow uuid _ _ _ _ => schedule_workflow uuid
  end.

Definition call_spec (c : proxy_call) : spec :=
  match c with
  | CallActivity sp _ _ _ | CallWorkflow _ sp _ _ _ => sp
  end.

Definition call_input (c : proxy_call) : string :=
  match c with
  | CallActivity _ input _ _ | CallWorkflow _ _ input _ _ => input
  end.

(** A decision of the kind that completes the workflow. *)
Definition is_complete (d : decision) : bool :=
  match d with
  | CompleteWorkflowExecution _ => true
  | _ => false
  end.

End RuntimeMoreSpec.

Module BufferMoreSpec.
Import Layer1.

(** The size caps of the terminal decisions. *)
Definition within_caps (d : decision) : Prop :=
  match d with
  | FailWorkflowExecution reason =>
      (String.length reason ≤ Context._REASON_SIZE)%nat
  | CompleteWorkflowExecution result =>
      (String.length result ≤ Context._RESULT_SIZE)%nat
  | ContinueAsNewWorkflowExecution input child_policy _ _ =>
      (String.length input ≤ Context._INPUT_SIZE)%nat ∧
      child_policy ∈ Context._CHILD_POLICY
  | _ => True
  end.

(** An answer [poll_first_page] polls again after: an error, or a response
    without a usable task token. *)
Definition skipped (a : option page) : Prop :=
  match a with
  | None => True
  | Some p => Poll.truthy (taskToken p) = false
  end.

End BufferMoreSpec.

(** ** [DescCounter] ([flowy/backend/swf.py]) *)

Module DescCounter.

(** The iterator of a counter: [None] repeats [True] for ever; [Some n]
    has [n] more [True] to give before it repeats [False]. *)
Definition counter : Type := option nat.

(** [DescCounter(to)]; [itertools.repeat(True, to)] yields nothing for a
    negative [to]. *)
Definition new (to : option Z) : counter := Z.to_nat <$> to.

(** [consume] *)
Definition consume (c : counter) : bool * counter :=
  match c with
  | None => (true, None)
  | Some (S n) => (true, Some n)
  | Some O => (false, Some O)
  end.

(** [n] calls of [consume] in a row. *)
Fixpoint consume_n (n : nat) (c : counter) : list bool * counter :=
  match n with
  | O => ([], c)
  | S n' =>
      let '(b, c1) := consume c in
      let '(bs, c2) := consume_n n' c1 in
      (b :: bs, c2)
  end.

End DescCounter.

(** ** Registration of workflow and activity types
    ([flowy/backend/swf.py]) *)

Module Config.

(** The exceptions of registration: [RuntimeError], a [ValueError] of the
    converters, and [_RegistrationError]. For a mismatch the message is the
    text up to the name of the type; the [%r] of name, version and the two
    values that follow it are left out. *)
Inductive config_error :=
| RuntimeError (msg : string)
| ConversionError (e : exn)
| _RegistrationError (msg : string).

Inductive cres (A : Type) :=
| Done (a : A)
| Raised (e : config_error).
Arguments Done {A} a.
Arguments Raised {A} e.

Definition cbind {A B} (m : cres A) (f : A → cres B) : cres B :=
  match m with
  | Done a => f a
  | Raised e => Raised e
  end.

(** A converter's [ValueError] on its way out. *)
Definition convert {A} (r : res A) : cres A :=
  match r with
  | Ok a => Done a
  | Err e => Raised (ConversionError e)
  end.

(** [_timer_encode] *)
Definition _timer_encode (val : option Z) (name : string) : res (option string) :=
  match val with
  | None => Ok None
  | Some v =>
      let v := Z.max v 0 in
      if decide (v = 0)
      then Err (Raise ValueError
                  ("The value of '" +:+ name +:+
                   "' must be a strictly positive integer: 0"))
      else Ok (Some (Str.str v))
  end.

(** The configuration part of the answer of [describe_workflow_type] and
    [describe_activity_type]; a missing key is [None] ([dict.get]). *)
Record remote_config := {
  defaultTaskList : option string;
  defaultTaskStartToCloseTimeout : option string;
  defaultExecutionStartToCloseTimeout : option string;
  defaultChildPolicy : option string;
  defaultTaskHeartbeatTimeout : option string;
  defaultTaskScheduleToCloseTimeout : option string;
  defaultTaskScheduleToStartTimeout : option string
}.

(** What the service says to a registration: done, the type exists
    already ([SWFTypeAlreadyExistsError]), or another [SWFResponseError]. *)
Inductive register_answer :=
| Registered
| TypeAlreadyExists
| RegisterFails (msg : string).

(** What the service says to a description request: the configuration,
    or a [SWFResponseError]. *)
Inductive describe_answer :=
| Described (d : remote_config)
| DescribeFails (msg : string).

(** The registration service: what it answers to the registration of a
    type with the given defaults (domain, name, version first) and what it
    describes for a type. *)
Record registry := {
  on_register : string → string → string → list (option string) →
                register_answer;
  on_describe : string → string → string → describe_answer
}.

(** [SWFWorkflow] (the configuration object) *)
Record workflow_config := {
  w_name : option string;
  w_version : string;
  w_default_task_list : option string;
  w_default_workflow_duration : option Z;
  w_default_decision_duration : option Z;
  w_default_child_policy : option string;
  w_rate_limit : Z
}.

(** The values of [SWFWorkflow._cvt_values]. *)
Record workflow_values := {
  wv_name : string;
  wv_version : string;
  wv_task_list : option string;
  wv_workflow_duration : option string;
  wv_decision_duration : option string;
  wv_child_policy : option string
}.

(** [SWFWorkflow._cvt_values] *)
Definition workflow_cvt_values (cfg : workflow_config) : cres workflow_values :=
  match w_name cfg with
  | None => Raised (RuntimeError "Name is not set.")
  | Some n =>
      let d_t_l := w_default_task_list cfg in
      cbind (convert (_timer_encode (w_default_workflow_duration cfg)
                        "default_workflow_duration")) (λ d_w_d,
      cbind (convert (_timer_encode (w_default_decision_duration cfg)
                        "default_decision_duration")) (λ d_d_d,
      cbind (convert (Context._cp_encode (w_default_child_policy cfg))) (λ d_c_p,
      Done {| wv_name := n; wv_version := w_version cfg; wv_task_list := d_t_l;
              wv_workflow_duration := d_w_d; wv_decision_duration := d_d_d;
              wv_child_policy := d_c_p |})))
  end.

(** [SWFWorkflow.try_register_remote] *)
Definition workflow_try_register_remote (cfg : workflow_config)
    (svc : registry) (domain : string) : cres bool :=
  cbind (workflow_cvt_values cfg) (λ v,
  match on_register svc domain (wv_name v) (wv_version v)
          [wv_task_list v; wv_workflow_duration v; wv_decision_duration v;
           wv_child_policy v] with
  | Registered => Done true
  | TypeAlreadyExists => Done false
  | RegisterFails msg => Raised (_RegistrationError msg)
  end).

(** [SWFWorkflow.check_compatible] *)
Definition workflow_check_compatible (cfg : workflow_config) (svc : registry)
    (domain : string) : cres unit :=
  cbind (workflow_cvt_values cfg) (λ v,
  match on_describe svc domain (wv_name v) (wv_version v) with
  | DescribeFails msg => Raised (_RegistrationError msg)
  | Described w_descr =>
      if decide (defaultTaskList w_descr ≠ wv_task_list v)
      then Raised (_RegistrationError "Default task list")
      else if decide (defaultTaskStartToCloseTimeout w_descr ≠
                      wv_decision_duration v)
      then Raised (_RegistrationError "Default decision duration")
      else if decide (defaultExecutionStartToCloseTimeout w_descr ≠
                      wv_workflow_duration v)
      then Raised (_RegistrationError "Default workflow duration")
      else if decide (defaultChildPolicy w_descr ≠ wv_child_policy v)
      then Raised (_RegistrationError "Default child policy")
      else Done tt
  end).

(** [SWFConfigMixin.register_remote] for a workflow *)
Definition workflow_register_remote (cfg : workflow_config) (svc : registry)
    (domain : string) : cres unit :=
  cbind (workflow_try_register_remote cfg svc domain) (λ registered_as_new,
  if negb registered_as_new then workflow_check_compatible cfg svc domain
  else Done tt).

(** [SWFActivity] (the configuration object) *)
Record activity_config := {
  a_name : option string;
  a_version : string;
  a_default_task_list : option string;
  a_default_heartbeat : option Z;
  a_default_schedule_to_close : option Z;
  a_default_schedule_to_start : option Z;
  a_default_start_to_close : option Z
}.

(** The values of [SWFActivity._cvt_values]. *)
Record activity_values := {
  av_name : string;
  av_version : string;
  av_task_list : option string;
  av_heartbeat : option string;
  av_schedule_to_close : option string;
  av_schedule_to_start : option string;
  av_start_to_close : option string
}.

(** [SWFActivity._cvt_values]: the timeouts go through [_str_or_none]
    only. *)
Definition activity_cvt_values (cfg : activity_config) : cres activity_values :=
  match a_name cfg with
  | None => Raised (RuntimeError "Name is not set.")
  | Some n =>
      Done {| av_name := n; av_version := a_version cfg;
              av_task_list := a_default_task_list cfg;
              av_heartbeat := Str.str <$> a_default_heartbeat cfg;
              av_schedule_to_close := Str.str <$> a_default_schedule_to_close cfg;
              av_schedule_to_start := Str.str <$> a_default_schedule_to_start cfg;
              av_start_to_close := Str.str <$> a_default_start_to_close cfg |}
  end.

(** [SWFActivity.try_register_remote] *)
Definition activity_try_register_remote (cfg : activity_config)
    (svc : registry) (domain : string) : cres bool :=
  cbind (activity_cvt_values cfg) (λ v,
  match on_register svc domain (av_name v) (av_version v)
          [av_task_list v; av_heartbeat v; av_schedule_to_close v;
           av_schedule_to_start v; av_start_to_close v] with
  | Registered => Done true
  | TypeAlreadyExists => Done false
  | RegisterFails msg => Raised (_RegistrationError msg)
  end).

(** [SWFActivity.check_compatible] *)
Definition activity_check_compatible (cfg : activity_config) (svc : registry)
    (domain : string) : cres unit :=
  cbind (activity_cvt_values cfg) (λ v,
  match on_describe svc domain (av_name v) (av_version v) with
  | DescribeFails msg => Raised (_RegistrationError msg)
  | Described a_descr =>
      if decide (defaultTaskList a_descr ≠ av_task_list v)
      then Raised (_RegistrationError "Default task list")
      else if decide (defaultTaskHeartbeatTimeout a_descr ≠ av_heartbeat v)
      then Raised (_RegistrationError "Default heartbeat")
      else if decide (defaultTaskScheduleToCloseTimeout a_descr ≠
                      av_schedule_to_close v)
      then Raised (_RegistrationError "Default schedule to close")
      else if decide (defaultTaskScheduleToStartTimeout a_descr ≠
                      av_schedule_to_start v)
      then Raised (_RegistrationError "Default schedule to start")
      else if decide (defaultTaskStartToCloseTimeout a_descr ≠
                      av_start_to_close v)
      then Raised (_RegistrationError "Default start to close")
      else Done tt
  end).

(** [SWFConfigMixin.register_remote] for an activity *)
Definition activity_register_remote (cfg : activity_config) (svc : registry)
    (domain : string) : cres unit :=
  cbind (activity_try_register_remote cfg svc domain) (λ registered_as_new,
  if negb registered_as_new then activity_check_compatible cfg svc domain
  else Done tt).

(** The defaults of a workflow as the service would describe them once
    registered with the values of [v]. *)
Definition described_workflow (v : workflow_values) : remote_config :=
  {| defaultTaskList := wv_task_list v;
     defaultTaskStartToCloseTimeout := wv_decision_duration v;
     defaultExecutionStartToCloseTimeout := wv_workflow_duration v;
     defaultChildPolicy := wv_child_policy v;
     defaultTaskHeartbeatTimeout := None;
     defaultTaskScheduleToCloseTimeout := None;
     defaultTaskScheduleToStartTimeout := None |}.

(** The four defaults of a described workflow type agree with [v]. *)
Definition workflow_matches (d : remote_config) (v : workflow_values) : Prop :=
  defaultTaskList d = wv_task_list v ∧
  defaultTaskStartToCloseTimeout d = wv_decision_duration v ∧
  defaultExecutionStartToCloseTimeout d = wv_workflow_duration v ∧
  defaultChildPolicy d = wv_child_policy v.

(** The five defaults of a described activity type agree with [v]. *)
Definition activity_matches (d : remote_config) (v : activity_values) : Prop :=
  defaultTaskList d = av_task_list v ∧
  defaultTaskHeartbeatTimeout d = av_heartbeat v ∧
  defaultTaskScheduleToCloseTimeout d = av_schedule_to_close v ∧
  defaultTaskScheduleToStartTimeout d = av_schedule_to_start v ∧
  defaultTaskStartToCloseTimeout d = av_start_to_close v.

End Config.

Module ConfigSamples.
Import Config.

Definition workflow_config0 : workflow_config :=
  {| w_name := Some "wf"; w_version := "1";
     w_default_task_list := Some "T";
     w_default_workflow_duration := Some 3600;
     w_default_decision_duration := Some 60;
     w_default_child_policy := Some "terminate";
     w_rate_limit := 64 |}.

Definition workflow_values0 : workflow_values :=
  {| wv_name := "wf"; wv_version := "1"; wv_task_list := Some "T";
     wv_workflow_duration := Some "3600"; wv_decision_duration := Some "60";
     wv_child_policy := Some "TERMINATE" |}.

(** A service that knows every type already and describes each workflow
    with the defaults of [workflow_values0]. *)
Definition registry0 : registry :=
  {| on_register := λ _ _ _ _, TypeAlreadyExists;
     on_describe := λ _ _ _, Described (described_workflow workflow_values0) |}.

Definition activity_config0 : activity_config :=
  {| a_name := Some "act"; a_version := "1";
     a_default_task_list := Some "T";
     a_default_heartbeat := Some 0;
     a_default_schedule_to_close := Some (-5);
     a_default_schedule_to_start := None;
     a_default_start_to_close := Some 30 |}.

(** A service that registers every type as new. *)
Definition registry1 : registry :=
  {| on_register := λ _ _ _ _, Registered;
     on_describe := λ _ _ _, DescribeFails "UnknownResourceFault" |}.

End ConfigSamples.

(** ** Activity tasks *)

Module Activity.
Import Task.

Inductive request :=
| RespondActivityTaskFailed (reason task_token : string)
| RespondActivityTaskCompleted (result task_token : string)
| RecordActivityTaskHeartbeat (task_token : string).

(** The mock client of an activity. [answers] says which of the successive
    calls go through ([false]: [SWFResponseError]; past the end of the list
    every call goes through); [sent] records every request in order. *)
Record client := {
  answers : list bool;
  sent : list request
}.

Definition send (r : request) (c : client) : res unit * client :=
  let c' rest := {| answers := rest; sent := sent c ++ [r] |} in
  match answers c with
  | false :: rest => (Err (Raise SWFResponseError ""), c' rest)
  | true :: rest => (Ok tt, c' rest)
  | [] => (Ok tt, c' [])
  end.

(** [try: m; except SWFResponseError: return False; return True] *)
Definition accepted (m : res unit * client) : res bool * client :=
  match m with
  | (Ok _, c) => (Ok true, c)
  | (Err e, c) =>
      if decide (kind e = SWFResponseError) then (Ok false, c) else (Err e, c)
  end.

(** [activity_fail] *)
Definition activity_fail (token reason : string) (c : client)
  : res bool * client :=
  accepted (send (RespondActivityTaskFailed (Str.take 256 reason) token) c).

(** [activity_finish] *)
Definition activity_finish (cd : codec) (token : string) (result : pyobj)
    (c : client) : res bool * client :=
  match _serialize_result cd result with
  | Err e => if decide (kind e = TypeError) then (Ok false, c) else (Err e, c)
  | Ok result => accepted (send (RespondActivityTaskCompleted result token) c)
  end.

(** [activity_heartbeat] *)
Definition activity_heartbeat (token : string) (c : client)
  : res bool * client :=
  accepted (send (RecordActivityTaskHeartbeat token) c).

(** [SWFActivity._suspend] *)
Definition _suspend (c : client) : res bool * client := (Ok true, c).

(** [Task.__call__] for an [SWFActivity] whose body is [run]; the body
    has the client at hand for its heartbeats. *)
Definition call (cd : codec) (input token : string)
    (run : list pyobj → client → res pyobj * client) (c : client)
  : res bool * client :=
  match _deserialize_arguments cd input with
  | Err e =>
      if decide (kind e = ValueError) then (Ok false, c) else (Err e, c)
  | Ok args =>
      match run args c with
      | (Err e, c') =>
          if decide (kind e = SuspendTask) then _suspend c'
          else activity_fail token (message e) c'
      | (Ok result, c') => activity_finish cd token result c'
      end
  end.

(** What the service is asked to record as the end of the task. *)
Definition is_response (r : request) : bool :=
  match r with
  | RecordActivityTaskHeartbeat _ => false
  | _ => true
  end.

(** A body that sends one heartbeat and then returns [v] or, when the
    heartbeat did not go through, suspends. *)
Definition beat_then (v : pyobj) (token : string) (_ : list pyobj) (c : client)
  : res pyobj * client :=
  match activity_heartbeat token c with
  | (Ok true, c') => (Ok v, c')
  | (Ok false, c') => (Err (Raise SuspendTask ""), c')
  | (Err e, c') => (Err e, c')
  end.

End Activity.

(** ** Starting a workflow *)

Module Starter.
Import Context.

(** The arguments of [start_workflow_execution]. *)
Record start_request := {
  sr_domain : string;
  sr_workflow_id : string;
  sr_name : string;
  sr_version : string;
  sr_task_list : option string;
  sr_execution_start_to_close_timeout : option string;
  sr_task_start_to_close_timeout : option string;
  sr_input : string;
  sr_child_policy : option string;
  sr_tag_list : option (list string)
}.

(** The mock client of a starter, as for activities. *)
Record client := {
  answers : list bool;
  started : list start_request
}.

Definition start_workflow_execution (r : start_request) (c : client)
  : res unit * client :=
  let c' rest := {| answers := rest; started := started c ++ [r] |} in
  match answers c with
  | false :: rest => (Err (Raise SWFResponseError ""), c' rest)
  | true :: rest => (Ok tt, c' rest)
  | [] => (Ok tt, c' [])
  end.

(** [_str_or_none] on a number. *)
Definition _str_or_none (val : option Z) : option string := Str.str <$> val.

(** The closure [really_start] that [SWFWorkflowStarter.start] returns,
    called with the positional arguments [args]. [uuid4] is the identifier
    [uuid.uuid4()] would draw. The arguments of the request are evaluated
    in the order written, inside the [try]. *)
Definition start (uuid4 domain name version : string)
    (task_list : option string) (decision_duration workflow_duration : option Z)
    (wid : option string) (tags : option (list string))
    (serialize_input : list pyobj → res string) (child_policy : option string)
    (args : list pyobj) (c : client) : res bool * client :=
  let l_wid := default uuid4 wid in
  let attempt :=
    match serialize_input args with
    | Err e => (Err e, c)
    | Ok input =>
        match _cp_encode child_policy with
        | Err e => (Err e, c)
        | Ok cp =>
            start_workflow_execution
              {| sr_domain := domain; sr_workflow_id := l_wid;
                 sr_name := name; sr_version := version;
                 sr_task_list := task_list;
                 sr_execution_start_to_close_timeout :=
                   _str_or_none workflow_duration;
                 sr_task_start_to_close_timeout :=
                   _str_or_none decision_duration;
                 sr_input := Str.take _INPUT_SIZE input;
                 sr_child_policy := cp;
                 sr_tag_list := _tags tags |} c
        end
    end in
  match attempt with
  | (Ok _, c') => (Ok true, c')
  | (Err e, c') =>
      if decide (kind e = SWFResponseError) then (Ok false, c') else (Err e, c')
  end.

(** A request the service accepts as far as its sizes and values go. *)
Definition well_formed_request (r : start_request) : Prop :=
  (String.length (sr_input r) ≤ _INPUT_SIZE)%nat ∧
  sr_child_policy r ∈ _CHILD_POLICY ∧
  match sr_tag_list r with
  | None => True
  | Some ts => (length ts ≤ 5)%nat ∧ NoDup ts
  end.

Definition client0 : client := {| answers := []; started := [] |}.

End Starter.
(** ** Strings and key mangling *)

Section strings.

Lemma append_nil_l (s : string) : "" +:+ s = s.
Proof. reflexivity. Qed.

Lemma append_cons (a : ascii) (s t : string) :
  String a s +:+ t = String a (s +:+ t).
Proof. reflexivity. Qed.

Lemma endswith_app (s suffix : string) : Str.endswith (s +:+ suffix) suffix = true.
Proof.
  induction s as [|a s IH]; simpl.
  - destruct suffix; simpl; [done|]. by rewrite Ascii.eqb_refl, String.eqb_refl.
  - rewrite IH. by case_match.
Qed.

Lemma string_length_app (s t : string) :
  String.length (s +:+ t) = (String.length s + String.length t)%nat.
Proof. induction s as [|a s IH]; simpl; [done|]. by rewrite IH. Qed.

Lemma substring_app_l (s t : string) :
  substring 0 (String.length s) (s +:+ t) = s.
Proof.
  induction s as [|a s IH]; simpl.
  - by destruct t.
  - by rewrite IH.
Qed.

Lemma drop_last2_app (s : string) (a b : ascii) :
  Str.drop_last2 (s +:+ String a (String b EmptyString)) = s.
Proof.
  unfold Str.drop_last2. rewrite string_length_app. simpl.
  replace (String.length s + 2 - 2)%nat with (String.length s) by lia.
  apply substring_app_l.
Qed.

(** Stripping undoes mangling. *)
Lemma timer_call_key_timer_key (call_key : string) :
  _timer_call_key (_timer_key call_key) = Ok call_key.
Proof.
  unfold _timer_call_key, _timer_key.
  by rewrite endswith_app, drop_last2_app.
Qed.

(** A key that passes the assertion is the mangled form of what is
    stripped from it. *)
Lemma timer_call_key_inv (timer_key k : string) :
  _timer_call_key timer_key = Ok k → Str.endswith timer_key ":t" = true.
Proof. unfold _timer_call_key. by destruct (Str.endswith _ _). Qed.

Lemma split_nonempty (sep : ascii) (s : string) : Str.split sep s ≠ [].
Proof.
  induction s as [|a s IH]; simpl; [done|].
  destruct (Ascii.eqb a sep); [done|]. by destruct (Str.split sep s).
Qed.

Lemma split_no_sep (sep : ascii) (s : string) :
  Str.contains sep s = false → Str.split sep s = [s].
Proof.
  induction s as [|a s IH]; simpl; [done|].
  intros [Ha Hs]%orb_false_elim. rewrite Ha, (IH Hs). done.
Qed.

Lemma last_cons_nonempty (x : string) (l : list string) :
  l ≠ [] → Str.last_segment (x :: l) = Str.last_segment l.
Proof. destruct l; [done|]. done. Qed.

Lemma last_segment_split_cons (sep a : ascii) (s : string) :
  Str.last_segment (Str.split sep (String a s)) =
    if Ascii.eqb a sep then Str.last_segment (Str.split sep s)
    else match Str.split sep s with
         | [seg] => String a seg
         | _ => Str.last_segment (Str.split sep s)
         end.
Proof.
  simpl. destruct (Ascii.eqb a sep).
  - apply last_cons_nonempty, split_nonempty.
  - pose proof (split_nonempty sep s).
    destruct (Str.split sep s) as [|seg [|seg' rest]]; done.
Qed.

(** The segment after the last separator of [u ++ sep ++ k] is the one of
    [k]. *)
Lemma last_segment_split_app (sep : ascii) (u k : string) :
  Str.last_segment (Str.split sep (u +:+ String sep k)) =
  Str.last_segment (Str.split sep k).
Proof.
  induction u as [|a u IH].
  - rewrite append_nil_l, last_segment_split_cons, Ascii.eqb_refl. done.
  - rewrite append_cons, last_segment_split_cons, IH.
    destruct (Ascii.eqb a sep); [done|].
    assert (∃ x y r, Str.split sep (u +:+ String sep k) = x :: y :: r)
      as (x & y & r & ->); [|done].
    clear. induction u as [|b u IH];
      rewrite ?append_nil_l, ?append_cons; simpl.
    + rewrite Ascii.eqb_refl. pose proof (split_nonempty sep k).
      destruct (Str.split sep k); naive_solver.
    + destruct IH as (x & y & r & ->). destruct (Ascii.eqb b sep); eauto.
Qed.

(** [_subworkflow_call_key] undoes [_subworkflow_key] on a call key
    without a colon. *)
Lemma subworkflow_call_key_key (uuid call_key : string) :
  Str.contains colon call_key = false →
  _subworkflow_call_key (_subworkflow_key uuid call_key) = call_key.
Proof.
  intros Hk. unfold _subworkflow_call_key, _subworkflow_key.
  change (":" +:+ call_key) with (String colon call_key).
  rewrite last_segment_split_app, (split_no_sep _ _ Hk). done.
Qed.

(** A key without a colon is handed back whole. *)
Lemma subworkflow_call_key_no_colon (k : string) :
  Str.contains colon k = false → _subworkflow_call_key k = k.
Proof.
  intros Hk. unfold _subworkflow_call_key. by rewrite (split_no_sep _ _ Hk).
Qed.

End strings.

(** ** The history folder *)

Module HistoryFacts.
Import History HistorySpec.

Lemma fold_events_app (st : folder) (h1 h2 : list event) :
  fold_events st (h1 ++ h2) = st' ← fold_events st h1; fold_events st' h2.
Proof.
  revert st. induction h1 as [|e h1 IH]; intros st; simpl; [done|].
  destruct (step st e) as [st'|x]; simpl; [apply IH|done].
Qed.

Lemma running_remove_Ok (k : string) (s : snapshot) :
  k ∈ running s →
  running_remove k s =
    Ok (Snapshot (running s ∖ {[k]}) (timedout s) (results s) (errors s) (order s)).
Proof. intros Hk. unfold running_remove. by rewrite decide_True. Qed.

Lemma running_remove_Err (k : string) (s : snapshot) :
  k ∉ running s → running_remove k s = Err (Raise KeyError k).
Proof. intros Hk. unfold running_remove. by rewrite decide_False. Qed.

Lemma running_remove_inv (k : string) (s s' : snapshot) :
  running_remove k s = Ok s' →
  k ∈ running s ∧
  s' = Snapshot (running s ∖ {[k]}) (timedout s) (results s) (errors s) (order s).
Proof. unfold running_remove. case_decide; naive_solver. Qed.

(** The loop body raises [KeyError] exactly on a dangling reference. *)
Lemma step_KeyError (st : folder) (e : event) :
  dangling st e ↔ raises KeyError (step st e).
Proof.
  destruct st as [s m]. unfold dangling, step, event2call_get. simpl.
  destruct e; simpl; try tauto;
    repeat (case_match; simpl; simplify_eq);
    unfold running_remove, _timer_call_key in *;
    repeat (case_decide || case_match; simpl in *; simplify_eq);
    try tauto; try done; intuition congruence.
Qed.

(** Without a dangling reference and with well-formed timer ids the loop
    body returns. *)
Lemma step_Ok (st : folder) (e : event) :
  ¬ dangling st e → timer_id_ok e → ∃ st', step st e = Ok st'.
Proof.
  destruct st as [s m]. unfold dangling, timer_id_ok, step, event2call_get.
  simpl. intros Hd Ht.
  destruct e; simpl in *; eauto;
    unfold _timer_call_key in *; try rewrite Ht in *; simpl in *;
    repeat (case_match; simpl in *; simplify_eq); try tauto; eauto;
    unfold running_remove in *;
    repeat (case_decide; simpl in *; simplify_eq); try tauto; eauto.
Qed.

Lemma step_Ok_timer_id (st st' : folder) (e : event) :
  step st e = Ok st' → timer_id_ok e.
Proof.
  destruct st as [s m]. destruct e; simpl; try done;
    unfold _timer_call_key; case_match; done.
Qed.

Lemma well_formed_from_iff (st : folder) (h : list event) :
  well_formed_from st h ↔ ∃ st', fold_events st h = Ok st'.
Proof.
  revert st. induction h as [|e h IH]; intros st; simpl.
  - naive_solver.
  - split.
    + intros (Hd & Ht & Hw). destruct (step_Ok st e Hd Ht) as [st1 Hst].
      rewrite Hst in *. simpl. by apply IH.
    + intros [st' Hf]. destruct (step st e) as [st1|x] eqn:Hst; [|done].
      simpl in Hf. split_and!.
      * intros Hd%step_KeyError. by rewrite Hst in Hd.
      * by eapply step_Ok_timer_id.
      * apply IH. eauto.
Qed.

(** ** The buckets of the snapshot *)

Lemma fired_timers_insert_Some (k r : string) (m : gmap string (option string)) :
  m !! k = None →
  filter (λ kv, kv.2 = None) (<[k := Some r]> m) = filter (λ kv, kv.2 = None) m.
Proof.
  intros Hk. rewrite map_filter_insert_False by done. by rewrite delete_id.
Qed.

Lemma fired_timers_insert_None (k : string) (m : gmap string (option string)) :
  m !! k = None →
  size (filter (λ kv : string * option string, kv.2 = None) (<[k := None]> m)) =
  S (size (filter (λ kv : string * option string, kv.2 = None) m)).
Proof.
  intros Hk. rewrite map_filter_insert_True by done.
  apply map_size_insert_None. by apply map_lookup_filter_None_2; left.
Qed.

Lemma size_add_fresh (k : string) (X : gset string) :
  k ∉ X → size ({[k]} ∪ X) = S (size X).
Proof.
  intros Hk. rewrite size_union by set_solver. by rewrite size_singleton.
Qed.

Lemma buckets_empty : buckets empty_snapshot.
Proof.
  split; simpl.
  - unfold buckets_disjoint. simpl. set_solver.
  - constructor.
  - intros k. rewrite !lookup_empty. split.
    + by intros ?%elem_of_nil.
    + intros [?|[[? ?]|[? ?]]]; [set_solver|done|done].
  - unfold fired_timers. simpl. by rewrite map_filter_empty.
Qed.

Ltac bk_start :=
  let Hd := fresh "Hd" in let Hn := fresh "Hn" in
  let Ho := fresh "Ho" in let Hc := fresh "Hc" in
  intros [Hd Hn Ho Hc];
  destruct Hd as (D1 & D2 & D3 & D4 & D5 & D6).

(** A key enters [running]. *)
Lemma buckets_enter (k : string) (s : snapshot) :
  buckets s → ¬ finalised s k → buckets (running_add k s).
Proof.
  bk_start. intros Hf. unfold finalised in Hf.
  assert ((k ∉ timedout s) ∧ (k ∉ dom (results s)) ∧ (k ∉ dom (errors s)))
    as (? & ? & ?) by (rewrite !elem_of_dom; tauto).
  split; simpl; try done.
  unfold buckets_disjoint; simpl. set_solver.
Qed.

(** A running key leaves with a result. *)
Lemma buckets_result (k r : string) (s : snapshot) :
  buckets s → k ∈ running s →
  buckets (Snapshot (running s ∖ {[k]}) (timedout s) (<[k := Some r]> (results s))
             (errors s) (order s ++ [k])).
Proof.
  bk_start. intros Hk.
  assert ((k ∉ timedout s) ∧ (k ∉ dom (results s)) ∧ (k ∉ dom (errors s)))
    as (Ht & Hr & He) by set_solver.
  assert (k ∉ order s) as Hko.
  { rewrite Ho. apply not_elem_of_dom in Hr, He. rewrite Hr, He.
    intros [?|[[? ?]|[? ?]]]; done. }
  split; simpl.
  - unfold buckets_disjoint; simpl. rewrite dom_insert_L. set_solver.
  - apply NoDup_app. split_and!; [done| |apply NoDup_singleton].
    intros x Hx ->%list_elem_of_singleton. done.
  - intros k'. rewrite elem_of_app, list_elem_of_singleton, Ho.
    destruct (decide (k' = k)) as [->|Hne].
    + rewrite lookup_insert_eq. naive_solver.
    + rewrite lookup_insert_ne by done. naive_solver.
  - unfold fired_timers in *; simpl in *.
    apply not_elem_of_dom in Hr.
    rewrite fired_timers_insert_Some by done.
    rewrite map_size_insert_None by done.
    rewrite length_app. simpl. lia.
Qed.

(** A key finalises with an error: a running key that failed, or a key
    rejected before it ever ran ([remove] says which). *)
Lemma buckets_error (k reason : string) (s : snapshot) (X : gset string) :
  buckets s → k ∉ timedout s → k ∉ dom (results s) → k ∉ dom (errors s) →
  X ⊆ running s → k ∉ X →
  buckets (Snapshot X (timedout s) (results s) (<[k := reason]> (errors s))
             (order s ++ [k])).
Proof.
  bk_start. intros Ht Hr He HX HkX.
  assert (k ∉ order s) as Hko.
  { rewrite Ho. apply not_elem_of_dom in Hr, He. rewrite Hr, He.
    intros [?|[[? ?]|[? ?]]]; done. }
  split; simpl.
  - unfold buckets_disjoint; simpl. rewrite dom_insert_L. set_solver.
  - apply NoDup_app. split_and!; [done| |apply NoDup_singleton].
    intros x Hx ->%list_elem_of_singleton. done.
  - intros k'. rewrite elem_of_app, list_elem_of_singleton, Ho.
    destruct (decide (k' = k)) as [->|Hne].
    + rewrite lookup_insert_eq. naive_solver.
    + rewrite lookup_insert_ne by done. naive_solver.
  - unfold fired_timers in *; simpl in *.
    apply not_elem_of_dom in He.
    rewrite map_size_insert_None by done.
    rewrite length_app. simpl. lia.
Qed.

(** A running key times out. *)
Lemma buckets_timeout (k : string) (s : snapshot) :
  buckets s → k ∈ running s →
  buckets (Snapshot (running s ∖ {[k]}) ({[k]} ∪ timedout s) (results s)
             (errors s) (order s ++ [k])).
Proof.
  bk_start. intros Hk.
  assert ((k ∉ timedout s) ∧ (k ∉ dom (results s)) ∧ (k ∉ dom (errors s)))
    as (Ht & Hr & He) by set_solver.
  assert (k ∉ order s) as Hko.
  { rewrite Ho. apply not_elem_of_dom in Hr, He. rewrite Hr, He.
    intros [?|[[? ?]|[? ?]]]; done. }
  split; simpl.
  - unfold buckets_disjoint; simpl. set_solver.
  - apply NoDup_app. split_and!; [done| |apply NoDup_singleton].
    intros x Hx ->%list_elem_of_singleton. done.
  - intros k'. rewrite elem_of_app, list_elem_of_singleton, Ho.
    rewrite elem_of_union, elem_of_singleton. naive_solver.
  - unfold fired_timers in *; simpl in *.
    rewrite size_add_fresh by done.
    rewrite length_app. simpl. lia.
Qed.

(** A timer fires: its call key leaves [running] and the timer id gets a
    null result. *)
Lemma buckets_fired (k tid : string) (s : snapshot) :
  buckets s → ¬ finalised s tid → tid ∉ running s →
  buckets (Snapshot (running s ∖ {[k]}) (timedout s) (<[tid := None]> (results s))
             (errors s) (order s)).
Proof.
  bk_start. intros Hf Hrun. unfold finalised in Hf.
  assert ((tid ∉ timedout s) ∧ (tid ∉ dom (results s)) ∧ (tid ∉ dom (errors s)))
    as (Ht & Hr & He) by (rewrite !elem_of_dom; tauto).
  split; simpl; try done.
  - unfold buckets_disjoint; simpl. rewrite dom_insert_L. set_solver.
  - intros k'. rewrite Ho.
    destruct (decide (k' = tid)) as [->|Hne].
    + rewrite lookup_insert_eq. apply not_elem_of_dom in Hr, He.
      rewrite Hr, He. naive_solver.
    + rewrite lookup_insert_ne by done. naive_solver.
  - unfold fired_timers in *; simpl in *.
    apply not_elem_of_dom in Hr.
    rewrite fired_timers_insert_None by done.
    rewrite map_size_insert_None by done. lia.
Qed.

Lemma running_not_finalised (k : string) (s : snapshot) :
  buckets s → k ∈ running s →
  (k ∉ timedout s) ∧ (k ∉ dom (results s)) ∧ (k ∉ dom (errors s)).
Proof. bk_start. intros Hk. set_solver. Qed.

Lemma not_finalised_dom (k : string) (s : snapshot) :
  ¬ finalised s k →
  (k ∉ timedout s) ∧ (k ∉ dom (results s)) ∧ (k ∉ dom (errors s)).
Proof. unfold finalised. rewrite !elem_of_dom. tauto. Qed.

(** One iteration keeps the invariant when the event reuses no key. *)
Lemma step_buckets (st st' : folder) (e : event) :
  buckets st.1 → fresh st e → step st e = Ok st' → buckets st'.1.
Proof.
  destruct st as [s m]. simpl. intros Hb Hf Hst.
  destruct e; simpl in Hst, Hf; unfold event2call_get in Hst;
    repeat match type of Hst with
    | context [m !! ?i] => destruct (m !! i) as [eid|]; simpl in Hst; [|done]
    | context [_timer_call_key ?t] =>
        destruct (_timer_call_key t) as [k|]; simpl in Hst; [|done]
    | context [running_remove ?k s] =>
        let Hr := fresh "Hr" in
        destruct (running_remove k s) as [s1|] eqn:Hr; simpl in Hst; [|done];
        apply running_remove_inv in Hr as [Hr ->]
    end;
    simplify_eq; simpl; try done;
    unfold order_append, results_set, errors_set, timedout_add; simpl.
  - by apply buckets_enter.
  - by apply buckets_result.
  - destruct (running_not_finalised _ _ Hb Hr) as (? & ? & ?).
    apply buckets_error; [done..|set_solver|set_solver].
  - by apply buckets_timeout.
  - destruct Hf as [Hf Hrun].
    destruct (not_finalised_dom _ _ Hf) as (? & ? & ?).
    by apply buckets_error.
  - by apply buckets_enter.
  - by apply buckets_result.
  - destruct (running_not_finalised _ _ Hb Hr) as (? & ? & ?).
    apply buckets_error; [done..|set_solver|set_solver].
  - by apply buckets_timeout.
  - destruct Hf as [Hf Hrun].
    destruct (not_finalised_dom _ _ Hf) as (? & ? & ?).
    by apply buckets_error.
  - by apply buckets_enter.
  - destruct Hf as [Hf Hrun]. by apply buckets_fired.
Qed.

Lemma fold_events_buckets (st st' : folder) (h : list event) :
  buckets st.1 → no_reuse_from st h → fold_events st h = Ok st' →
  buckets st'.1.
Proof.
  revert st. induction h as [|e h IH]; intros st Hb Hn Hf; simpl in *.
  - by simplify_eq.
  - destruct Hn as [Hfr Hn].
    destruct (step st e) as [st1|] eqn:Hst; simpl in Hf; [|done].
    eapply IH; [|done..]. by eapply step_buckets.
Qed.

Lemma occurrences_not_in (k : string) (l : list string) :
  k ∉ l → occurrences k l = 0%nat.
Proof.
  unfold occurrences. induction l as [|x l IH]; [done|].
  intros [Hx Hl]%not_elem_of_cons. rewrite filter_cons_False by done. auto.
Qed.

Lemma occurrences_NoDup (k : string) (l : list string) :
  NoDup l → k ∈ l → occurrences k l = 1%nat.
Proof.
  unfold occurrences. induction 1 as [|x l Hx Hl IH]; [by intros ?%elem_of_nil|].
  intros [->|Hk]%elem_of_cons.
  - rewrite filter_cons_True by done. simpl.
    by rewrite (occurrences_not_in _ _ Hx : length (filter _ l) = 0%nat).
  - rewrite filter_cons_False by (intros ->; done). auto.
Qed.

End HistoryFacts.

Module HistoryClaims.
Import History HistorySpec HistoryFacts.

(** C1, as amended. For every history [load_events] accepts and in which
    no event reuses a key, the four buckets [running], [timedout],
    [keys(results)], [keys(errors)] are pairwise disjoint; every key that
    timed out, failed or completed occurs exactly once in [order]; a fired
    timer (a null entry of [results]) does not occur in [order]; and so
    [|order| + |fired timers| = |timedout| + |results| + |errors|]. *)
Theorem load_events_buckets (h : list event) (snap : snapshot) :
  load_events h = Ok snap → no_reuse h →
  buckets_disjoint snap ∧
  (∀ k, k ∈ timedout snap ∨ is_Some (errors snap !! k) ∨
        (∃ r, results snap !! k = Some (Some r)) →
        occurrences k (order snap) = 1%nat) ∧
  (∀ k, results snap !! k = Some None → occurrences k (order snap) = 0%nat) ∧
  (length (order snap) + size (fired_timers snap) =
   size (timedout snap) + size (results snap) + size (errors snap))%nat.
Proof.
  unfold load_events, no_reuse. intros Hl Hn.
  destruct (fold_events _ h) as [st|] eqn:Hf; simpl in Hl; [|done].
  simplify_eq.
  assert (buckets st.1) as [Hd Hnd Ho Hc].
  { eapply fold_events_buckets; [|done..]. apply buckets_empty. }
  split_and!; [done| | |done].
  - intros k Hk. apply occurrences_NoDup; [done|]. by apply Ho.
  - intros k Hk. apply occurrences_not_in. rewrite Ho, Hk.
    intros [Ht|[He|[r Hr]]]; [| |done].
    + destruct Hd as (_ & _ & _ & D4 & _).
      apply (D4 k); [done|]. apply elem_of_dom. by rewrite Hk.
    + destruct Hd as (_ & _ & _ & _ & _ & D6).
      apply (D6 k); apply elem_of_dom; [by rewrite Hk|done].
Qed.

(** A history with an activity and a timer that reuses no key. *)
Lemma load_events_buckets_witness :
  let h := [ActivityTaskScheduled 5 "0"; ActivityTaskCompleted 5 "42";
            TimerStarted "1:t"; TimerFired "1:t"] in
  ∃ snap, load_events h = Ok snap ∧ no_reuse h ∧
    (length (order snap) + size (fired_timers snap) =
     size (timedout snap) + size (results snap) + size (errors snap))%nat.
Proof.
  intros h.
  destruct (load_events h) as [snap|] eqn:Hl; [|by vm_compute in Hl].
  exists snap.
  assert (no_reuse h) as Hn by (apply (bool_decide_unpack _); by vm_compute).
  split_and!; [done|done|].
  apply (load_events_buckets h snap Hl Hn).
Defined.

(** C1 as stated fails. A fired timer is a key of [results] that [order]
    never receives, in a history that reuses no key; and nothing keeps a
    history from rejecting an id that is running, which leaves the id in
    both [running] and [errors]. *)
Lemma load_events_invariant_counterexample :
  (∃ snap, load_events [TimerStarted "0:t"; TimerFired "0:t"] = Ok snap ∧
           no_reuse [TimerStarted "0:t"; TimerFired "0:t"] ∧
           order snap = [] ∧ size (results snap) = 1%nat ∧
           ¬ snapshot_invariant snap) ∧
  (∃ snap, load_events [ActivityTaskScheduled 1 "0";
                        ScheduleActivityTaskFailed "0" "c"] = Ok snap ∧
           "0" ∈ running snap ∧ "0" ∈ dom (errors snap) ∧
           ¬ snapshot_invariant snap).
Proof.
  split.
  - eexists. split; [reflexivity|].
    split; [apply (bool_decide_unpack _); by vm_compute|].
    split; [reflexivity|]. split; [by vm_compute|].
    intros (_ & _ & Hc). vm_compute in Hc. done.
  - eexists. split; [reflexivity|].
    assert (∀ X : gset string, "0" ∈ {["0"]} ∪ X) as Hin by set_solver.
    split; [apply Hin|]. split; [simpl; set_solver|].
    intros ((_ & _ & D3 & _) & _). apply (D3 "0"); simpl; set_solver.
Qed.

(** C3, as amended. On [TimerStarted] with timer id ["<id>:t"] the folder
    adds the unmangled call key [id] to [running]; on the matching
    [TimerFired] it removes [id] from [running] ([KeyError] when it is not
    there) and records a null result under the mangled key ["<id>:t"];
    neither event touches [order], [timedout] or [errors]. *)
Theorem timer_events_fold (st : folder) (id : string) :
  step st (TimerStarted (_timer_key id)) =
    Ok (Snapshot ({[id]} ∪ running st.1) (timedout st.1) (results st.1)
          (errors st.1) (order st.1), st.2) ∧
  step st (TimerFired (_timer_key id)) =
    (if decide (id ∈ running st.1)
     then Ok (Snapshot (running st.1 ∖ {[id]}) (timedout st.1)
                (<[_timer_key id := None]> (results st.1)) (errors st.1)
                (order st.1), st.2)
     else Err (Raise KeyError id)).
Proof.
  destruct st as [s m]. simpl. rewrite timer_call_key_timer_key. simpl.
  split; [done|]. unfold running_remove. by case_decide.
Qed.

(** C3 as stated fails for the timer of call ["0"]: after [TimerStarted]
    the mangled key ["0:t"] is not in [running] (the call key ["0"] is),
    and after [TimerFired] there is no result under ["0"] (the null result
    is under ["0:t"]). *)
Lemma timer_events_counterexample :
  ∃ st1 st2,
    step (empty_snapshot, ∅) (TimerStarted (_timer_key "0")) = Ok st1 ∧
    (_timer_key "0" ∉ running st1.1) ∧ ("0" ∈ running st1.1) ∧
    step st1 (TimerFired (_timer_key "0")) = Ok st2 ∧
    results st2.1 !! "0" = None ∧
    results st2.1 !! _timer_key "0" = Some None.
Proof.
  do 2 eexists. split; [reflexivity|].
  split; [apply (bool_decide_unpack _); by vm_compute|].
  split; [apply (bool_decide_unpack _); by vm_compute|].
  split; [reflexivity|]. split; by vm_compute.
Qed.

(** C10. The loop body raises [KeyError] exactly on a dangling reference
    (a completion, failure or timeout whose [scheduledEventId] was never
    recorded, or a finalising event or fired timer whose call key is not
    running); a history with such an event after a prefix the folder
    accepts makes [load_events] raise [KeyError]; and [load_events] returns
    a snapshot exactly on the well-formed histories. *)
Theorem load_events_total_iff_well_formed :
  (∀ st e, dangling st e ↔ raises KeyError (step st e)) ∧
  (∀ pre e post st,
     fold_events (empty_snapshot, ∅) pre = Ok st → dangling st e →
     raises KeyError (load_events (pre ++ e :: post))) ∧
  (∀ h, well_formed h ↔ ∃ snap, load_events h = Ok snap).
Proof.
  split_and!.
  - apply step_KeyError.
  - intros pre e post st Hpre Hd. unfold load_events.
    rewrite fold_events_app, Hpre. simpl.
    apply step_KeyError in Hd. by destruct (step st e).
  - intros h. unfold well_formed, load_events. rewrite well_formed_from_iff.
    split.
    + intros [st ->]. simpl. eauto.
    + intros [snap Hs]. destruct (fold_events _ h); [eauto|done].
Qed.

(** A completion that names an event id nobody scheduled, and a
    well-formed history. *)
Lemma load_events_total_iff_well_formed_witness :
  raises KeyError
    (load_events ([ActivityTaskScheduled 1 "0"] ++
                  ActivityTaskCompleted 2 "r" :: [])) ∧
  ∃ snap, load_events [ActivityTaskScheduled 1 "0";
                       ActivityTaskCompleted 1 "r"] = Ok snap.
Proof.
  destruct load_events_total_iff_well_formed as (_ & Hbad & Hwf).
  split.
  - eapply (Hbad [ActivityTaskScheduled 1 "0"] (ActivityTaskCompleted 2 "r") []).
    + reflexivity.
    + simpl. done.
  - apply Hwf. apply (bool_decide_unpack _). by vm_compute.
Defined.

End HistoryClaims.

(** ** The decision runtime: cursor and retry scan *)

Module RuntimeFacts.
Import Layer1 Task Runtime RuntimeSpec.


Lemma set_call_id_same (w : workflow) : set_call_id (_call_id w) w = w.
Proof. by destruct w. Qed.

(** [finally] runs whatever the body did. *)
Lemma try_finally_reserve {A} (body : W A) (c delay retry : Z) (w : workflow) :
  try_finally body (_reserve_call_ids c delay retry) w =
    ((body w).1,
     set_call_id (1 + c + (if bool_decide (delay > 0) then 1 else 0) + retry)
       (body w).2).
Proof. unfold try_finally, _reserve_call_ids, w_modify. by destruct (body w). Qed.

Lemma schedule_call_id (sp : spec) (input : string) (retry delay : Z)
    (sched : sched_fn) (w : workflow) :
  _call_id (_schedule sp input retry delay sched w).2 =
    _call_id w + 1 + (if bool_decide (delay > 0) then 1 else 0) + retry.
Proof. unfold _schedule. rewrite try_finally_reserve. simpl. lia. Qed.

Lemma do_call_call_id (c : proxy_call) (w : workflow) :
  _call_id (do_call c w).2 = _call_id w + window c.
Proof.
  destruct c; simpl; unfold _schedule_activity, _schedule_workflow, window;
    rewrite schedule_call_id; simpl; lia.
Qed.

Lemma run_calls_cursors (calls : list proxy_call) (w : workflow) :
  (run_calls calls w).1.*1 = cursors (_call_id w) calls.
Proof.
  revert w. induction calls as [|c calls IH]; intros w; [done|].
  cbn [run_calls cursors].
  pose proof (do_call_call_id c w) as Hc.
  destruct (do_call c w) as [r w1]. cbn [snd] in Hc.
  specialize (IH w1). destruct (run_calls calls w1) as [t w2].
  cbn [fst fmap list_fmap] in *. by rewrite IH, Hc.
Qed.

(** *** The retry scan *)



(** An id in [timedout] uses up one attempt: the scan moves on to the
    next id. *)
Lemma search_loop_timedout (id : Z) (ids : list Z) (w : workflow) :
  id ∈ _timedout w →
  _search_result_loop (id :: ids) w = _search_result_loop ids (set_call_id id w).
Proof.
  intros Hid. simpl. unfold mbind, w_mbind, w_bind, w_modify, w_get. simpl.
  by rewrite decide_True.
Qed.



(** The scan at the first id that has not timed out, by bucket, in the
    order the source tests them. *)
Lemma search_loop_head (id : Z) (ids : list Z) (w : workflow) :
  id ∉ _timedout w →
  _search_result_loop (id :: ids) w =
    (if decide (id ∈ _running w) then Ok (_RUNNING, None, None)
     else match _errors w !! id with
          | Some reason => at_position _ERROR (Some reason) id w
          | None =>
              match _results w !! id with
              | Some v => at_position _FOUND v id w
              | None => Ok (_NOTFOUND, None, None)
              end
          end,
     set_call_id id w).
Proof.
  intros Hid. simpl.
  unfold mbind, w_mbind, w_bind, w_modify, w_get, at_position, order_index.
  simpl. rewrite decide_False by done.
  case_decide; [done|].
  destruct (_errors w !! id); simpl.
  { by destruct (index_of id (_order w)). }
  destruct (_results w !! id); simpl; [|done].
  by destruct (index_of id (_order w)).
Qed.

End RuntimeFacts.

Module RuntimeClaims.
Import Layer1 Task Runtime RuntimeSpec RuntimeFacts Samples.

(** C2. Whatever a call through [_schedule] does (pending timer,
    suspension, error, result, timeout, newly scheduled, or an exception on
    the way), it leaves the cursor at [c0 + 1 + (1 if d > 0 else 0) + r];
    hence the calls of a workflow body start from the cursors
    [c_0, c_1, ...] with [c_{k+1} = c_k + 1 + [d_k > 0] + r_k], and from
    [c_0 = 0] in a fresh runtime, whatever the snapshot holds. *)
Theorem call_cursor_deterministic :
  (∀ sp input retry delay sched w,
     _call_id (_schedule sp input retry delay sched w).2 =
       _call_id w + 1 + (if bool_decide (delay > 0) then 1 else 0) + retry) ∧
  (∀ calls w, (run_calls calls w).1.*1 = cursors (_call_id w) calls) ∧
  (∀ calls client input token running timedout results errors order sp tags cd,
     (run_calls calls
        (SWFWorkflow client input token running timedout results errors order
           sp tags cd)).1.*1 = cursors 0 calls).
Proof.
  split_and!.
  - apply schedule_call_id.
  - apply run_calls_cursors.
  - intros. by rewrite run_calls_cursors.
Qed.




(** Scenario S3: id 0 timed out and two retries are allowed; the call
    schedules id 1 and leaves the cursor at 3. *)
Example retry_after_timeout :
  let w := SWFWorkflow client0 "[[], {}]" "tok" [] {[0]} ∅ ∅ [0]
             workflow_spec0 None atom_codec in
  let '(r, w') := _schedule_activity activity_spec0 "[[], {}]" 2 0 w in
  r = Ok (_RUNNING, None, None) ∧
  _decisions (_scheduler w') =
    [ScheduleActivityTask "1" "A" "1" "[[], {}]" []] ∧
  _call_id w' = 3.
Proof. by vm_compute. Qed.

(** Scenario S4: ids 0, 1 and 2 timed out with two retries: the call
    reports the timeout at the position of id 2. *)
Example retry_exhausted :
  let w := SWFWorkflow client0 "[[], {}]" "tok" [] {[0; 1; 2]} ∅ ∅ [0; 1; 2]
             workflow_spec0 None atom_codec in
  (_schedule_activity activity_spec0 "[[], {}]" 2 0 w).1 =
    Ok (_TIMEDOUT, None, Some 2%nat).
Proof. by vm_compute. Qed.

(** A delayed call in an empty history starts its timer under the plain
    call id and reserves two ids. *)
Example delay_starts_timer :
  let '(r, w') := _schedule_activity activity_spec0 "[[], {}]" 0 30 fresh_turn in
  r = Ok (_RUNNING, None, None) ∧
  _decisions (_scheduler w') = [StartTimer "0" "30"] ∧
  _call_id w' = 2.
Proof. by vm_compute. Qed.

(** Scenario S1: a fresh workflow whose body calls one activity; the turn
    sends the one scheduling decision and does not complete. *)
Example fresh_workflow_single_activity :
  let body (_ : list pyobj) : W run_result :=
    _ ← _schedule_activity activity_spec0 "[[], {}]" 0 0; mret (Value PyNone) in
  let turn := call body fresh_turn in
  turn.1 = Ok true ∧
  responses (_swf_client (_scheduler turn.2)) =
    [[ScheduleActivityTask "0" "A" "1" "[[], {}]" []]].
Proof. by vm_compute. Qed.

(** Scenario S2: with the activity completed, the body gets its result and
    the turn completes the workflow. *)
Example replay_completed_activity :
  let w := SWFWorkflow client0 "[[], {}]" "tok" [] ∅ {[0 := Some "42"]} ∅ [0]
             workflow_spec0 None atom_codec in
  let body (_ : list pyobj) : W run_result :=
    '(st, v, _) ← _schedule_activity activity_spec0 "[[], {}]" 0 0;
    mret (IsResult (PyInt 42)) in
  let turn := call body w in
  turn.1 = Ok true ∧
  responses (_swf_client (_scheduler turn.2)) =
    [[CompleteWorkflowExecution "42"]].
Proof. by vm_compute. Qed.

End RuntimeClaims.

(** ** The decision buffer *)

Module BufferFacts.
Import Layer1 BufferSpec RuntimeSpec.

Lemma responses_respond (t : string) (ds : list decision) (l : layer1) :
  responses (respond_decision_task_completed t ds l).2 =
    (responses l ++ [ds])%list.
Proof.
  unfold respond_decision_task_completed, responses.
  destruct (responds l) as [|[] rest]; simpl; by rewrite omap_app.
Qed.

Lemma count_scheduling_app (ds : list decision) (d : decision) :
  count_scheduling (ds ++ [d])%list =
    (count_scheduling ds + if is_scheduling d then 1 else 0)%nat.
Proof.
  unfold count_scheduling. rewrite filter_app, length_app. f_equal.
  destruct (is_scheduling d) eqn:Hd.
  - by rewrite filter_cons_True.
  - rewrite filter_cons_False; [done|]. by rewrite Hd.
Qed.

Lemma count_scheduling_le (ds : list decision) :
  (count_scheduling ds ≤ length ds)%nat.
Proof. apply length_filter. Qed.

Lemma count_scheduling_all (ds : list decision) :
  Forall (λ d, is_scheduling d = true) ds → count_scheduling ds = length ds.
Proof.
  unfold count_scheduling. induction 1 as [|d ds Hd _ IH]; [done|].
  rewrite filter_cons_True by done. simpl. by rewrite IH.
Qed.

Lemma response_shape_terminal_alone (ds : list decision) :
  response_shape ds → terminal_alone ds.
Proof.
  intros [Hall|[d [-> _]]] [d' [Hin Ht]]; [|eauto].
  rewrite Forall_forall in Hall. specialize (Hall _ Hin).
  unfold is_terminal in Ht. by rewrite Hall in Ht.
Qed.

(** Appending a scheduling decision keeps an open buffer made of
    scheduling decisions. *)
Lemma buffer_ok_append base (P : list decision → Prop) ds closed client d :
  buffer_ok base P ds closed client →
  is_scheduling d = true → P (ds ++ [d])%list →
  buffer_ok base P (ds ++ [d])%list closed client.
Proof.
  intros [Hc Hs] Hd HP. split; [done|].
  destruct closed; [done|]. destruct Hs as [Hr Hall]. split; [done|].
  apply Forall_app. split; [done|]. by constructor.
Qed.

(** Under the rate limit there is room for one more. *)
Lemma within_append (limit : nat) (rate_limit : Z) ds d :
  (Z.of_nat (length ds) < rate_limit)%Z → (rate_limit ≤ Z.of_nat limit)%Z →
  within limit (ds ++ [d])%list.
Proof.
  intros Hlen Hlim. unfold within. rewrite count_scheduling_app.
  pose proof (count_scheduling_le ds). destruct (is_scheduling d); lia.
Qed.

Lemma within_terminal (limit : nat) d :
  is_terminal d = true → within limit [d].
Proof.
  intros Hd. unfold within, count_scheduling.
  rewrite filter_cons_False; [simpl; lia|].
  unfold is_terminal in Hd. by destruct (is_scheduling d).
Qed.

(** Flushing an open buffer sends its decisions and closes it; flushing a
    closed one changes nothing. *)
Lemma buffer_ok_flush base (P : list decision → Prop) ds closed client
    (t : string) :
  buffer_ok base P ds closed client →
  buffer_ok base P ds true
    (if closed then client else (respond_decision_task_completed t ds client).2).
Proof.
  intros [Hc Hs]. split; [done|]. destruct closed; [done|].
  destruct Hs as [Hr Hall]. exists ds.
  rewrite responses_respond, Hr. split_and!; [done|by left|done].
Qed.

(** Replacing the buffer by one terminal decision and flushing. *)
Lemma buffer_ok_terminal base (P : list decision → Prop) ds closed client
    (t : string) d :
  buffer_ok base P ds closed client →
  is_terminal d = true → P [d] →
  buffer_ok base P [d] true
    (if closed then client else (respond_decision_task_completed t [d] client).2).
Proof.
  intros [Hc Hs] Hd HP. split; [done|]. destruct closed; [done|].
  destruct Hs as [Hr Hall]. exists [d].
  rewrite responses_respond, Hr. split_and!; [done| |done].
  right. eauto.
Qed.

(** What a buffer has sent: nothing, or one response in which a terminal
    decision stands alone. *)
Lemma buffer_ok_sent base (P : list decision → Prop) ds closed client :
  buffer_ok base P ds closed client →
  ∃ sent, responses client = (responses base ++ sent)%list ∧
          (length sent ≤ 1)%nat ∧
          Forall (λ r, terminal_alone r ∧ P r) sent.
Proof.
  intros [_ Hs]. destruct closed.
  - destruct Hs as (r & Hr & Hsh & Hc). exists [r].
    split_and!; [done|simpl; lia|].
    constructor; [|constructor]. split; [|done].
    by apply response_shape_terminal_alone.
  - destruct Hs as [Hr _]. exists []. rewrite app_nil_r.
    split_and!; [done|simpl; lia|constructor].
Qed.

End BufferFacts.

(** *** [SWFScheduler] *)

Module SchedulerFacts.
Import Layer1 Task BufferSpec RuntimeSpec BufferFacts.

Lemma flush_snd (s : scheduler) :
  (flush s).2 =
    {| _swf_client :=
         if _closed s then _swf_client s
         else (respond_decision_task_completed (_token s) (_decisions s)
                 (_swf_client s)).2;
       _token := _token s; _rate_limit := _rate_limit s;
       _decisions := _decisions s; _closed := true |}.
Proof.
  unfold flush. destruct s as [l t r ds []]; simpl; [done|].
  by destruct (respond_decision_task_completed t ds l).
Qed.

Lemma spec_schedule_app (sp : spec) (ds : list decision) (id input : string) :
  ∃ d, spec_schedule sp ds id input = (ds ++ [d])%list ∧ is_scheduling d = true.
Proof. unfold spec_schedule. destruct (spec_kind_of sp); eauto. Qed.

Lemma new_scheduler_ok (client : layer1) (token : string) (rate_limit : Z)
    (limit : nat) :
  scheduler_ok client limit (new_scheduler client token rate_limit).
Proof.
  unfold scheduler_ok, buffer_ok, within. simpl.
  split; [unfold count_scheduling; simpl; lia|].
  split; [done|constructor].
Qed.

Lemma apply_rate_limit (s : scheduler) (o : op) :
  _rate_limit (apply s o) = _rate_limit s ∧ _token (apply s o) = _token s.
Proof.
  destruct o; simpl; unfold restart, fail, complete, schedule_timer,
    schedule_activity, schedule_workflow; rewrite ?flush_snd; simpl;
    try done; by case_match.
Qed.

Lemma run_rate_limit (ops : list op) (s : scheduler) :
  _rate_limit (run ops s) = _rate_limit s.
Proof.
  revert s. induction ops as [|o ops IH]; intros s; [done|]. simpl.
  rewrite IH. apply apply_rate_limit.
Qed.

(** Every operation keeps the scheduler a buffer within its limit. *)
Lemma scheduler_apply_ok (base : layer1) (limit : nat) (s : scheduler) (o : op) :
  (_rate_limit s ≤ Z.of_nat limit)%Z →
  scheduler_ok base limit s → scheduler_ok base limit (apply s o).
Proof.
  intros Hlim Hok. unfold scheduler_ok in *.
  destruct o; simpl; unfold restart, fail, complete, spec_restart;
    rewrite ?flush_snd; simpl.
  - by apply buffer_ok_flush.
  - eapply buffer_ok_terminal; [done..|by apply within_terminal].
  - eapply buffer_ok_terminal; [done..|by apply within_terminal].
  - eapply buffer_ok_terminal; [done..|by apply within_terminal].
  - unfold schedule_timer, under_limit. case_bool_decide; [|done]. simpl.
    apply buffer_ok_append; [done..|by eapply within_append].
  - unfold schedule_activity, under_limit. case_bool_decide; [|done]. simpl.
    destruct (spec_schedule_app sp (_decisions s) (Str.str call_id) input)
      as (d & -> & Hd).
    apply buffer_ok_append; [done..|by eapply within_append].
  - unfold schedule_workflow, under_limit. case_bool_decide; [|done]. simpl.
    destruct (spec_schedule_app sp (_decisions s)
                (uuid +:+ "-" +:+ Str.str call_id) input) as (d & -> & Hd).
    apply buffer_ok_append; [done..|by eapply within_append].
Qed.

Lemma scheduler_run_ok (base : layer1) (limit : nat) (ops : list op) (s : scheduler) :
  (_rate_limit s ≤ Z.of_nat limit)%Z →
  scheduler_ok base limit s → scheduler_ok base limit (run ops s).
Proof.
  revert s. induction ops as [|o ops IH]; intros s Hlim Hok; [done|].
  simpl. apply IH.
  - by rewrite (proj1 (apply_rate_limit s o)).
  - by apply scheduler_apply_ok.
Qed.

(** Once closed, the scheduler stays closed and never calls the client
    again. *)
Lemma scheduler_apply_closed (s : scheduler) (o : op) :
  _closed s = true →
  _closed (apply s o) = true ∧ _swf_client (apply s o) = _swf_client s.
Proof.
  intros Hc.
  destruct o; simpl; unfold restart, fail, complete, schedule_timer,
    schedule_activity, schedule_workflow; rewrite ?flush_snd; simpl;
    rewrite ?Hc; try done; by case_match.
Qed.

Lemma scheduler_run_closed (ops : list op) (s : scheduler) :
  _closed s = true →
  _closed (run ops s) = true ∧ _swf_client (run ops s) = _swf_client s.
Proof.
  revert s. induction ops as [|o ops IH]; intros s Hc; [done|].
  simpl. destruct (scheduler_apply_closed s o Hc) as [Hc' Hl].
  destruct (IH _ Hc') as [? ?]. split; congruence.
Qed.

(** Replacing the buffer by [d] and flushing leaves [d] alone in the
    buffer, and sends it if the scheduler was open. *)
Lemma terminal_sends (s : scheduler) (d : decision) :
  _decisions (flush (set_decisions [d] s)).2 = [d] ∧
  responses (_swf_client (flush (set_decisions [d] s)).2) =
    (responses (_swf_client s) ++ if _closed s then [] else [[d]])%list.
Proof.
  rewrite flush_snd. simpl. split; [done|].
  destruct (_closed s).
  - by rewrite app_nil_r.
  - by rewrite responses_respond.
Qed.

(** A scheduling request made at or past the limit changes nothing. *)
Lemma apply_dropped (s : scheduler) (o : op) :
  is_schedule_op o = true →
  (_rate_limit s ≤ Z.of_nat (length (_decisions s)))%Z →
  apply s o = s.
Proof.
  intros Ho Hfull.
  destruct o; try done; simpl;
    unfold schedule_timer, schedule_activity, schedule_workflow, under_limit;
    case_bool_decide; (done || lia).
Qed.

End SchedulerFacts.

(** *** [SWFWorkflowContext] *)

Module ContextFacts.
Import Layer1 Context BufferSpec RuntimeSpec BufferFacts.

Lemma flush_eq (c : context) (l : layer1) :
  flush (c, l) =
    (with_closed true c,
     if closed c then l
     else (respond_decision_task_completed (token c) (decisions c) l).2).
Proof. unfold flush. destruct c as [? ? ? ? ? ? ? ? ? ? ? []]; done. Qed.

Lemma flush_ok (base : layer1) (st : context * layer1) :
  context_ok base st → context_ok base (flush st).
Proof.
  destruct st as [c l]. unfold context_ok. rewrite flush_eq. simpl.
  apply buffer_ok_flush.
Qed.

Lemma terminal_ok (base : layer1) (c : context) (l : layer1) (d : decision) :
  is_terminal d = true →
  context_ok base (c, l) → context_ok base (flush (with_decisions [d] c, l)).
Proof.
  unfold context_ok. rewrite flush_eq. simpl. intros Hd Hok.
  by eapply buffer_ok_terminal.
Qed.

Lemma append_ok (base : layer1) (c : context) (l : layer1) (d : decision) :
  is_scheduling d = true →
  context_ok base (c, l) →
  context_ok base (with_decisions (decisions c ++ [d]) c, l).
Proof. unfold context_ok. simpl. intros Hd Hok. by apply buffer_ok_append. Qed.

(** An emptied buffer that has not been flushed. *)
Lemma emptied_ok (base : layer1) (c : context) (l : layer1) :
  context_ok base (c, l) → context_ok base (with_decisions [] c, l).
Proof.
  unfold context_ok, buffer_ok. simpl. intros [_ Hs]. split; [done|].
  destruct (closed c); [done|]. destruct Hs as [Hr _]. split; [done|constructor].
Qed.

(** Every operation keeps the context a buffer. *)
Lemma context_apply_ok (base : layer1) (st : context * layer1) (o : op) :
  context_ok base st → context_ok base (apply st o).
Proof.
  destruct st as [c l]. intros Hok. destruct o; cbn [apply].
  - by apply flush_ok.
  - by apply terminal_ok.
  - by apply terminal_ok.
  - unfold restart. destruct (_cp_encode _); cbn [snd].
    + apply terminal_ok; [done|]. by apply emptied_ok.
    + by apply emptied_ok.
  - unfold activity_schedule. case_match.
    + by apply append_ok.
    + destruct (ap_serialize_input p args).
      * by apply append_ok.
      * by apply terminal_ok.
  - unfold workflow_schedule. case_match.
    + by apply append_ok.
    + destruct (wp_serialize_input p args).
      * by apply append_ok.
      * by apply terminal_ok.
Qed.

Lemma context_run_ok (base : layer1) (ops : list op) (st : context * layer1) :
  context_ok base st → context_ok base (run ops st).
Proof.
  revert st. induction ops as [|o ops IH]; intros st Hok; [done|].
  simpl. apply IH. by apply context_apply_ok.
Qed.

(** Once closed, the context stays closed and never calls the client
    again. *)
Lemma context_apply_closed (st : context * layer1) (o : op) :
  closed st.1 = true →
  closed (apply st o).1 = true ∧ (apply st o).2 = st.2.
Proof.
  destruct st as [c l]. simpl. intros Hc.
  destruct o; simpl;
    unfold fail, finish, restart, activity_schedule, workflow_schedule, fail;
    repeat case_match; simplify_eq; rewrite ?flush_eq; simpl; rewrite ?Hc;
    try done;
    match goal with
    | H : flush _ = _ |- _ => rewrite flush_eq in H; simpl in H;
                              rewrite ?Hc in H; by simplify_eq
    end.
Qed.

Lemma context_run_closed (ops : list op) (st : context * layer1) :
  closed st.1 = true →
  closed (run ops st).1 = true ∧ (run ops st).2 = st.2.
Proof.
  revert st. induction ops as [|o ops IH]; intros st Hc; [done|].
  simpl. destruct (context_apply_closed st o Hc) as [Hc' Hl].
  destruct (IH _ Hc') as [? ?]. split; congruence.
Qed.

End ContextFacts.

Module BufferClaims.
Import Layer1 BufferSpec RuntimeSpec BufferFacts Samples PollSamples.

Lemma context_terminal_sends (c : Context.context) (l : layer1) (d : decision) :
  let st := Context.flush (Context.with_decisions [d] c, l) in
  Context.decisions st.1 = [d] ∧ Context.closed st.1 = true ∧
  responses st.2 =
    (responses l ++ if Context.closed c then [] else [[d]])%list.
Proof.
  intros st. unfold st. rewrite ContextFacts.flush_eq. simpl.
  split; [done|]. split; [done|].
  destruct (Context.closed c); [by rewrite app_nil_r|].
  by rewrite responses_respond.
Qed.

(** C5. A decision buffer sends at most one response per turn, and a
    response that holds a terminal decision holds nothing else; a flush
    closes the buffer, and nothing done afterwards reaches the service;
    [fail], [complete] and [restart] replace the buffer by their single
    terminal decision and send exactly that if the buffer was still open.
    This holds for [SWFScheduler] ([flowy/task.py]) and for
    [SWFWorkflowContext] ([flowy/backend/swf.py]), whose [fail], [finish]
    and [restart] replace the buffer by their one decision (cut to its size
    cap), close the buffer and send exactly that decision if the buffer was
    still open. The [restart] of the context gets to its flush only with a
    child policy [_cp_encode] accepts; with any other it raises instead,
    the buffer emptied, still open if it was, and nothing sent. *)
Theorem buffer_single_response :
  (∀ ops client token rate_limit,
     ∃ sent,
       responses (Task._swf_client
                    (Task.run ops (Task.new_scheduler client token rate_limit))) =
         (responses client ++ sent)%list ∧
       (length sent ≤ 1)%nat ∧ Forall terminal_alone sent) ∧
  (∀ s ops,
     Task._closed (Task.flush s).2 = true ∧
     Task._swf_client (Task.run ops (Task.flush s).2) =
       Task._swf_client (Task.flush s).2) ∧
  (∀ s reason,
     let d := FailWorkflowExecution (Str.take 256 reason) in
     Task._decisions (Task.fail reason s).2 = [d] ∧
     responses (Task._swf_client (Task.fail reason s).2) =
       (responses (Task._swf_client s) ++
        if Task._closed s then [] else [[d]])%list) ∧
  (∀ s result,
     let d := CompleteWorkflowExecution result in
     Task._decisions (Task.complete result s).2 = [d] ∧
     responses (Task._swf_client (Task.complete result s).2) =
       (responses (Task._swf_client s) ++
        if Task._closed s then [] else [[d]])%list) ∧
  (∀ s sp input tags,
     let d := ContinueAsNewWorkflowExecution input (Task.spec_child_policy sp)
                tags (Task.spec_opts sp) in
     Task._decisions (Task.restart sp input tags s).2 = [d] ∧
     responses (Task._swf_client (Task.restart sp input tags s).2) =
       (responses (Task._swf_client s) ++
        if Task._closed s then [] else [[d]])%list) ∧
  (∀ ops c l,
     ∃ sent,
       responses (Context.run ops
                    (Context.with_closed false (Context.with_decisions [] c), l)).2 =
         (responses l ++ sent)%list ∧
       (length sent ≤ 1)%nat ∧ Forall terminal_alone sent) ∧
  (∀ st ops,
     Context.closed (Context.flush st).1 = true ∧
     (Context.run ops (Context.flush st)).2 = (Context.flush st).2) ∧
  (∀ c l,
     Context.decisions (Context.flush (c, l)).1 = Context.decisions c ∧
     responses (Context.flush (c, l)).2 =
       (responses l ++
        if Context.closed c then [] else [Context.decisions c])%list) ∧
  (∀ c l reason,
     let d := FailWorkflowExecution (Str.take Context._REASON_SIZE reason) in
     let st := Context.fail reason (c, l) in
     Context.decisions st.1 = [d] ∧ Context.closed st.1 = true ∧
     responses st.2 =
       (responses l ++ if Context.closed c then [] else [[d]])%list) ∧
  (∀ c l result,
     let d := CompleteWorkflowExecution (Str.take Context._RESULT_SIZE result) in
     let st := Context.finish result (c, l) in
     Context.decisions st.1 = [d] ∧ Context.closed st.1 = true ∧
     responses st.2 =
       (responses l ++ if Context.closed c then [] else [[d]])%list) ∧
  (∀ c l input,
     let r := Context.restart input (c, l) in
     match Context._cp_encode (Context.child_policy c) with
     | Ok cp =>
         let d := ContinueAsNewWorkflowExecution
                    (Str.take Context._INPUT_SIZE input) cp
                    (Context._tags (Context.tags c))
                    [Context.decision_duration c; Context.workflow_duration c;
                     Some (Context.task_list c)] in
         r.1 = Ok tt ∧
         Context.decisions r.2.1 = [d] ∧ Context.closed r.2.1 = true ∧
         responses r.2.2 =
           (responses l ++ if Context.closed c then [] else [[d]])%list
     | Err e =>
         r.1 = Err e ∧ kind e = ValueError ∧
         Context.decisions r.2.1 = [] ∧
         Context.closed r.2.1 = Context.closed c ∧ r.2.2 = l
     end).
Proof.
  split_and!.
  - intros ops client token rate_limit.
    destruct (buffer_ok_sent client (within (Z.to_nat rate_limit)) _ _ _
                (SchedulerFacts.scheduler_run_ok client (Z.to_nat rate_limit) ops
                   (Task.new_scheduler client token rate_limit)
                   ltac:(simpl; lia)
                   (SchedulerFacts.new_scheduler_ok client token rate_limit _)))
      as (sent & Hr & Hlen & Hall).
    exists sent. split_and!; [done..|].
    eapply Forall_impl; [done|]. by intros r [? _].
  - intros s ops.
    assert (Task._closed (Task.flush s).2 = true) as Hc
      by by rewrite SchedulerFacts.flush_snd.
    split; [done|]. by apply SchedulerFacts.scheduler_run_closed.
  - intros s reason d. by apply SchedulerFacts.terminal_sends.
  - intros s result d. by apply SchedulerFacts.terminal_sends.
  - intros s sp input tags d. by apply SchedulerFacts.terminal_sends.
  - intros ops c l.
    destruct (buffer_ok_sent l (λ _, True) _ _ _
                (ContextFacts.context_run_ok l ops
                   (Context.with_closed false (Context.with_decisions [] c), l)
                   ltac:(by repeat split; simpl; constructor)))
      as (sent & Hr & Hlen & Hall).
    exists sent. split_and!; [done..|].
    eapply Forall_impl; [done|]. by intros r [? _].
  - intros [c l] ops.
    assert (Context.closed (Context.flush (c, l)).1 = true) as Hc
      by by rewrite ContextFacts.flush_eq.
    split; [done|]. by apply ContextFacts.context_run_closed.
  - intros c l. rewrite ContextFacts.flush_eq. simpl. split; [done|].
    destruct (Context.closed c); [by rewrite app_nil_r|].
    by rewrite responses_respond.
  - intros c l reason d st. apply (context_terminal_sends c l d).
  - intros c l result d st. apply (context_terminal_sends c l d).
  - intros c l input r. unfold r, Context.restart.
    change (Context.child_policy (Context.with_decisions [] c))
      with (Context.child_policy c).
    destruct (Context._cp_encode (Context.child_policy c)) as [cp|e] eqn:Hcp.
    + cbn [fst snd]. split; [done|].
      apply (context_terminal_sends (Context.with_decisions [] c) l).
    + cbn [fst snd]. unfold Context._cp_encode in Hcp.
      case_decide; [done|]. by injection Hcp as <-.
Qed.

(** C6, as amended. In a decision turn of a runtime built over [running],
    with budget [max(0, 64 - |running|)]: the buffer never holds, and the
    response sent never carries, more scheduling decisions than the budget;
    a scheduling request made when the buffer already holds as many
    decisions as the rate limit is dropped without raising (the scheduler
    is unchanged); so [|scheduled in the response| + |running|] is at most
    64 whenever at most 64 calls were running at turn start. *)
Theorem rate_budget (ops : list Task.op) (client : layer1)
    (input token : string) (running : list Z) (timedout : gset Z)
    (results : gmap Z (option string)) (errors : gmap Z string)
    (order : list Z) (sp : Task.spec) (tags : option (list string))
    (cd : Task.codec) :
  let budget := Z.to_nat (64 - Z.of_nat (length running)) in
  let s := Task.run ops
             (Task._scheduler
                (Task.SWFWorkflow client input token running timedout results
                   errors order sp tags cd)) in
  (count_scheduling (Task._decisions s) ≤ budget)%nat ∧
  (∃ sent,
     responses (Task._swf_client s) = (responses client ++ sent)%list ∧
     (length sent ≤ 1)%nat ∧
     Forall (λ ds, (count_scheduling ds ≤ budget)%nat ∧
                   ((length running ≤ 64)%nat →
                    (count_scheduling ds + length running ≤ 64)%nat)) sent) ∧
  (∀ o, Task.is_schedule_op o = true →
        (budget ≤ length (Task._decisions s))%nat → Task.apply s o = s).
Proof.
  intros budget s.
  assert (scheduler_ok client budget s) as Hok.
  { apply SchedulerFacts.scheduler_run_ok; [simpl; lia|].
    apply SchedulerFacts.new_scheduler_ok. }
  assert (Task._rate_limit s = 64 - Z.of_nat (length running)) as Hrl.
  { unfold s. by rewrite SchedulerFacts.run_rate_limit. }
  split_and!.
  - apply Hok.
  - destruct (buffer_ok_sent _ _ _ _ _ Hok) as (sent & Hr & Hlen & Hall).
    exists sent. split_and!; [done..|].
    eapply Forall_impl; [done|]. intros ds [_ Hw]. unfold within in Hw.
    split; [done|]. unfold budget in Hw. lia.
  - intros o Ho Hfull. apply SchedulerFacts.apply_dropped; [done|].
    rewrite Hrl. unfold budget in Hfull. lia.
Qed.

(** With 63 calls running the budget is one: of two scheduling requests
    the first is taken and the second dropped. *)
Lemma rate_budget_witness :
  let running := Z.of_nat <$> seq 0 63 in
  let s0 := Task._scheduler
              (Task.SWFWorkflow client0 "[[], {}]" "tok" running ∅ ∅ ∅ []
                 workflow_spec0 None Task.atom_codec) in
  let s := Task.run [Task.ScheduleActivity activity_spec0 0 "[[], {}]"] s0 in
  Task._decisions s = [ScheduleActivityTask "0" "A" "1" "[[], {}]" []] ∧
  Task.apply s (Task.ScheduleActivity activity_spec0 1 "[[], {}]") = s.
Proof.
  intros running s0 s. split; [by vm_compute|].
  apply (proj2 (proj2 (rate_budget
                  [Task.ScheduleActivity activity_spec0 0 "[[], {}]"] client0
                  "[[], {}]" "tok" running ∅ ∅ ∅ [] workflow_spec0 None
                  Task.atom_codec))
           (Task.ScheduleActivity activity_spec0 1 "[[], {}]")).
  - reflexivity.
  - vm_compute. lia.
Defined.

(** C6 as stated fails when more than 64 calls are running at turn start:
    nothing is scheduled, and the sum is [|running|]. *)
Lemma rate_budget_counterexample :
  let running := Z.of_nat <$> seq 0 65 in
  let s := Task.run [Task.ScheduleActivity activity_spec0 65 "[[], {}]";
                     Task.Flush]
             (Task._scheduler
                (Task.SWFWorkflow client0 "[[], {}]" "tok" running ∅ ∅ ∅ []
                   workflow_spec0 None Task.atom_codec)) in
  responses (Task._swf_client s) = [[]] ∧
  ¬ (count_scheduling [] + length running ≤ 64)%nat.
Proof. split; [by vm_compute|]. vm_compute. lia. Qed.

(** C8, as amended. When a proxy of [flowy/backend/swf.py] fails to encode
    the input of a call it is about to schedule, the context replaces the
    buffer by a fail decision carrying the first 256 characters of the
    exception message and flushes it. When [_finish] of [flowy/task.py]
    fails to encode the value the workflow returned ([TypeError]), it
    returns [False] and leaves the runtime and its scheduler as they were:
    no decision is emitted. An exception the workflow body itself raises
    (other than [SuspendTask]) fails the workflow with its message. *)
Theorem serialization_failure (msg : string) (k : exn_kind) :
  (∀ p call_key delay args c l,
     Context.ap_serialize_input p args = Err (Raise k msg) →
     (delay > 0 → Context.timer_ready c call_key = true) →
     Context.activity_schedule p call_key delay args (c, l) =
       Context.flush
         (Context.with_decisions
            [FailWorkflowExecution (Str.take 256 msg)] c, l)) ∧
  (∀ p uuid call_key delay args c l,
     Context.wp_serialize_input p args = Err (Raise k msg) →
     (delay > 0 → Context.timer_ready c call_key = true) →
     Context.workflow_schedule p uuid call_key delay args (c, l) =
       Context.flush
         (Context.with_decisions
            [FailWorkflowExecution (Str.take 256 msg)] c, l)) ∧
  (∀ w v result,
     result = Runtime.Value v ∨ result = Runtime.IsResult v →
     Task._serialize_result (Task._codec w) v = Err (Raise TypeError msg) →
     Task._scheduled w = false → Task._running w = ∅ →
     Runtime._finish result w = (Ok false, w)) ∧
  (∀ run w w' args,
     Task._deserialize_arguments (Task._codec w) (Task._input w) = Ok args →
     run args w = (Err (Raise k msg), w') → k ≠ SuspendTask →
     Runtime.call run w = Runtime._fail msg w').
Proof.
  split_and!.
  - intros p call_key delay args c l Hs Ht. unfold Context.activity_schedule.
    rewrite Hs. simpl.
    case_bool_decide; simpl; [by rewrite Ht|done].
  - intros p uuid call_key delay args c l Hs Ht.
    unfold Context.workflow_schedule. rewrite Hs. simpl.
    case_bool_decide; simpl; [by rewrite Ht|done].
  - intros w v result Hres Hs Hsch Hrun. unfold Runtime._finish.
    destruct Hres as [-> | ->]; rewrite Hsch, Hrun, Hs; simpl;
      by rewrite bool_decide_eq_true_2.
  - intros run w w' args Hd Hr Hk. unfold Runtime.call.
    rewrite Hd, Hr. simpl. by rewrite decide_False.
Qed.

(** An argument [json.dumps] has no encoding for fails the workflow
    through the proxy, and a return value of that kind makes [_finish]
    return [False]. *)
Lemma serialization_failure_witness :
  let msg := "<object> is not JSON serializable" in
  (Context.activity_schedule activity_proxy0 "0" 0 [PyObject "<object>"]
     (context0, client0)).2 =
    {| polls := []; responds := [];
       log := [RespondDecisionTaskCompleted "tok" [FailWorkflowExecution msg]] |} ∧
  Runtime._finish (Runtime.Value (PyObject "<object>")) fresh_turn =
    (Ok false, fresh_turn).
Proof.
  intros msg.
  destruct (serialization_failure msg TypeError) as (Ha & _ & Hf & _).
  split.
  - rewrite (Ha activity_proxy0 "0" 0 [PyObject "<object>"] context0 client0);
      [by vm_compute|by vm_compute|lia].
  - apply (Hf fresh_turn (PyObject "<object>")); [by left|by vm_compute|done|done].
Defined.

(** C8 as stated fails for the return value: a workflow that returns an
    object without a JSON encoding ends its turn with [False]; no decision
    was written to the buffer and nothing was sent. *)
Lemma serialization_failure_counterexample :
  let turn := Runtime.call (λ _, mret (Runtime.Value (PyObject "<object>")))
                fresh_turn in
  turn.1 = Ok false ∧
  Task._decisions (Task._scheduler turn.2) = [] ∧
  Task._closed (Task._scheduler turn.2) = false ∧
  responses (Task._swf_client (Task._scheduler turn.2)) = [].
Proof. by vm_compute. Qed.

End BufferClaims.

(** ** Polling and child-workflow ids *)

Module PollFacts.
Import Layer1 Poll.

(** After [n] failed polls [poll_response_page] has made [n] requests for
    the page and gives up with [_PaginationError]. *)
Lemma poll_response_page_loop_gives_up (n : nat) (domain task_list token : string)
    (identity : option string) (l : layer1) (rest : list (option page)) :
  polls l = (replicate n None ++ rest)%list →
  poll_response_page_loop n domain task_list token identity l =
    Some (Err (Raise _PaginationError ""),
          {| polls := rest; responds := responds l;
             log := (log l ++
                     replicate n (PollForDecisionTask domain task_list identity
                                    (Some token)))%list |}).
Proof.
  revert l. induction n as [|n IH]; intros l Hp; simpl in *.
  - unfold io_raise. rewrite app_nil_r. destruct l; simpl in *. by subst.
  - unfold poll_for_decision_task. rewrite Hp. simpl.
    rewrite IH by done. simpl. by rewrite <- app_assoc.
Qed.

Lemma poll_response_page_gives_up (domain task_list token : string)
    (identity : option string) (l : layer1) (rest : list (option page)) :
  polls l = (replicate 7 None ++ rest)%list →
  poll_response_page domain task_list token identity l =
    Some (Err (Raise _PaginationError ""),
          {| polls := rest; responds := responds l;
             log := (log l ++
                     replicate 7 (PollForDecisionTask domain task_list identity
                                    (Some token)))%list |}).
Proof. apply poll_response_page_loop_gives_up. Qed.

(** The characters of a printed integer are digits and the sign. *)
Lemma string_of_uint_no_colon (d : Decimal.uint) :
  Str.contains colon (NilZero.string_of_uint d) = false ∧
  Str.contains colon (NilEmpty.string_of_uint d) = false.
Proof.
  assert (∀ d, Str.contains colon
                 (NilEmpty.string_of_uint d) = false) as H.
  { clear. induction d; simpl; done. }
  split; [|done]. destruct d; simpl; try done; apply H.
Qed.

Lemma str_no_colon (n : Z) : Str.contains colon (Str.str n) = false.
Proof.
  unfold Str.str, NilZero.string_of_int.
  destruct (Z.to_int n); simpl; apply string_of_uint_no_colon.
Qed.

Lemma contains_app (c : ascii) (s t : string) :
  Str.contains c (s +:+ t) = Str.contains c s || Str.contains c t.
Proof.
  induction s as [|a s IH]; [done|].
  change (String a s +:+ t) with (String a (s +:+ t)). simpl.
  rewrite IH. by rewrite orb_assoc.
Qed.

(** A printed integer that is not negative has no sign. *)
Lemma string_of_uint_no_minus (d : Decimal.uint) :
  Str.contains "-"%char (NilZero.string_of_uint d) = false ∧
  Str.contains "-"%char (NilEmpty.string_of_uint d) = false.
Proof.
  assert (∀ d, Str.contains "-"%char
                 (NilEmpty.string_of_uint d) = false) as H.
  { clear. induction d; simpl; done. }
  split; [|done]. destruct d; simpl; try done; apply H.
Qed.

Lemma str_no_minus (n : Z) :
  (0 ≤ n)%Z → Str.contains "-"%char (Str.str n) = false.
Proof.
  intros Hn. unfold Str.str, NilZero.string_of_int.
  destruct n as [|p|p]; [done| |lia]. simpl. apply string_of_uint_no_minus.
Qed.

(** A string that ends with a text holds the first character of it. *)
Lemma endswith_contains (s t : string) (c : ascii) :
  Str.endswith s (String c t) = true → Str.contains c s = true.
Proof.
  induction s as [|a s IH]; cbn [Str.endswith].
  - by destruct (String.eqb_spec "" (String c t)).
  - destruct (String.eqb_spec (String a s) (String c t)) as [Heq|_].
    + intros _. injection Heq as -> _. simpl. by rewrite Ascii.eqb_refl.
    + intros Hs%IH. simpl. rewrite Hs. apply orb_true_r.
Qed.

(** The folder does not take the decimal form of a call id for a timer
    id. *)
Lemma timer_call_key_str (n : Z) :
  raises AssertionError (_timer_call_key (Str.str n)).
Proof.
  unfold _timer_call_key.
  destruct (Str.endswith (Str.str n) ":t") eqn:He; [|done].
  apply endswith_contains in He. by rewrite str_no_colon in He.
Qed.

(** The call id behind the last ["-"] of an id minted by
    [SWFScheduler.schedule_workflow]. *)
Lemma subworkflow_id_scheduler_key (uuid : string) (call_id : Z) :
  (0 ≤ call_id)%Z →
  _subworkflow_id (uuid +:+ "-" +:+ Str.str call_id) = Str.str call_id.
Proof.
  intros Hn. unfold _subworkflow_id.
  change ("-" +:+ Str.str call_id) with (String "-"%char (Str.str call_id)).
  rewrite last_segment_split_app, (split_no_sep _ _ (str_no_minus _ Hn)). done.
Qed.

(** What the history folder makes of an id minted by
    [SWFScheduler.schedule_workflow]: the whole id, token included. *)
Lemma scheduler_key_not_recovered (uuid : string) (call_id : Z) :
  Str.contains colon uuid = false →
  _subworkflow_call_key (uuid +:+ "-" +:+ Str.str call_id) =
    uuid +:+ "-" +:+ Str.str call_id.
Proof.
  intros Hu. apply subworkflow_call_key_no_colon.
  rewrite !contains_app, Hu, str_no_colon. done.
Qed.

(** What it makes of an id minted by [SWFWorkflowContext.schedule_workflow]:
    the call key. *)
Lemma context_key_recovered (uuid : string) (call_id : Z) :
  _subworkflow_call_key (_subworkflow_key uuid (Str.str call_id)) =
    Str.str call_id.
Proof. apply subworkflow_call_key_key, str_no_colon. Qed.

End PollFacts.

Module PollClaims.
Import Layer1 Poll PollSamples Samples.

(** C7. Fetching the continuation page is given up after seven failed
    polls and nothing is sent as a response; but the poll that follows asks
    for domain ["T"] and task list ["D"] where the worker was started on
    domain ["D"] and task list ["T"]. (The mock answers it with the first
    page again, whose task list then fails the assertion.) *)
Theorem pagination_retry_swaps_domain_and_task_list :
  ∃ l, poll_next_decision 5 "D" "T" None (flaky page1) =
         Some (Err (Raise AssertionError ""), l) ∧
       log l =
         (PollForDecisionTask "D" "T" None None ::
          replicate 7 (PollForDecisionTask "D" "T" None (Some "p2")) ++
          [PollForDecisionTask "T" "D" None None])%list ∧
       responses l = [].
Proof. eexists. split; [by vm_compute|]. split; by vm_compute. Qed.

(** When the first page is empty the continuation page is fetched by the
    first [next(all_events)], outside the [try]: the [_PaginationError]
    leaves [poll_next_decision]. *)
Example pagination_error_escapes :
  ∃ l, poll_next_decision 5 "D" "T" None (flaky empty_page1) =
         Some (Err (Raise _PaginationError ""), l) ∧
       length (log l) = 8%nat.
Proof. eexists. split; by vm_compute. Qed.

(** C9, as amended. A child workflow scheduled through
    [SWFWorkflowContext.schedule_workflow] ([flowy/backend/swf.py]) is given
    the workflow id ["<token>:<call key>"]. For every call key without a
    colon, and the decimal form of every call id is one, what follows the
    last colon is the call key, and the history folder treats each event
    of that child workflow as it treats the event for the bare call key:
    it keys the child by exactly that call key.
    [SWFScheduler.schedule_workflow] ([flowy/task.py]) joins the token and
    the call id with ["-"] instead: a call id that is not negative is what
    follows the last ["-"], which is what [_subworkflow_id] returns, while
    what follows the last colon is the whole id when the token has no
    colon. The ids of that scheduler are not made for the folder of
    [swf.py]: the timer id it gives a call is the bare call id, which the
    folder's assertion on [":t"] refuses. *)
Theorem child_workflow_id_recovered (uuid : string) :
  (∀ call_key name version input opts c,
     Context.decisions
       (Context.schedule_workflow uuid call_key name version input opts c) =
       (Context.decisions c ++
        [StartChildWorkflowExecution name version (uuid +:+ ":" +:+ call_key)
           input opts])%list) ∧
  (∀ call_key,
     Str.contains colon call_key = false →
     _subworkflow_call_key (uuid +:+ ":" +:+ call_key) = call_key ∧
     (∀ ce st,
        History.step st (KeySpec.child_event_for (uuid +:+ ":" +:+ call_key) ce) =
        History.step st (KeySpec.child_event_for call_key ce)) ∧
     (∀ s m,
        History.step (s, m)
          (History.StartChildWorkflowExecutionInitiated
             (uuid +:+ ":" +:+ call_key)) =
        Ok (History.running_add call_key s, m))) ∧
  (∀ call_id : Z, Str.contains colon (Str.str call_id) = false) ∧
  (∀ sp call_id input s,
     Task.under_limit s = true →
     Task._decisions (Task.schedule_workflow uuid sp call_id input s) =
       Task.spec_schedule sp (Task._decisions s)
         (uuid +:+ "-" +:+ Str.str call_id) input) ∧
  (∀ call_id : Z,
     (0 ≤ call_id)%Z →
     _subworkflow_id (uuid +:+ "-" +:+ Str.str call_id) = Str.str call_id) ∧
  (∀ call_id : Z,
     Str.contains colon uuid = false →
     _subworkflow_call_key (uuid +:+ "-" +:+ Str.str call_id) =
       uuid +:+ "-" +:+ Str.str call_id) ∧
  (∀ (call_id delay : Z) s st,
     Task.under_limit s = true →
     Task._decisions (Task.schedule_timer delay call_id s) =
       (Task._decisions s ++
        [StartTimer (Str.str call_id) (Str.str delay)])%list ∧
     raises AssertionError
       (History.step st (History.TimerStarted (Str.str call_id)))).
Proof.
  split_and!.
  - done.
  - intros call_key Hk.
    assert (_subworkflow_call_key (uuid +:+ ":" +:+ call_key) = call_key)
      as Hkey by by apply (subworkflow_call_key_key uuid call_key).
    assert (_subworkflow_call_key call_key = call_key)
      as Hbare by by apply subworkflow_call_key_no_colon.
    split_and!; [done| |].
    + intros ce [s m]. destruct ce; simpl; by rewrite Hkey, Hbare.
    + intros s m. simpl. by rewrite Hkey.
  - apply PollFacts.str_no_colon.
  - intros sp call_id input s Hs. unfold Task.schedule_workflow.
    by rewrite Hs.
  - intros call_id Hn. by apply PollFacts.subworkflow_id_scheduler_key.
  - intros call_id Hu. by apply PollFacts.scheduler_key_not_recovered.
  - intros call_id delay s [sn m] Hs. split.
    + unfold Task.schedule_timer. by rewrite Hs.
    + simpl. pose proof (PollFacts.timer_call_key_str call_id) as Hr.
      by destruct (_timer_call_key (Str.str call_id)).
Qed.

(** For the token [uuid0] and call id 5: the id of the context gives back
    ["5"] behind its last colon, the id of the scheduler behind its last
    ["-"]. *)
Lemma child_workflow_id_recovered_witness :
  _subworkflow_call_key (uuid0 +:+ ":" +:+ "5") = "5" ∧
  _subworkflow_id (uuid0 +:+ "-" +:+ Str.str 5) = Str.str 5.
Proof.
  destruct (child_workflow_id_recovered uuid0) as (_ & Hk & _ & _ & Hid & _).
  split.
  - apply (Hk "5"). reflexivity.
  - apply (Hid 5). lia.
Defined.

(** C9 as stated fails for the scheduler of [flowy/task.py]: for call id
    5 the workflow id is ["<token>-5"], without a colon, so that what
    follows the last colon is the whole id and not ["5"], and the folder
    keys the child by the whole id. *)
Lemma scheduler_workflow_id_counterexample :
  let s := Task.schedule_workflow uuid0 workflow_spec0 5 "[[], {}]"
             (Task.new_scheduler client0 "tok" 64) in
  let wid := uuid0 +:+ "-5" in
  Task._decisions s = [StartChildWorkflowExecution "W" "1" wid "[[], {}]" []] ∧
  _subworkflow_call_key wid = wid ∧
  _subworkflow_call_key wid ≠ Str.str 5 ∧
  (∃ snap,
     History.load_events [History.StartChildWorkflowExecutionInitiated wid] =
       Ok snap ∧
     History.running snap = {[wid]}).
Proof.
  intros s wid. split_and!; try by vm_compute.
  eexists. split; [reflexivity|]. simpl. set_solver.
Qed.

End PollClaims.

(** * Further properties of the code *)

(** ** The history folder as the history grows *)

Module HistoryMore.
Import History HistorySpec HistoryFacts MoreSpec Accessors.

Lemma list_index_app_l (k : string) (l s : list string) (i : nat) :
  list_index k l = Some i → list_index k (l ++ s)%list = Some i.
Proof.
  revert i. induction l as [|y l IH]; intros i; simpl; [done|].
  case_decide; [done|].
  destruct (list_index k l) as [j|]; simpl; [|done].
  intros ?. simplify_eq. by rewrite (IH j).
Qed.

Lemma list_index_Some (k : string) (l : list string) (i : nat) :
  list_index k l = Some i →
  l !! i = Some k ∧ ∀ j, (j < i)%nat → l !! j ≠ Some k.
Proof.
  revert i. induction l as [|y l IH]; intros i; simpl; [done|].
  case_decide as Hy.
  - intros ?. simplify_eq. split; [done|]. intros j Hj. lia.
  - destruct (list_index k l) as [i'|]; simpl; [|done].
    intros ?. simplify_eq. destruct (IH i' eq_refl) as [Hi Hlt].
    split; [done|]. intros [|j] Hj; simpl; [congruence|]. apply Hlt. lia.
Qed.

Lemma list_index_None (k : string) (l : list string) :
  list_index k l = None ↔ k ∉ l.
Proof.
  induction l as [|y l IH]; simpl.
  - split; [intros _; apply not_elem_of_nil|done].
  - case_decide as Hy.
    + split; [done|]. intros Hk. destruct Hk. subst. by left.
    + rewrite not_elem_of_cons, <- IH.
      destruct (list_index k l); simpl; naive_solver.
Qed.

Lemma list_index_elem_of (k : string) (l : list string) :
  k ∈ l → ∃ i, list_index k l = Some i.
Proof.
  intros Hk. destruct (list_index k l) as [i|] eqn:Hi; [eauto|].
  by apply list_index_None in Hi.
Qed.

(** One iteration removes nothing from the finalised buckets and appends
    at most one id to [order]. *)
Lemma step_grows (st st' : folder) (e : event) :
  step st e = Ok st' →
  timedout st.1 ⊆ timedout st'.1 ∧
  dom (results st.1) ⊆ dom (results st'.1) ∧
  dom (errors st.1) ⊆ dom (errors st'.1) ∧
  ∃ suffix, order st'.1 = (order st.1 ++ suffix)%list ∧ (length suffix ≤ 1)%nat.
Proof.
  destruct st as [s m]. simpl. intros Hst.
  destruct e; simpl in Hst; unfold event2call_get in Hst;
    repeat match type of Hst with
    | context [m !! ?i] => destruct (m !! i) as [eid|]; simpl in Hst; [|done]
    | context [_timer_call_key ?t] =>
        destruct (_timer_call_key t) as [k|]; simpl in Hst; [|done]
    | context [running_remove ?k s] =>
        let Hr := fresh "Hr" in
        destruct (running_remove k s) as [s1|] eqn:Hr; simpl in Hst; [|done];
        apply running_remove_inv in Hr as [Hr ->]
    end;
    simplify_eq; simpl; rewrite ?dom_insert_L;
    (split_and!; [set_solver..|]);
    first [ exists []; rewrite app_nil_r; split; [done|simpl; lia]
          | eexists [_]; split; [done|simpl; lia] ].
Qed.

Lemma fold_events_grows (st st' : folder) (h : list event) :
  fold_events st h = Ok st' →
  timedout st.1 ⊆ timedout st'.1 ∧
  dom (results st.1) ⊆ dom (results st'.1) ∧
  dom (errors st.1) ⊆ dom (errors st'.1) ∧
  ∃ suffix, order st'.1 = (order st.1 ++ suffix)%list ∧
            (length suffix ≤ length h)%nat.
Proof.
  revert st. induction h as [|e h IH]; intros st Hf; simpl in Hf.
  - simplify_eq. split_and!; [done..|]. exists []. by rewrite app_nil_r.
  - destruct (step st e) as [st1|] eqn:Hst; simpl in Hf; [|done].
    destruct (step_grows _ _ _ Hst) as (T1 & R1 & E1 & s1 & O1 & L1).
    destruct (IH _ Hf) as (T2 & R2 & E2 & s2 & O2 & L2).
    split_and!; [set_solver..|].
    exists (s1 ++ s2)%list. rewrite O2, O1, <- app_assoc. split; [done|].
    rewrite length_app. simpl. lia.
Qed.

(** X1. Folding more events never takes a key out of [timedout],
    [results] or [errors]; [order] only grows at its end, by at most one id
    per event; so the position [order.index(k)] of a finalised call stays
    what it was. *)
Theorem history_only_grows (st st' : folder) (h : list event) :
  fold_events st h = Ok st' →
  timedout st.1 ⊆ timedout st'.1 ∧
  dom (results st.1) ⊆ dom (results st'.1) ∧
  dom (errors st.1) ⊆ dom (errors st'.1) ∧
  (∃ suffix, order st'.1 = (order st.1 ++ suffix)%list ∧
             (length suffix ≤ length h)%nat) ∧
  (∀ k i, list_index k (order st.1) = Some i →
          list_index k (order st'.1) = Some i).
Proof.
  intros Hf. destruct (fold_events_grows _ _ _ Hf) as (T & R & E & s & O & L).
  split_and!; [done..|eauto|].
  intros k i Hi. rewrite O. by apply list_index_app_l.
Qed.

(** Call ["0"] finalised first; a later failure of call ["1"] leaves it at
    position 0. *)
Lemma history_only_grows_witness :
  let h1 := [ActivityTaskScheduled 1 "0"; ActivityTaskCompleted 1 "r"] in
  let h2 := [ActivityTaskScheduled 3 "1"; ActivityTaskFailed 3 "e"] in
  match fold_events (empty_snapshot, ∅) h1 with
  | Ok st =>
      match fold_events st h2 with
      | Ok st' => list_index "0" (order st'.1) = Some 0%nat
      | Err _ => False
      end
  | Err _ => False
  end.
Proof.
  intros h1 h2.
  destruct (fold_events _ h1) as [st|] eqn:H1; [|by vm_compute in H1].
  vm_compute in H1. injection H1 as <-.
  destruct (fold_events _ h2) as [st'|] eqn:H2; [|by vm_compute in H2].
  destruct (history_only_grows _ st' h2 H2) as (_ & _ & _ & _ & Hidx).
  apply Hidx. reflexivity.
Defined.

Lemma fold_events_unhandled (st : folder) (h : list event) :
  fold_events st h = fold_events st (filter (λ e, handled e = true) h).
Proof.
  revert st. induction h as [|e h IH]; intros st; [done|].
  destruct (handled e) eqn:He.
  - rewrite filter_cons_True by done. simpl.
    destruct (step st e); simpl; [apply IH|done].
  - rewrite filter_cons_False by (by rewrite He).
    destruct e; try done; simpl; destruct st; apply IH.
Qed.

(** X2. Events of a type the folder has no branch for (the
    [WorkflowExecutionStarted] event among them) leave no trace: folding a
    history gives what folding its handled events gives, the raised
    exception included. *)
Theorem load_events_ignores_unhandled (h : list event) :
  load_events h = load_events (filter (λ e, handled e = true) h).
Proof. unfold load_events. by rewrite fold_events_unhandled. Qed.

End HistoryMore.

(** ** Folding a paginated history *)

Module PaginationMore.
Import Layer1 History Poll MoreSpec.

Lemma poll_response_page_first_try (domain task_list token : string)
    (identity : option string) (l : layer1) (p : page)
    (rest : list (option page)) :
  polls l = Some p :: rest →
  poll_response_page domain task_list token identity l =
    Some (Ok p,
          {| polls := rest; responds := responds l;
             log := (log l ++ [PollForDecisionTask domain task_list identity
                                 (Some token)])%list |}).
Proof.
  intros Hp. unfold poll_response_page. simpl.
  unfold poll_for_decision_task. by rewrite Hp.
Qed.

(** The generator yields the head of its stream, fetching the pages it
    needs on the way, or stops when the stream is empty. *)
Lemma events_next_stream (domain task_list : string) (identity : option string)
    (ps : list page) :
  ∀ (fuel : nat) (g : events_gen) (l : layer1) (tail : list (option page)),
    chained (next_token g) ps →
    polls l = ((Some <$> ps) ++ tail)%list →
    (length ps ≤ fuel)%nat →
    match stream g ps with
    | [] => ∃ l', events_next fuel domain task_list identity g l =
                    Some (Ok None, l')
    | e :: rest =>
        ∃ g' ps' l',
          events_next fuel domain task_list identity g l =
            Some (Ok (Some (e, g')), l') ∧
          stream g' ps' = rest ∧ chained (next_token g') ps' ∧
          polls l' = ((Some <$> ps') ++ tail)%list ∧
          (length ps' ≤ length ps)%nat
    end.
Proof.
  induction ps as [|p ps IH]; intros fuel g l tail Hch Hp Hf.
  - unfold stream. simpl in *. rewrite app_nil_r.
    destruct g as [[|e rest] tok]; simpl in *.
    + exists l. destruct fuel; simpl; by rewrite Hch.
    + exists {| pending := rest; next_token := tok |}, [], l.
      split_and!; [by destruct fuel| |done..].
      unfold stream. simpl. by rewrite app_nil_r.
  - destruct Hch as [Htok Hch].
    destruct g as [[|e rest] tok].
    + destruct fuel as [|fuel]; [simpl in Hf; lia|].
      set (l1 := {| polls := ((Some <$> ps) ++ tail)%list;
                    responds := responds l;
                    log := (log l ++ [PollForDecisionTask domain task_list
                                        identity (Some (default "" tok))])%list |}).
      assert (events_next (S fuel) domain task_list identity
                {| pending := []; next_token := tok |} l =
              events_next fuel domain task_list identity (events p) l1) as ->.
      { simpl in Htok, Hp. simpl. rewrite Htok.
        unfold mbind, io_mbind, io_bind.
        by rewrite (poll_response_page_first_try _ _ _ _ l p
                      ((Some <$> ps) ++ tail)%list Hp). }
      change (stream {| pending := []; next_token := tok |} (p :: ps))
        with (stream (events p) ps).
      pose proof (IH fuel (events p) l1 tail Hch eq_refl
                    ltac:(simpl in Hf; lia)) as Hn.
      destruct (stream (events p) ps) as [|e rest]; [done|].
      destruct Hn as (g' & ps' & l' & He & Hs & Hc & Hpl & Hlen).
      exists g', ps', l'. split_and!; [done..|simpl; lia].
    + exists {| pending := rest; next_token := tok |}, (p :: ps), l.
      split_and!; [by destruct fuel|done|done|done|done].
Qed.

Lemma load_events_from_stream (domain task_list : string)
    (identity : option string) (s : list event) :
  ∀ (fuel : nat) (g : events_gen) (ps : list page) (l : layer1)
    (tail : list (option page)) (st : folder),
    stream g ps = s →
    chained (next_token g) ps →
    polls l = ((Some <$> ps) ++ tail)%list →
    (length s + length ps < fuel)%nat →
    ∃ l', load_events_from fuel domain task_list identity g st l =
            Some (snapshot_of (fold_events st s), l').
Proof.
  induction s as [|e s IH]; intros fuel g ps l tail st Hs Hch Hp Hf;
    (destruct fuel as [|fuel]; [lia|]);
    pose proof (events_next_stream domain task_list identity ps fuel g l tail
                  Hch Hp ltac:(lia)) as Hn;
    rewrite Hs in Hn; simpl.
  - destruct Hn as [l' Hn]. exists l'.
    unfold mbind, io_mbind, io_bind. by rewrite Hn.
  - destruct Hn as (g' & ps' & l' & Hn & Hs' & Hch' & Hp' & Hlen).
    unfold mbind at 1, io_mbind, io_bind. rewrite Hn.
    destruct (step st e) as [st'|x]; simpl.
    + apply (IH fuel g' ps' l' tail st' Hs' Hch' Hp'). simpl in Hf. lia.
    + by exists l'.
Qed.

(** X3. When every continuation page is fetched at the first try, folding
    the events as the generator delivers them page by page gives exactly
    what [load_events] gives on the events of all the pages in a row, the
    raised exception included. *)
Theorem paginated_fold_is_fold (fuel : nat) (domain task_list : string)
    (identity : option string) (first : page) (ps : list page) (l : layer1)
    (tail : list (option page)) :
  let all := (Layer1.events first ++ concat (Layer1.events <$> ps))%list in
  chained (nextPageToken first) ps →
  polls l = ((Some <$> ps) ++ tail)%list →
  (length all + length ps < fuel)%nat →
  ∃ l', load_events_from fuel domain task_list identity (Poll.events first)
          (empty_snapshot, ∅) l =
        Some (load_events all, l').
Proof.
  intros all Hch Hp Hf.
  by apply (load_events_from_stream domain task_list identity all fuel
              (Poll.events first) ps l tail).
Qed.

(** Two pages: the activity is scheduled on the first and completes on
    the second. *)
Lemma paginated_fold_is_fold_witness :
  ∃ l', load_events_from 6 "D" "T" None (Poll.events PollSamples.page1)
          (empty_snapshot, ∅)
          {| polls := [Some MoreSamples.page2]; responds := []; log := [] |} =
        Some (load_events [WorkflowExecutionStarted PollSamples.attrs0;
                           ActivityTaskScheduled 5 "0";
                           ActivityTaskCompleted 5 "42"], l').
Proof.
  apply (paginated_fold_is_fold 6 "D" "T" None PollSamples.page1
           [MoreSamples.page2]
           {| polls := [Some MoreSamples.page2]; responds := []; log := [] |} []).
  - simpl. done.
  - reflexivity.
  - simpl. lia.
Defined.

End PaginationMore.

(** ** The readers of the context on a folded history *)

Module AccessorsMore.
Import History HistorySpec HistoryFacts MoreSpec Accessors HistoryMore.

Lemma order_index_Some (c : Context.context) (k : string) :
  k ∈ order (Context.snapshot c) →
  ∃ i, order_index c k = Ok i ∧ order (Context.snapshot c) !! i = Some k.
Proof.
  intros Hk. unfold order_index.
  destruct (list_index_elem_of _ _ Hk) as [i Hi]. rewrite Hi.
  exists i. split; [done|]. by apply list_index_Some.
Qed.

(** X4. On the snapshot of a history the folder accepts and in which no
    key is reused, the readers of the context agree with each other: a key
    is in at most one of the states running, result, error and timed out;
    [error] and [timeout] return the position of every key their test
    admits, and so does [result] for a completed call; for a fired timer,
    which has a null result and no place in [order], [result] raises
    [ValueError]. *)
Theorem readers_agree (h : list event) (snap : snapshot) (c0 : Context.context)
    (k : string) :
  load_events h = Ok snap → no_reuse h →
  let c := over snap c0 in
  (Nat.b2n (is_running c k) + Nat.b2n (is_result c k) +
   Nat.b2n (is_error c k) + Nat.b2n (is_timeout c k) ≤ 1)%nat ∧
  (is_error c k = true →
   ∃ reason i, error c k = Ok (reason, i) ∧ order snap !! i = Some k) ∧
  (is_timeout c k = true →
   ∃ i, timeout c k = Ok i ∧ order snap !! i = Some k) ∧
  (∀ r, results snap !! k = Some (Some r) →
   ∃ i, result c k = Ok (Some r, i) ∧ order snap !! i = Some k) ∧
  (results snap !! k = Some None → raises ValueError (result c k)).
Proof.
  unfold load_events, no_reuse. intros Hl Hn.
  destruct (fold_events _ h) as [st|] eqn:Hf; simpl in Hl; [|done].
  simplify_eq. set (c := over st.1 c0).
  assert (buckets st.1) as [Hd Hnd Ho Hc].
  { eapply fold_events_buckets; [|done..]. apply buckets_empty. }
  destruct Hd as (D1 & D2 & D3 & D4 & D5 & D6).
  split_and!.
  - unfold is_running, is_result, is_error, is_timeout. simpl.
    repeat case_bool_decide; simpl; try lia;
      repeat match goal with
             | H : is_Some (_ !! _) |- _ => apply elem_of_dom in H
             end; set_solver.
  - unfold is_error, error. simpl. intros [reason Hr]%bool_decide_eq_true.
    rewrite Hr.
    destruct (order_index_Some c k) as (i & Hi & Hki).
    { simpl. apply Ho. right. left. by rewrite Hr. }
    exists reason, i. by rewrite Hi.
  - unfold is_timeout, timeout. simpl. intros Ht%bool_decide_eq_true.
    apply (order_index_Some c k). simpl. apply Ho. by left.
  - intros r Hr. unfold result. simpl. rewrite Hr.
    destruct (order_index_Some c k) as (i & Hi & Hki).
    { simpl. apply Ho. right. right. eauto. }
    exists i. by rewrite Hi.
  - intros Hr. unfold result, order_index. simpl. rewrite Hr.
    assert (k ∉ order st.1) as Hk.
    { rewrite Ho, Hr. intros [Ht|[He|[r ?]]]; [| |done].
      - apply (D4 k); [done|]. apply elem_of_dom. by rewrite Hr.
      - apply (D6 k); apply elem_of_dom; [by rewrite Hr|done]. }
    apply list_index_None in Hk. by rewrite Hk.
Qed.

(** A completed activity and a fired timer. *)
Lemma readers_agree_witness :
  let h := [ActivityTaskScheduled 5 "0"; ActivityTaskCompleted 5 "42";
            TimerStarted "1:t"; TimerFired "1:t"] in
  ∃ snap, load_events h = Ok snap ∧
    result (over snap PollSamples.context0) "0" = Ok (Some "42", 0%nat) ∧
    raises ValueError (result (over snap PollSamples.context0) "1:t").
Proof.
  intros h.
  destruct (load_events h) as [snap|] eqn:Hl; [|by vm_compute in Hl].
  exists snap. split; [done|].
  assert (no_reuse h) as Hn by (apply (bool_decide_unpack _); by vm_compute).
  destruct (readers_agree h snap PollSamples.context0 "0" Hl Hn)
    as (_ & _ & _ & Hres & _).
  destruct (readers_agree h snap PollSamples.context0 "1:t" Hl Hn)
    as (_ & _ & _ & _ & Htim).
  vm_compute in Hl. injection Hl as <-.
  split.
  - destruct (Hres "42") as (i & Hi & Hki); [by vm_compute|].
    rewrite Hi. f_equal. f_equal.
    destruct i as [|[|i]]; [done|by vm_compute in Hki..].
  - apply Htim. by vm_compute.
Defined.

End AccessorsMore.

(** ** Key mangling, both ways *)

Module KeysMore.

Lemma endswith_inv (s suffix : string) :
  Str.endswith s suffix = true → ∃ p, s = p +:+ suffix.
Proof.
  induction s as [|a s IH]; cbn [Str.endswith].
  - destruct (String.eqb_spec "" suffix) as [<-|]; [|done]. by exists "".
  - destruct (String.eqb_spec (String a s) suffix) as [<-|].
    + by exists "".
    + intros [p ->]%IH. by exists (String a p).
Qed.

(** X5. [_timer_call_key] accepts exactly the mangled keys and gives back
    the key that was mangled; and a mangled key is never the decimal form of
    a call id. *)
Theorem timer_key_round_trip (t k : string) :
  (_timer_call_key t = Ok k ↔ t = _timer_key k) ∧
  (∀ n : Z, _timer_key k ≠ Str.str n).
Proof.
  split; [split|].
  - unfold _timer_call_key. destruct (Str.endswith t ":t") eqn:He; [|done].
    destruct (endswith_inv _ _ He) as [p ->]. rewrite drop_last2_app.
    intros ?. by simplify_eq.
  - intros ->. apply timer_call_key_timer_key.
  - intros n Hn.
    assert (Str.contains colon (_timer_key k) = true) as Hc.
    { unfold _timer_key. rewrite PollFacts.contains_app. simpl.
      by rewrite orb_true_r. }
    rewrite Hn, PollFacts.str_no_colon in Hc. done.
Qed.

Lemma timer_key_round_trip_witness :
  _timer_call_key "7:t" = Ok "7" ∧ _timer_key "7" ≠ Str.str 7.
Proof.
  destruct (timer_key_round_trip "7:t" "7") as [[_ H] Hne].
  split; [by apply H|apply Hne].
Defined.

Lemma split_segments_no_sep (sep : ascii) (s : string) :
  Forall (λ seg, Str.contains sep seg = false) (Str.split sep s).
Proof.
  induction s as [|a s IH]; simpl; [by repeat constructor|].
  destruct (Ascii.eqb a sep) eqn:Ha; [by constructor|].
  destruct (Str.split sep s) as [|seg rest].
  { constructor; [simpl; by rewrite Ha|constructor]. }
  inversion IH as [|? ? Hseg Hrest]; subst. constructor; [|done].
  simpl. by rewrite Ha, Hseg.
Qed.

Lemma last_segment_no_sep (sep : ascii) (s : string) :
  Str.contains sep (Str.last_segment (Str.split sep s)) = false.
Proof.
  pose proof (split_segments_no_sep sep s) as H.
  unfold Str.last_segment.
  induction H as [|x l Hx Hl IH]; [done|].
  destruct l; [done|]. apply IH.
Qed.

(** X6. The call key the folder recovers from a child workflow id is what
    follows the last colon: it never contains a colon, the token in front
    does not matter, and for a key without a colon (the decimal form of any
    call id) it is the key [_subworkflow_key] was given. *)
Theorem subworkflow_key_round_trip (uuid k : string) :
  Str.contains colon (_subworkflow_call_key k) = false ∧
  _subworkflow_call_key (_subworkflow_key uuid k) = _subworkflow_call_key k ∧
  (Str.contains colon k = false →
   _subworkflow_call_key (_subworkflow_key uuid k) = k) ∧
  (∀ n : Z, _subworkflow_call_key (_subworkflow_key uuid (Str.str n)) = Str.str n).
Proof.
  split_and!.
  - apply last_segment_no_sep.
  - unfold _subworkflow_call_key, _subworkflow_key.
    change (":" +:+ k) with (String colon k).
    apply last_segment_split_app.
  - apply subworkflow_call_key_key.
  - intros n. apply subworkflow_call_key_key, PollFacts.str_no_colon.
Qed.

Lemma subworkflow_key_round_trip_witness :
  _subworkflow_call_key (_subworkflow_key "a:b" "12") = "12".
Proof.
  by apply (proj1 (proj2 (proj2 (subworkflow_key_round_trip "a:b" "12")))).
Defined.

End KeysMore.

(** ** What a proxy call does to the runtime *)

Module RuntimeMore.
Import Layer1 Task Runtime RuntimeSpec RuntimeFacts RuntimeMoreSpec.

Lemma elem_of_range (x a b : Z) : x ∈ range a b ↔ (a ≤ x < b)%Z.
Proof.
  unfold range. rewrite list_elem_of_fmap. split.
  - intros (i & -> & Hi%elem_of_seq). lia.
  - intros Hx. exists (Z.to_nat (x - a)). split; [lia|].
    apply elem_of_seq. lia.
Qed.

(** The scan changes nothing but the cursor, which it leaves on one of the
    ids it was given; it reports [_NOTFOUND] only for an id that is in none
    of the buckets. *)
Lemma search_loop_cases (ids : list Z) (w : workflow) :
  ∃ c', (_search_result_loop ids w).2 = set_call_id c' w ∧
        (ids = [] → c' = _call_id w) ∧ (ids ≠ [] → c' ∈ ids) ∧
        (∀ v o, (_search_result_loop ids w).1 = Ok (_NOTFOUND, v, o) →
                v = None ∧ o = None ∧ c' ∈ ids ∧ c' ∉ _timedout w ∧
                c' ∉ _running w ∧ _errors w !! c' = None ∧
                _results w !! c' = None).
Proof.
  revert w. induction ids as [|id ids IH]; intros w.
  - exists (_call_id w). simpl.
    unfold mbind, w_mbind, w_bind, w_get, order_index. simpl.
    destruct (index_of _ _); simpl; rewrite set_call_id_same;
      split_and!; done.
  - destruct (decide (id ∈ _timedout w)) as [Hto|Hto].
    + rewrite search_loop_timedout by done.
      destruct (IH (set_call_id id w)) as (c' & Hst & Hnil & Hin & Hnf).
      exists c'. split_and!.
      * by rewrite Hst.
      * done.
      * intros _. destruct ids as [|id' ids'].
        -- rewrite Hnil by done. simpl. by left.
        -- right. by apply Hin.
      * intros v o Hr. destruct (Hnf v o Hr) as (? & ? & ? & ? & ? & ? & ?).
        split_and!; try done. by right.
    + rewrite search_loop_head by done. exists id. simpl.
      split_and!; [done|done|intros _; by left|].
      intros v o Hr.
      destruct (decide (id ∈ _running w)); [done|].
      destruct (_errors w !! id) eqn:He.
      { unfold at_position in Hr. by destruct (index_of _ _). }
      destruct (_results w !! id) eqn:Hres.
      { unfold at_position in Hr. by destruct (index_of _ _). }
      simplify_eq. split_and!; try done. by left.
Qed.

(** The three things [_schedule] can do besides moving the cursor:
    nothing; start the timer of the call under the id the call started
    from; or schedule the task under an id of the retry window that is in
    none of the buckets. In the last two cases it reports [_RUNNING] and
    raises the [scheduled] flag. *)
Lemma schedule_cases (sp : spec) (input : string) (retry delay : Z)
    (sched : sched_fn) (w : workflow) :
  let r := _schedule sp input retry delay sched w in
  let c0 := _call_id w in
  let cf := 1 + c0 + (if bool_decide (delay > 0) then 1 else 0) + retry in
  let lo := if bool_decide (delay ≠ 0) then c0 + 1 else c0 in
  r.2 = set_call_id cf w ∨
  (delay ≠ 0 ∧ _results w !! c0 = None ∧ c0 ∉ _running w ∧
   r.1 = Ok (_RUNNING, None, None) ∧
   r.2 = set_call_id cf
           (set_scheduler (schedule_timer delay c0 (_scheduler w))
              (set_scheduled true w))) ∨
  (∃ i, (lo ≤ i ≤ lo + retry)%Z ∧
        (delay ≠ 0 → is_Some (_results w !! c0)) ∧
        i ∉ _timedout w ∧ i ∉ _running w ∧ _errors w !! i = None ∧
        _results w !! i = None ∧
        r.1 = Ok (_RUNNING, None, None) ∧
        r.2 = set_call_id cf
                (set_scheduler (sched sp i input (_scheduler w))
                   (set_scheduled true w))).
Proof.
  intros r c0 cf lo. unfold r, _schedule. rewrite try_finally_reserve.
  fold c0. fold cf. cbn [fst snd].
  assert (∀ w1 : workflow,
            (∃ c1, w1 = set_call_id c1 w) →
            let body : W outcome :=
              '(state, value, order) ← _search_result retry;
              if decide (state = _NOTFOUND) then
                _ ← w_modify (set_scheduled true);
                w' ← w_get;
                _ ← call_scheduler (sched sp (_call_id w') input);
                mret (_RUNNING, None, None)
              else mret (state, value, order) in
            set_call_id cf (body w1).2 = set_call_id cf w ∨
            ∃ i, (_call_id w1 ≤ i ≤ _call_id w1 + retry)%Z ∧
                 i ∉ _timedout w ∧ i ∉ _running w ∧ _errors w !! i = None ∧
                 _results w !! i = None ∧
                 (body w1).1 = Ok (_RUNNING, None, None) ∧
                 set_call_id cf (body w1).2 =
                   set_call_id cf
                     (set_scheduler (sched sp i input (_scheduler w))
                        (set_scheduled true w))) as Hsearch.
  { intros w1 [c1 ->] body.
    unfold body, _search_result, mbind, w_mbind, w_bind, w_modify, w_get,
      call_scheduler, mret, w_mret, w_ret. cbn beta.
    set (ids := range _ _).
    destruct (search_loop_cases ids (set_call_id c1 w))
      as (c' & Hst & _ & Hin & Hnf).
    destruct (_search_result_loop ids (set_call_id c1 w))
      as [[[[st v] o]|e] w2] eqn:Hloop; simpl in Hst, Hnf; subst w2;
      [|left; done].
    destruct (decide (st = _NOTFOUND)) as [->|Hne]; [|left; done].
    right. destruct (Hnf v o eq_refl) as (-> & -> & Hc & ? & ? & ? & ?).
    exists c'. apply elem_of_range in Hc. simpl in Hc. simpl.
    split_and!; try done; lia. }
  case_bool_decide as Hd.
  - unfold _search_timer, mbind, w_mbind, w_bind. cbn beta.
    destruct (decide (is_Some (_results w !! _call_id w))) as [Hres|Hres].
    + destruct (Hsearch (set_call_id (_call_id w + 1) w)
                  ltac:(by eexists)) as [Hs|(i & Hi & ? & ? & ? & ? & Hr & Hs)].
      * left. exact Hs.
      * right. right. exists i. simpl in Hi.
        split_and!;
        [unfold lo, c0 in *; lia|unfold lo, c0 in *; lia|done..|exact Hr|exact Hs].
    + destruct (decide (_call_id w ∈ _running w)) as [Hrun|Hrun].
      * left. done.
      * right. left. split_and!; try done.
        by apply eq_None_not_Some.
  - destruct (Hsearch w ltac:(exists (_call_id w); by rewrite set_call_id_same))
      as [Hs|(i & Hi & ? & ? & ? & ? & Hr & Hs)].
    + left. exact Hs.
    + right. right. exists i.
      split_and!;
        [unfold lo, c0 in *; lia|unfold lo, c0 in *; lia|done..|exact Hr|exact Hs].
Qed.

Lemma do_call_schedule (c : proxy_call) :
  do_call c =
    _schedule (call_spec c) (call_input c) (call_retry c) (call_delay c)
      (call_sched c).
Proof. by destruct c. Qed.

Lemma spec_schedule_prefix (sp : spec) (ds : list decision) (id input : string) :
  spec_schedule sp ds id input = (ds ++ spec_schedule sp [] id input)%list ∧
  ∃ d, spec_schedule sp [] id input = [d] ∧ is_scheduling d = true.
Proof. unfold spec_schedule. destruct (spec_kind_of sp); eauto. Qed.

(** A scheduling method leaves the scheduler alone or appends its one
    decision; it never talks to the client or touches the flags. *)
Lemma sched_effect (s s' : scheduler) (ds : list decision) :
  (s' = s ∨ (under_limit s = true ∧ s' = set_decisions (_decisions s ++ ds) s)) →
  _swf_client s' = _swf_client s ∧ _closed s' = _closed s ∧
  _rate_limit s' = _rate_limit s ∧ _token s' = _token s ∧
  (_decisions s' = _decisions s ∨ _decisions s' = (_decisions s ++ ds)%list).
Proof. intros [->|[_ ->]]; simpl; split_and!; eauto. Qed.

Lemma schedule_timer_cases (delay c : Z) (s : scheduler) :
  schedule_timer delay c s = s ∨
  (under_limit s = true ∧
   schedule_timer delay c s =
     set_decisions (_decisions s ++ [StartTimer (Str.str c) (Str.str delay)]) s).
Proof. unfold schedule_timer. destruct (under_limit s); eauto. Qed.

Lemma call_sched_cases (c : proxy_call) (i : Z) (s : scheduler) :
  call_sched c (call_spec c) i (call_input c) s = s ∨
  (under_limit s = true ∧
   call_sched c (call_spec c) i (call_input c) s =
     set_decisions (_decisions s ++ call_decision c i) s).
Proof.
  destruct c; simpl; unfold schedule_activity, schedule_workflow;
    destruct (under_limit s); eauto; right; (split; [done|]);
    f_equal; apply spec_schedule_prefix.
Qed.

Lemma call_decision_single (c : proxy_call) (i : Z) :
  ∃ d, call_decision c i = [d] ∧ is_scheduling d = true.
Proof.
  destruct c; simpl;
    [apply (proj2 (spec_schedule_prefix sp [] (Str.str i) input))
    |apply (proj2 (spec_schedule_prefix sp []
                     (uuid +:+ "-" +:+ Str.str i) input))].
Qed.

(** X7. A proxy call reads the snapshot and never writes it; it never
    sends anything and never closes the buffer; it appends at most one
    decision, a scheduling one, and when it does it reports [_RUNNING] and
    the [scheduled] flag is up; and it never lowers the flag. *)
Theorem proxy_call_frame (c : proxy_call) (w : workflow) :
  let r := do_call c w in
  (_running r.2 = _running w ∧ _timedout r.2 = _timedout w ∧
   _results r.2 = _results w ∧ _errors r.2 = _errors w ∧
   _order r.2 = _order w) ∧
  (_swf_client (_scheduler r.2) = _swf_client (_scheduler w) ∧
   _closed (_scheduler r.2) = _closed (_scheduler w) ∧
   _rate_limit (_scheduler r.2) = _rate_limit (_scheduler w)) ∧
  (∃ ds, _decisions (_scheduler r.2) = (_decisions (_scheduler w) ++ ds)%list ∧
         (length ds ≤ 1)%nat ∧ Forall (λ d, is_scheduling d = true) ds ∧
         (ds ≠ [] → r.1 = Ok (_RUNNING, None, None) ∧ _scheduled r.2 = true)) ∧
  (_scheduled w = true → _scheduled r.2 = true).
Proof.
  intros r. unfold r. rewrite do_call_schedule.
  destruct (schedule_cases (call_spec c) (call_input c) (call_retry c)
              (call_delay c) (call_sched c) w)
    as [Hs|[(_ & _ & _ & Hr & Hs)|(i & _ & _ & _ & _ & _ & _ & Hr & Hs)]];
    rewrite Hs; simpl.
  - split_and!; try done. exists []. rewrite app_nil_r.
    split_and!; [done|simpl; lia|constructor|done].
  - destruct (schedule_timer_cases (call_delay c) (_call_id w) (_scheduler w))
      as [->|[_ ->]]; simpl; (split_and!; try done).
    + exists []. rewrite app_nil_r.
      split_and!; [done|simpl; lia|constructor|done].
    + eexists [_]. split_and!; [done|simpl; lia|by repeat constructor|done].
  - destruct (call_sched_cases c i (_scheduler w)) as [->|[_ ->]]; simpl;
      (split_and!; try done).
    + exists []. rewrite app_nil_r.
      split_and!; [done|simpl; lia|constructor|done].
    + destruct (call_decision_single c i) as (d & -> & Hd).
      exists [d]. split_and!; [done|simpl; lia|by repeat constructor|done].
Qed.

(** X8. For a call with a non-negative delay and retry count, what the
    call appends to the buffer is nothing, or the timer of the call under
    the id [c0] the call started from (only when the delay is positive), or
    the task of the call under an id [i] of its retry window,
    [c0 + [d > 0] <= i <= c0 + [d > 0] + r]; every such id is at least
    [c0] and below the cursor the call leaves behind. *)
Theorem proxy_call_ids_in_window (c : proxy_call) (w : workflow) :
  (0 ≤ call_retry c)%Z → (0 ≤ call_delay c)%Z →
  let r := do_call c w in
  let c0 := _call_id w in
  let lo := c0 + (if bool_decide (call_delay c > 0) then 1 else 0) in
  (c0 < _call_id r.2)%Z ∧
  ∃ ds, _decisions (_scheduler r.2) = (_decisions (_scheduler w) ++ ds)%list ∧
    (ds = [] ∨
     (call_delay c > 0 ∧
      ds = [StartTimer (Str.str c0) (Str.str (call_delay c))]) ∨
     ∃ i, (lo ≤ i ≤ lo + call_retry c)%Z ∧ (i < _call_id r.2)%Z ∧
          ds = call_decision c i).
Proof.
  intros Hretry Hdelay r c0 lo.
  assert (_call_id r.2 = c0 + window c) as Hcur by apply do_call_call_id.
  unfold window in Hcur. fold lo in Hcur.
  split; [rewrite Hcur; case_bool_decide; lia|].
  revert Hcur. unfold r. rewrite do_call_schedule. intros Hcur.
  destruct (schedule_cases (call_spec c) (call_input c) (call_retry c)
              (call_delay c) (call_sched c) w)
    as [Hs|[(Hd & _ & _ & Hr & Hs)|(i & Hi & _ & _ & _ & _ & _ & Hr & Hs)]];
    rewrite Hs; simpl.
  - exists []. rewrite app_nil_r. eauto.
  - destruct (schedule_timer_cases (call_delay c) (_call_id w) (_scheduler w))
      as [->|[_ ->]]; simpl.
    + exists []. rewrite app_nil_r. eauto.
    + eexists. split; [done|]. right. left. split; [lia|done].
  - destruct (call_sched_cases c i (_scheduler w)) as [->|[_ ->]]; simpl.
    + exists []. rewrite app_nil_r. eauto.
    + eexists. split; [done|]. right. right. exists i.
      assert ((if bool_decide (call_delay c ≠ 0) then c0 + 1 else c0) = lo)
        as Hlo.
      { unfold lo. repeat case_bool_decide; lia. }
      fold c0 in Hi. rewrite Hlo in Hi. split_and!; [lia..|done].
Qed.

(** A call made with the flag already up leaves it up. *)
Lemma proxy_call_frame_witness :
  let c := CallActivity Samples.activity_spec0 "[[], {}]" 1 30 in
  _scheduled (do_call c (set_scheduled true Samples.fresh_turn)).2 = true.
Proof.
  intros c.
  by apply (proj2 (proj2 (proj2
              (proxy_call_frame c (set_scheduled true Samples.fresh_turn))))).
Defined.

(** A delayed call with one retry in an empty history starts its timer
    under id 0, below the cursor 3 it leaves. *)
Lemma proxy_call_ids_in_window_witness :
  let c := CallActivity Samples.activity_spec0 "[[], {}]" 1 30 in
  (0 < _call_id (do_call c Samples.fresh_turn).2)%Z.
Proof.
  intros c.
  apply (proxy_call_ids_in_window c Samples.fresh_turn); simpl; lia.
Defined.

(** X9. [_finish] writes a complete decision only when nothing was
    scheduled in the turn and nothing is running, and then for a value (or
    the value of a [Result]) the codec could encode, whose encoding it
    carries; any other complete decision in the buffer was there before. *)
Theorem finish_completes_only_when_idle (result : run_result) (w : workflow)
    (d : decision) :
  d ∈ _decisions (_scheduler (_finish result w).2) →
  is_complete d = true →
  d ∈ _decisions (_scheduler w) ∨
  (_scheduled w = false ∧ _running w = ∅ ∧
   ∃ v r, (result = Value v ∨ result = IsResult v) ∧
          _serialize_result (_codec w) v = Ok r ∧
          d = CompleteWorkflowExecution r).
Proof.
  assert (∀ f w0, _decisions (_scheduler (ask_scheduler f w0).2) =
                  _decisions (f (_scheduler w0)).2) as Hask.
  { intros f w0. unfold ask_scheduler. by destruct (f (_scheduler w0)). }
  assert (∀ v, d ∈ _decisions (_scheduler (_finish (Value v) w).2) →
               is_complete d = true →
               d ∈ _decisions (_scheduler w) ∨
               (_scheduled w = false ∧ _running w = ∅ ∧
                ∃ r, _serialize_result (_codec w) v = Ok r ∧
                     d = CompleteWorkflowExecution r)) as Hval.
  { intros v. unfold _finish.
    destruct (negb (_scheduled w) && bool_decide (_running w = ∅)) eqn:Hidle.
    - apply andb_true_iff in Hidle as [H1%negb_true_iff H2%bool_decide_eq_true].
      destruct (_serialize_result (_codec w) v) as [r|e].
      + rewrite Hask. unfold complete. rewrite SchedulerFacts.flush_snd. simpl.
        intros ->%list_elem_of_singleton _. right. eauto.
      + case_decide; simpl; intros; by left.
    - rewrite Hask, SchedulerFacts.flush_snd. simpl. intros; by left. }
  destruct result as [v|v|reason|reason].
  - intros Hin Hc. destruct (Hval v Hin Hc) as [?|(? & ? & r & ? & ?)];
      [by left|]. right. split_and!; [done..|]. exists v, r. eauto.
  - intros Hin Hc. destruct (Hval v Hin Hc) as [?|(? & ? & r & ? & ?)];
      [by left|]. right. split_and!; [done..|]. exists v, r. eauto.
  - unfold _finish. rewrite Hask. unfold fail.
    rewrite SchedulerFacts.flush_snd. simpl.
    by intros ->%list_elem_of_singleton ?.
  - unfold _finish. rewrite Hask. unfold fail.
    rewrite SchedulerFacts.flush_snd. simpl.
    by intros ->%list_elem_of_singleton ?.
Qed.

(** A fresh runtime whose body returns 7 completes with ["7"]. *)
Lemma finish_completes_only_when_idle_witness :
  _scheduled Samples.fresh_turn = false ∧ _running Samples.fresh_turn = ∅.
Proof.
  destruct (finish_completes_only_when_idle (Value (PyInt 7)) Samples.fresh_turn
              (CompleteWorkflowExecution "7"))
    as [Hin|(Hs & Hr & _)].
  - vm_compute. by left.
  - done.
  - by vm_compute in Hin.
  - done.
Defined.

End RuntimeMore.

(** ** Size caps and the child policy *)

Module BufferMore.
Import Layer1 Context BufferSpec BufferFacts ContextFacts BufferMoreSpec.

Lemma take_length (n : nat) (s : string) :
  String.length (Str.take n s) = Nat.min n (String.length s).
Proof.
  unfold Str.take. revert s. induction n as [|n IH]; intros s.
  - by destruct s.
  - destruct s as [|a s]; [done|]. simpl. by rewrite IH.
Qed.

Lemma take_short (n : nat) (s : string) :
  (String.length s ≤ n)%nat → Str.take n s = s.
Proof.
  unfold Str.take. revert s. induction n as [|n IH]; intros s Hs.
  - destruct s; [done|simpl in Hs; lia].
  - destruct s as [|a s]; [done|]. simpl in *. rewrite IH; [done|lia].
Qed.

Lemma take_prefix (n : nat) (s : string) : ∃ rest, s = Str.take n s +:+ rest.
Proof.
  unfold Str.take. revert s. induction n as [|n IH]; intros s.
  - exists s. by destruct s.
  - destruct s as [|a s]; [by exists ""|]. simpl.
    destruct (IH s) as [rest Hr]. exists rest.
    change (String a (substring 0 n s) +:+ rest)
      with (String a (substring 0 n s +:+ rest)).
    by rewrite <- Hr.
Qed.

Lemma cp_encode_valid (v v' : option string) :
  _cp_encode v = Ok v' → v' = Str.upper <$> v ∧ v' ∈ _CHILD_POLICY.
Proof. unfold _cp_encode. case_decide; naive_solver. Qed.

Lemma context_ok_caps_append (base : layer1) (c : context) (l : layer1)
    (d : decision) :
  is_scheduling d = true →
  buffer_ok base (Forall within_caps) (decisions c) (closed c) l →
  buffer_ok base (Forall within_caps) (decisions c ++ [d]) (closed c) l.
Proof.
  intros Hd Hok. apply buffer_ok_append; [done..|].
  apply Forall_app. split; [apply Hok|].
  constructor; [|constructor]. by destruct d.
Qed.

Lemma context_ok_caps_terminal (base : layer1) (c : context) (l : layer1)
    (d : decision) :
  is_terminal d = true → within_caps d →
  buffer_ok base (Forall within_caps) (decisions c) (closed c) l →
  let st' := flush (with_decisions [d] c, l) in
  buffer_ok base (Forall within_caps) (decisions st'.1) (closed st'.1) st'.2.
Proof.
  intros Hd Hc Hok st'. unfold st'. rewrite flush_eq. simpl.
  eapply buffer_ok_terminal; [done..|]. by repeat constructor.
Qed.

Lemma context_ok_caps_emptied (base : layer1) (c : context) (l : layer1) :
  buffer_ok base (Forall within_caps) (decisions c) (closed c) l →
  buffer_ok base (Forall within_caps) [] (closed c) l.
Proof.
  intros [_ Hs]. split; [constructor|].
  destruct (closed c); [done|]. destruct Hs. split; [done|constructor].
Qed.

Lemma context_ok_caps_step (base : layer1) (st : context * layer1) (o : op) :
  buffer_ok base (Forall within_caps) (decisions st.1) (closed st.1) st.2 →
  buffer_ok base (Forall within_caps) (decisions (apply st o).1)
    (closed (apply st o).1) (apply st o).2.
Proof.
  destruct st as [c l]. cbn [fst snd]. intros Hok.
  assert (∀ reason,
            buffer_ok base (Forall within_caps)
              (decisions (fail reason (c, l)).1) (closed (fail reason (c, l)).1)
              (fail reason (c, l)).2) as Hfail.
  { intros reason.
    apply (context_ok_caps_terminal base c l
             (FailWorkflowExecution (Str.take _REASON_SIZE reason)) eq_refl);
      [|done].
    simpl. rewrite take_length. lia. }
  destruct o; cbn [apply].
  - rewrite flush_eq. cbn [fst snd]. simpl. by apply buffer_ok_flush.
  - apply Hfail.
  - apply (context_ok_caps_terminal base c l
             (CompleteWorkflowExecution (Str.take _RESULT_SIZE result)) eq_refl);
      [|done].
    simpl. rewrite take_length. lia.
  - unfold restart.
    change (child_policy (with_decisions [] c)) with (child_policy c).
    destruct (_cp_encode (child_policy c)) as [cp|e] eqn:Hcp; cbn [snd].
    + apply (context_ok_caps_terminal base (with_decisions [] c) l
               (ContinueAsNewWorkflowExecution
                  (Str.take _INPUT_SIZE input_data) cp (_tags (tags c))
                  [decision_duration c; workflow_duration c;
                   Some (task_list c)]) eq_refl).
      * simpl. rewrite take_length. split; [lia|].
        by apply cp_encode_valid in Hcp as [_ ?].
      * exact (context_ok_caps_emptied base c l Hok).
    + exact (context_ok_caps_emptied base c l Hok).
  - unfold activity_schedule. case_match.
    + simpl. by apply context_ok_caps_append.
    + destruct (ap_serialize_input p args).
      * simpl. by apply context_ok_caps_append.
      * apply Hfail.
  - unfold workflow_schedule. case_match.
    + simpl. by apply context_ok_caps_append.
    + destruct (wp_serialize_input p args).
      * simpl. by apply context_ok_caps_append.
      * apply Hfail.
Qed.

Lemma context_ok_caps_run (base : layer1) (ops : list op) (st : context * layer1) :
  buffer_ok base (Forall within_caps) (decisions st.1) (closed st.1) st.2 →
  buffer_ok base (Forall within_caps) (decisions (run ops st).1)
    (closed (run ops st).1) (run ops st).2.
Proof.
  revert st. induction ops as [|o ops IH]; intros st Hok; [done|].
  simpl. apply IH. by apply context_ok_caps_step.
Qed.

(** X10. Whatever a decision turn does with a [SWFWorkflowContext], the
    response it sends keeps the caps of the terminal decisions: a fail
    reason has at most 256 characters, a workflow result and the input of a
    restart at most 32768, and the child policy of a restart is [TERMINATE],
    [REQUEST_CANCEL], [ABANDON] or none. What is cut is the tail: the field
    sent is the first characters of the text given, and a text within the
    cap is sent as it is. *)
Theorem context_responses_capped :
  (∀ ops c l,
     ∃ sent,
       responses (run ops (with_closed false (with_decisions [] c), l)).2 =
         (responses l ++ sent)%list ∧
       Forall (Forall within_caps) sent) ∧
  (∀ n s, String.length (Str.take n s) = Nat.min n (String.length s) ∧
          (∃ rest, s = Str.take n s +:+ rest) ∧
          ((String.length s ≤ n)%nat → Str.take n s = s)).
Proof.
  split.
  - intros ops c l.
    destruct (buffer_ok_sent l (Forall within_caps) _ _ _
                (context_ok_caps_run l ops
                   (with_closed false (with_decisions [] c), l)
                   ltac:(by repeat split; simpl; constructor)))
      as (sent & Hr & _ & Hall).
    exists sent. split; [done|].
    eapply Forall_impl; [done|]. by intros r [_ ?].
  - intros n s. split_and!;
      [apply take_length|apply take_prefix|apply take_short].
Qed.

(** A text within the cap is sent as it is. *)
Lemma context_responses_capped_witness :
  Str.take 3 "ab" = "ab".
Proof.
  destruct context_responses_capped as [_ H].
  apply (H 3%nat "ab"). simpl. lia.
Defined.

(** X11. [_cp_encode] accepts a child policy when its upper-case form is
    [TERMINATE], [REQUEST_CANCEL] or [ABANDON], or when there is none, and
    hands back that form, which it accepts again unchanged; anything else
    raises [ValueError]. A restart of the context under a policy that is
    not accepted raises before anything is sent, and leaves the buffer
    empty. *)
Theorem cp_encode_accepts (v : option string) :
  (∀ v', _cp_encode v = Ok v' ↔
         v' = Str.upper <$> v ∧ v' ∈ _CHILD_POLICY) ∧
  (∀ v', _cp_encode v = Ok v' → _cp_encode v' = Ok v') ∧
  (Str.upper <$> v ∉ _CHILD_POLICY → raises ValueError (_cp_encode v)) ∧
  (∀ input c l,
     child_policy c = v → Str.upper <$> v ∉ _CHILD_POLICY →
     raises ValueError (restart input (c, l)).1 ∧
     (restart input (c, l)).2 = (with_decisions [] c, l)).
Proof.
  split_and!.
  - intros v'. split; [apply cp_encode_valid|].
    intros [-> Hin]. unfold _cp_encode. by rewrite decide_True.
  - intros v' [-> Hin]%cp_encode_valid.
    unfold _CHILD_POLICY in Hin.
    repeat (apply elem_of_cons in Hin as [Hin|Hin]; [by rewrite Hin|]).
    by apply elem_of_nil in Hin.
  - intros Hn. unfold _cp_encode. by rewrite decide_False.
  - intros input c l <- Hn. unfold restart, _cp_encode.
    by rewrite decide_False.
Qed.

Lemma cp_encode_accepts_witness :
  _cp_encode (Some "terminate") = Ok (Some "TERMINATE") ∧
  raises ValueError (_cp_encode (Some "stop")).
Proof.
  destruct (cp_encode_accepts (Some "terminate")) as (H1 & _).
  destruct (cp_encode_accepts (Some "stop")) as (_ & _ & H3 & _).
  split.
  - apply H1. split; [done|]. apply (bool_decide_unpack _). by vm_compute.
  - apply H3. apply (bool_decide_unpack _). by vm_compute.
Defined.

End BufferMore.

(** ** Polling *)

Module PollMore.
Import Layer1 Poll BufferMoreSpec.

(** X12. [poll_first_page] polls until a response carries a task token:
    it goes past every error and every response without a usable token,
    returns the first response that has one, and has then made one request
    per answer, each for the same domain and task list and without a page
    token. *)
Theorem poll_first_page_skips (fuel : nat) (domain task_list : string)
    (identity : option string) (l : layer1) (before : list (option page))
    (p : page) (rest : list (option page)) :
  polls l = (before ++ Some p :: rest)%list →
  Forall skipped before →
  truthy (taskToken p) = true →
  (length before < fuel)%nat →
  poll_first_page fuel domain task_list identity l =
    Some (Ok p,
          {| polls := rest; responds := responds l;
             log := (log l ++
                     replicate (S (length before))
                       (PollForDecisionTask domain task_list identity None))%list |}).
Proof.
  revert fuel l. induction before as [|a before IH]; intros fuel l Hp Hs Ht Hf;
    (destruct fuel as [|fuel]; [simpl in Hf; lia|]); simpl;
    unfold poll_for_decision_task; rewrite Hp; simpl.
  - by rewrite Ht.
  - inversion Hs as [|? ? Ha Hs']; subst.
    assert (∀ l1, polls l1 = (before ++ Some p :: rest)%list →
                  responds l1 = responds l →
                  log l1 = (log l ++ [PollForDecisionTask domain task_list
                                        identity None])%list →
                  poll_first_page fuel domain task_list identity l1 =
                  Some (Ok p,
                        {| polls := rest; responds := responds l;
                           log := (log l ++
                                   PollForDecisionTask domain task_list identity
                                     None ::
                                   PollForDecisionTask domain task_list identity
                                     None ::
                                   replicate (length before)
                                     (PollForDecisionTask domain task_list
                                        identity None))%list |})) as Hnext.
    { intros l1 Hp1 Hr1 Hl1.
      rewrite (IH fuel l1 Hp1 Hs' Ht ltac:(simpl in Hf; lia)).
      rewrite Hr1, Hl1, <- app_assoc. done. }
    destruct a as [q|]; simpl in Ha.
    + rewrite Ha. by apply Hnext.
    + by apply Hnext.
Qed.

(** An error, then a response without token, then the task. *)
Lemma poll_first_page_skips_witness :
  poll_first_page 3 "D" "T" None
    {| polls := [None; Some MoreSamples.page2; Some PollSamples.page1];
       responds := []; log := [] |} =
  Some (Ok PollSamples.page1,
        {| polls := []; responds := [];
           log := replicate 3 (PollForDecisionTask "D" "T" None None) |}).
Proof.
  exact (poll_first_page_skips 3 "D" "T" None
           {| polls := [None; Some MoreSamples.page2; Some PollSamples.page1];
              responds := []; log := [] |}
           [None; Some MoreSamples.page2] PollSamples.page1 [] eq_refl
           ltac:(repeat constructor) eq_refl ltac:(simpl; lia)).
Defined.

Lemma poll_response_page_loop_succeeds (n k : nat)
    (domain task_list token : string) (identity : option string) (l : layer1)
    (p : page) (rest : list (option page)) :
  polls l = (replicate k None ++ Some p :: rest)%list →
  (k < n)%nat →
  poll_response_page_loop n domain task_list token identity l =
    Some (Ok p,
          {| polls := rest; responds := responds l;
             log := (log l ++
                     replicate (S k) (PollForDecisionTask domain task_list
                                        identity (Some token)))%list |}).
Proof.
  revert n l. induction k as [|k IH]; intros n l Hp Hk;
    (destruct n as [|n]; [lia|]); simpl;
    unfold poll_for_decision_task; rewrite Hp; simpl; [done|].
  erewrite IH; [|reflexivity|lia]. simpl. by rewrite <- app_assoc.
Qed.

(** X13. [poll_response_page] asks for the page again after each failure:
    when fewer than seven polls fail before one goes through it returns
    that page, having made one request more than there were failures; when
    seven polls fail it raises [_PaginationError] after exactly seven
    requests. Every request names the page token it was given. *)
Theorem poll_response_page_retries (domain task_list token : string)
    (identity : option string) (l : layer1) (rest : list (option page)) :
  (∀ k p,
     polls l = (replicate k None ++ Some p :: rest)%list → (k < 7)%nat →
     poll_response_page domain task_list token identity l =
       Some (Ok p,
             {| polls := rest; responds := responds l;
                log := (log l ++
                        replicate (S k) (PollForDecisionTask domain task_list
                                           identity (Some token)))%list |})) ∧
  (polls l = (replicate 7 None ++ rest)%list →
   poll_response_page domain task_list token identity l =
     Some (Err (Raise _PaginationError ""),
           {| polls := rest; responds := responds l;
              log := (log l ++
                      replicate 7 (PollForDecisionTask domain task_list
                                     identity (Some token)))%list |})).
Proof.
  split.
  - intros k p Hp Hk. by apply poll_response_page_loop_succeeds.
  - apply PollFacts.poll_response_page_gives_up.
Qed.

(** Six failures and then the page. *)
Lemma poll_response_page_retries_witness :
  ∃ l', poll_response_page "D" "T" "p2" None
          {| polls := replicate 6 None ++ [Some MoreSamples.page2];
             responds := []; log := [] |} =
        Some (Ok MoreSamples.page2, l') ∧ length (log l') = 7%nat.
Proof.
  eexists. split.
  - apply (proj1 (poll_response_page_retries "D" "T" "p2" None
                    {| polls := replicate 6 None ++ [Some MoreSamples.page2];
                       responds := []; log := [] |} []) 6%nat
             MoreSamples.page2); [reflexivity|lia].
  - reflexivity.
Defined.

End PollMore.

(** ** The descending counter *)

Module CounterMore.
Import DescCounter.

Lemma consume_n_unbounded (n : nat) :
  consume_n n None = (replicate n true, None).
Proof. induction n as [|n IH]; [done|]. simpl. by rewrite IH. Qed.

Lemma consume_n_bounded (n m : nat) :
  consume_n n (Some m) =
    ((replicate (Nat.min n m) true ++ replicate (n - m) false)%list,
     Some (m - n)%nat).
Proof.
  revert m. induction n as [|n IH]; intros m.
  - by destruct m.
  - destruct m as [|m]; cbn [consume_n consume]; rewrite IH.
    + rewrite Nat.min_0_r, !Nat.sub_0_r. reflexivity.
    + reflexivity.
Qed.

(** X14. A [DescCounter] made for [to] positions grants the first
    [max(0, to)] requests and refuses every later one; made without a bound
    it grants them all. *)
Theorem counter_grants (to : option Z) (n : nat) :
  (consume_n n (new to)).1 =
    match to with
    | None => replicate n true
    | Some t =>
        (replicate (Nat.min n (Z.to_nat t)) true ++
         replicate (n - Z.to_nat t) false)%list
    end.
Proof.
  destruct to as [t|]; simpl.
  - by rewrite consume_n_bounded.
  - by rewrite consume_n_unbounded.
Qed.

End CounterMore.

(** ** Registration *)

Module ConfigMore.
Import Config.

Lemma timer_encode_Ok (val : option Z) (name : string) (r : option string) :
  _timer_encode val name = Ok r →
  match val with
  | None => r = None
  | Some n => (0 < n)%Z ∧ r = Some (Str.str n)
  end.
Proof.
  unfold _timer_encode. destruct val as [n|]; [|by intros [= <-]].
  case_decide; [done|]. intros [= <-].
  split; [lia|]. by replace (Z.max n 0) with n by lia.
Qed.

Lemma timer_encode_Err (n : Z) (name : string) :
  (n ≤ 0)%Z → raises ValueError (_timer_encode (Some n) name).
Proof.
  intros Hn. unfold _timer_encode.
  rewrite decide_True by lia. done.
Qed.

Lemma workflow_check_compatible_iff (cfg : workflow_config) (svc : registry)
    (domain : string) (v : workflow_values) :
  workflow_cvt_values cfg = Done v →
  (workflow_check_compatible cfg svc domain = Done tt ↔
   ∃ d, on_describe svc domain (wv_name v) (wv_version v) = Described d ∧
        workflow_matches d v).
Proof.
  intros Hv. unfold workflow_check_compatible, workflow_matches.
  rewrite Hv. simpl.
  destruct (on_describe svc domain (wv_name v) (wv_version v)) as [d|msg].
  - repeat case_decide; split; try done; naive_solver.
  - split; [done|]. by intros (d & ? & _).
Qed.

(** X15. [register_remote] of a workflow configuration returns without
    raising exactly when the configuration converts and either the service
    registers the type as new, or the type exists already and the service
    describes it with the same four defaults (task list, decision duration,
    workflow duration, child policy). A configuration that converts has a
    name, strictly positive durations, which are sent in decimal, and an
    accepted child policy; one that does not raises the conversion's
    exception whatever the service would answer. *)
Theorem workflow_register_remote_iff (cfg : workflow_config) (svc : registry)
    (domain : string) :
  (workflow_register_remote cfg svc domain = Done tt ↔
   ∃ v, workflow_cvt_values cfg = Done v ∧
        let answer :=
          on_register svc domain (wv_name v) (wv_version v)
            [wv_task_list v; wv_workflow_duration v; wv_decision_duration v;
             wv_child_policy v] in
        (answer = Registered ∨
         (answer = TypeAlreadyExists ∧
          ∃ d, on_describe svc domain (wv_name v) (wv_version v) = Described d ∧
               workflow_matches d v))) ∧
  (∀ v, workflow_cvt_values cfg = Done v →
        w_name cfg = Some (wv_name v) ∧
        (∀ n, w_default_workflow_duration cfg = Some n →
              (0 < n)%Z ∧ wv_workflow_duration v = Some (Str.str n)) ∧
        (∀ n, w_default_decision_duration cfg = Some n →
              (0 < n)%Z ∧ wv_decision_duration v = Some (Str.str n)) ∧
        wv_child_policy v ∈ Context._CHILD_POLICY) ∧
  (∀ e, workflow_cvt_values cfg = Raised e →
        workflow_register_remote cfg svc domain = Raised e).
Proof.
  split_and!.
  - unfold workflow_register_remote, workflow_try_register_remote.
    destruct (workflow_cvt_values cfg) as [v|e] eqn:Hv; simpl.
    + pose proof (workflow_check_compatible_iff cfg svc domain v Hv) as Hc.
      destruct (on_register svc domain _ _ _) eqn:Hreg; simpl.
      * split; [|done]. intros _. exists v. rewrite Hreg. eauto.
      * rewrite Hc. split.
        -- intros Hd. exists v. rewrite Hreg. eauto.
        -- intros (v' & [= <-] & Ha). rewrite Hreg in Ha.
           destruct Ha as [?|[_ ?]]; done.
      * split; [done|]. intros (v' & [= <-] & Ha). rewrite Hreg in Ha.
        destruct Ha as [?|[? _]]; done.
    + split; [done|]. by intros (v' & ? & _).
  - intros v. unfold workflow_cvt_values.
    destruct (w_name cfg) as [n|]; [|done].
    destruct (_timer_encode (w_default_workflow_duration cfg) _)
      as [d_w_d|] eqn:Hw; simpl; [|done].
    destruct (_timer_encode (w_default_decision_duration cfg) _)
      as [d_d_d|] eqn:Hd; simpl; [|done].
    destruct (Context._cp_encode (w_default_child_policy cfg))
      as [d_c_p|] eqn:Hc; simpl; [|done].
    intros [= <-]. simpl.
    apply timer_encode_Ok in Hw, Hd.
    apply BufferMore.cp_encode_valid in Hc as [_ Hc].
    split_and!; [done| | |done].
    + intros n' Hn. by rewrite Hn in Hw.
    + intros n' Hn. by rewrite Hn in Hd.
  - intros e He. unfold workflow_register_remote, workflow_try_register_remote.
    by rewrite He.
Qed.

(** A workflow the service knows already, described with the defaults the
    configuration converts to, registers without raising; its decision
    duration of 60 is sent as the decimal ["60"]. *)
Lemma workflow_register_remote_iff_witness :
  workflow_register_remote ConfigSamples.workflow_config0
    ConfigSamples.registry0 "D" = Done tt ∧
  ((0 < 60)%Z ∧
   wv_decision_duration ConfigSamples.workflow_values0 = Some (Str.str 60)).
Proof.
  destruct (workflow_register_remote_iff ConfigSamples.workflow_config0
              ConfigSamples.registry0 "D") as (Hiff & Hval & _).
  split.
  - apply (proj2 Hiff). exists ConfigSamples.workflow_values0.
    split; [by vm_compute|]. right. split; [reflexivity|].
    exists (described_workflow ConfigSamples.workflow_values0).
    split; [reflexivity|]. by vm_compute.
  - destruct (Hval ConfigSamples.workflow_values0) as (_ & _ & Hd & _);
      [by vm_compute|].
    apply (Hd 60%Z). reflexivity.
Defined.

Lemma activity_check_compatible_iff (cfg : activity_config) (svc : registry)
    (domain : string) (v : activity_values) :
  activity_cvt_values cfg = Done v →
  (activity_check_compatible cfg svc domain = Done tt ↔
   ∃ d, on_describe svc domain (av_name v) (av_version v) = Described d ∧
        activity_matches d v).
Proof.
  intros Hv. unfold activity_check_compatible, activity_matches.
  rewrite Hv. simpl.
  destruct (on_describe svc domain (av_name v) (av_version v)) as [d|msg].
  - repeat case_decide; split; try done; naive_solver.
  - split; [done|]. by intros (d & ? & _).
Qed.

(** X16. [register_remote] of an activity configuration returns without
    raising exactly when the name is set and either the service registers
    the type as new, or the type exists already and the service describes
    it with the same five defaults (task list, heartbeat, schedule to close,
    schedule to start, start to close). Unlike the durations of a workflow
    the four timeouts are not checked: whatever number is given, zero and
    negative ones too, is sent in decimal, and the only exception of the
    conversion is the [RuntimeError] for a missing name. *)
Theorem activity_register_remote_iff (cfg : activity_config) (svc : registry)
    (domain : string) :
  (activity_register_remote cfg svc domain = Done tt ↔
   ∃ v, activity_cvt_values cfg = Done v ∧
        let answer :=
          on_register svc domain (av_name v) (av_version v)
            [av_task_list v; av_heartbeat v; av_schedule_to_close v;
             av_schedule_to_start v; av_start_to_close v] in
        (answer = Registered ∨
         (answer = TypeAlreadyExists ∧
          ∃ d, on_describe svc domain (av_name v) (av_version v) = Described d ∧
               activity_matches d v))) ∧
  (∀ n, a_name cfg = Some n →
        ∃ v, activity_cvt_values cfg = Done v ∧ av_name v = n ∧
             av_heartbeat v = Str.str <$> a_default_heartbeat cfg ∧
             av_schedule_to_close v = Str.str <$> a_default_schedule_to_close cfg ∧
             av_schedule_to_start v = Str.str <$> a_default_schedule_to_start cfg ∧
             av_start_to_close v = Str.str <$> a_default_start_to_close cfg) ∧
  (∀ e, activity_cvt_values cfg = Raised e →
        a_name cfg = None ∧ e = RuntimeError "Name is not set." ∧
        activity_register_remote cfg svc domain = Raised e).
Proof.
  split_and!.
  - unfold activity_register_remote, activity_try_register_remote.
    destruct (activity_cvt_values cfg) as [v|e] eqn:Hv; simpl.
    + pose proof (activity_check_compatible_iff cfg svc domain v Hv) as Hc.
      destruct (on_register svc domain _ _ _) eqn:Hreg; simpl.
      * split; [|done]. intros _. exists v. rewrite Hreg. eauto.
      * rewrite Hc. split.
        -- intros Hd. exists v. rewrite Hreg. eauto.
        -- intros (v' & [= <-] & Ha). rewrite Hreg in Ha.
           destruct Ha as [?|[_ ?]]; done.
      * split; [done|]. intros (v' & [= <-] & Ha). rewrite Hreg in Ha.
        destruct Ha as [?|[? _]]; done.
    + split; [done|]. by intros (v' & ? & _).
  - intros n Hn. unfold activity_cvt_values. rewrite Hn. eauto 10.
  - intros e. unfold activity_register_remote, activity_try_register_remote,
      activity_cvt_values.
    destruct (a_name cfg); [done|]. by intros [= <-].
Qed.

(** An activity with a heartbeat of 0 and a schedule-to-close of -5 is
    registered with these values as they are. *)
Lemma activity_register_remote_iff_witness :
  ∃ v, activity_cvt_values ConfigSamples.activity_config0 = Done v ∧
       av_heartbeat v = Some (Str.str 0) ∧
       av_schedule_to_close v = Some (Str.str (-5)).
Proof.
  destruct (activity_register_remote_iff ConfigSamples.activity_config0
              ConfigSamples.registry1 "D") as (_ & Hval & _).
  destruct (Hval "act" eq_refl) as (v & Hv & _ & Hh & Hc & _).
  exists v. split; [exact Hv|]. split; [exact Hh|exact Hc].
Defined.

End ConfigMore.

(** ** Activity tasks *)

Module ActivityMore.
Import Task Activity.

Lemma accepted_send (q : request) (c : client) :
  accepted (send q c) =
    (Ok (bool_decide (head (answers c) ≠ Some false)),
     {| answers := tail (answers c); sent := sent c ++ [q] |}).
Proof.
  unfold accepted, send. by destruct (answers c) as [|[] rest].
Qed.

(** X17. Running an activity task ([Task.__call__] over [activity_fail]
    and [activity_finish]) sends, after whatever the body sent, at most one
    request. It sends none when the input cannot be decoded, when the body
    suspends and when the result cannot be encoded (the task is then
    neither completed nor failed). A body that raises anything else fails
    the task with the first 256 characters of the message; a body that
    returns completes it with the whole encoded result, which is not cut.
    The call returns true only when the body suspended or the service took
    the response. *)
Theorem activity_task_answers_once (cd : codec) (input token : string)
    (run : list pyobj → client → res pyobj * client) (c c' : client)
    (r : res bool) :
  call cd input token run c = (r, c') →
  let body := match _deserialize_arguments cd input with
              | Ok args => Some (run args c)
              | Err _ => None
              end in
  let c1 := from_option snd c body in
  let taken := bool_decide (head (answers c1) ≠ Some false) in
  (c' = c1 ∧ r ≠ Ok true ∧
   (body = None ∨
    ∃ v e, fst <$> body = Some (Ok v) ∧ _serialize_result cd v = Err e)) ∨
  (c' = c1 ∧ r = Ok true ∧
   ∃ e, fst <$> body = Some (Err e) ∧ kind e = SuspendTask) ∨
  (∃ e reason, fst <$> body = Some (Err e) ∧ kind e ≠ SuspendTask ∧
     reason = Str.take 256 (message e) ∧
     (String.length reason ≤ 256)%nat ∧
     sent c' = (sent c1 ++ [RespondActivityTaskFailed reason token])%list ∧
     r = Ok taken) ∨
  (∃ v result, fst <$> body = Some (Ok v) ∧
     _serialize_result cd v = Ok result ∧
     sent c' = (sent c1 ++ [RespondActivityTaskCompleted result token])%list ∧
     r = Ok taken).
Proof.
  unfold call. intros Hcall.
  destruct (_deserialize_arguments cd input) as [args|e]; simpl.
  - destruct (run args c) as [[v|e] c1] eqn:Hrun; simpl.
    + unfold activity_finish in Hcall.
      destruct (_serialize_result cd v) as [result|e] eqn:Hser.
      * rewrite accepted_send in Hcall. injection Hcall as <- <-.
        right. right. right. exists v, result. by simpl.
      * left. case_decide; injection Hcall as <- <-;
          (split_and!; [done|done|right; by exists v, e]).
    + case_decide as Hk.
      * unfold _suspend in Hcall. injection Hcall as <- <-.
        right. left. split_and!; [done..|]. by exists e.
      * unfold activity_fail in Hcall. rewrite accepted_send in Hcall.
        injection Hcall as <- <-.
        right. right. left. exists e, (Str.take 256 (message e)).
        split_and!; try done.
        rewrite BufferMore.take_length. lia.
  - left. case_decide; injection Hcall as <- <-; split_and!; auto; done.
Qed.

(** A body whose heartbeat goes through returns 42; the service then
    refuses the response, and the call returns false after sending the
    encoded result behind the heartbeat. *)
Lemma activity_task_answers_once_witness :
  let c := {| answers := [true; false]; sent := [] |} in
  let c' := {| answers := [];
               sent := [RecordActivityTaskHeartbeat "tok";
                        RespondActivityTaskCompleted "42" "tok"] |} in
  call atom_codec "[[], {}]" "tok" (beat_then (PyInt 42) "tok") c =
    (Ok false, c') ∧
  ∃ v result,
    _serialize_result atom_codec v = Ok result ∧
    sent c' = ([RecordActivityTaskHeartbeat "tok"] ++
               [RespondActivityTaskCompleted result "tok"])%list.
Proof.
  intros c c'.
  assert (call atom_codec "[[], {}]" "tok" (beat_then (PyInt 42) "tok") c =
            (Ok false, c')) as Hcall by (by vm_compute).
  split; [exact Hcall|].
  destruct (activity_task_answers_once atom_codec "[[], {}]" "tok"
              (beat_then (PyInt 42) "tok") c c' (Ok false) Hcall)
    as [(_ & _ & [H|(v & e & H & He)])
       |[(_ & H & _)
        |[(e & reason & H & _)
         |(v & result & _ & Hs & Hsent & _)]]].
  - by vm_compute in H.
  - vm_compute in H. injection H as <-. by vm_compute in He.
  - done.
  - by vm_compute in H.
  - exists v, result. split; [exact Hs|exact Hsent].
Defined.

End ActivityMore.

(** ** Starting a workflow *)

Module StarterMore.
Import Context Starter.

Lemma tags_bounded (tags : option (list string)) :
  match _tags tags with
  | None => tags = None
  | Some ts => (length ts ≤ 5)%nat ∧ NoDup ts ∧
               ∃ given, tags = Some given ∧ ts ⊆ given
  end.
Proof.
  destruct tags as [given|]; simpl; [|done].
  split_and!.
  - rewrite length_take. lia.
  - pose proof (NoDup_remove_dups given) as Hnd.
    rewrite <- (take_drop 5 (remove_dups given)) in Hnd.
    apply NoDup_app in Hnd. exact (proj1 Hnd).
  - exists given. split; [done|]. intros t Ht.
    apply (elem_of_remove_dups given t).
    exact (subseteq_take 5 (remove_dups given) t Ht).
Qed.

(** X18. Starting a workflow sends at most one request. When the
    serializer encodes the arguments and the child policy is an accepted
    one, exactly one request goes out: its input is the encoding cut to
    32768 characters, its child policy is the accepted upper-case form, it
    carries at most five distinct tags, its workflow id is the one given or
    else the drawn uuid, and the two durations go out in decimal without
    any check; the call returns whether the service took it. Otherwise
    nothing is sent and the call does not return true: the exception of the
    serializer or the [ValueError] of the child policy comes out, unless it
    is an [SWFResponseError], which is turned into false. *)
Theorem start_sends_well_formed (uuid4 domain name version : string)
    (task_list : option string) (decision_duration workflow_duration : option Z)
    (wid : option string) (tags : option (list string))
    (serialize_input : list pyobj → res string) (child_policy : option string)
    (args : list pyobj) (c c' : client) (r : res bool) :
  start uuid4 domain name version task_list decision_duration
    workflow_duration wid tags serialize_input child_policy args c = (r, c') →
  (∃ input req,
     serialize_input args = Ok input ∧
     Str.upper <$> child_policy ∈ _CHILD_POLICY ∧
     started c' = (started c ++ [req])%list ∧
     answers c' = tail (answers c) ∧
     well_formed_request req ∧
     sr_input req = Str.take _INPUT_SIZE input ∧
     sr_child_policy req = Str.upper <$> child_policy ∧
     sr_workflow_id req = default uuid4 wid ∧
     sr_execution_start_to_close_timeout req = Str.str <$> workflow_duration ∧
     sr_task_start_to_close_timeout req = Str.str <$> decision_duration ∧
     r = Ok (bool_decide (head (answers c) ≠ Some false))) ∨
  (c' = c ∧ r ≠ Ok true ∧
   ((∃ e, serialize_input args = Err e ∧
          r = if decide (kind e = SWFResponseError) then Ok false else Err e) ∨
    ((∃ input, serialize_input args = Ok input) ∧
     Str.upper <$> child_policy ∉ _CHILD_POLICY ∧ raises ValueError r))).
Proof.
  unfold start. intros Hstart.
  destruct (serialize_input args) as [input|e] eqn:Hser.
  - destruct (_cp_encode child_policy) as [cp|e] eqn:Hcp.
    + apply BufferMore.cp_encode_valid in Hcp as [-> Hin].
      left. eexists input, _. split; [done|]. split; [done|].
      unfold start_workflow_execution in Hstart.
      destruct (answers c) as [|[] rest] eqn:Ha; simpl in Hstart;
        injection Hstart as <- <-; simpl;
        (split_and!; try done;
         split_and!; simpl;
         [rewrite BufferMore.take_length; unfold _INPUT_SIZE; lia
         |done
         |pose proof (tags_bounded tags) as Ht;
          destruct (_tags tags); [naive_solver|done]]).
    + right. unfold _cp_encode in Hcp.
      destruct (decide (Str.upper <$> child_policy ∈ _CHILD_POLICY))
        as [|Hin]; [done|].
      injection Hcp as <-. simpl in Hstart. injection Hstart as <- <-.
      split_and!; [done..|]. right. split_and!; [by exists input|done..].
  - right. case_decide; injection Hstart as <- <-;
      (split_and!; [done..|]); left; exists e;
      (split; [done|]); [by rewrite decide_True|by rewrite decide_False].
Qed.

(** Started with seven tags, two of them equal, and the policy given in
    lower case, a workflow goes out under the drawn uuid with five tags
    and the policy in upper case. *)
Lemma start_sends_well_formed_witness :
  ∃ req, started (start PollSamples.uuid0 "D" "wf" "1" None (Some 0) None None
                    (Some ["a"; "b"; "a"; "c"; "d"; "e"; "f"])
                    serialize_args (Some "abandon") [PyInt 1]
                    Starter.client0).2 = [req] ∧
         well_formed_request req ∧
         sr_task_start_to_close_timeout req = Some (Str.str 0).
Proof.
  destruct (start PollSamples.uuid0 "D" "wf" "1" None (Some 0) None None
              (Some ["a"; "b"; "a"; "c"; "d"; "e"; "f"])
              serialize_args (Some "abandon") [PyInt 1] Starter.client0)
    as [r c'] eqn:Hs.
  destruct (start_sends_well_formed _ _ _ _ _ _ _ _ _ _ _ _ _ _ _ Hs)
    as [(input & req & _ & _ & Hsent & _ & Hwf & _ & _ & _ & _ & Hd & _)
       |(_ & _ & [(e & He & _)|(_ & Hn & _)])].
  - exists req. split; [exact Hsent|]. split; [exact Hwf|exact Hd].
  - by vm_compute in He.
  - exfalso. apply Hn. apply (bool_decide_unpack _). by vm_compute.
Defined.

End StarterMore.
